(** * GitMax: a shallow embedding of [gitmax.py] and [convert_oneliner.py]

    The development follows the two Python sources function by function.

    - Python [str] values are lists of characters ([list ascii]); a character
      stands for a code point below 256, with the upper-case letters and the
      white space that Python knows in that range.
    - [pathlib] is modelled in its POSIX flavour.
    - Everything the program asks of the outside (sub-processes, the file
      tree, the clock) is answered by a [world] that sees the history of
      the effects performed so far; every theorem about the workflow holds
      for every world.

    Part I holds the definitions, Part II the theorems. *)

From Stdlib Require Import Ascii String List ZArith Lia Bool Arith DecimalString.
From stdpp Require Import gmap strings list.
Import ListNotations.

Open Scope string_scope.
Open Scope nat_scope.
Open Scope list_scope.
Open Scope stdpp_scope.

(* ===================================================================== *)
(** * Part I: definitions                                                 *)
(* ===================================================================== *)

(** ** Python strings *)

Abbreviation str := (list ascii).

Coercion list_ascii_of_string : string >-> list.

Module Py.

Definition code (c : ascii) : nat := nat_of_ascii c.

Definition between (lo hi : nat) (c : ascii) : bool :=
  (lo <=? code c) && (code c <=? hi).

(** [str.lower] on one code point below 256: A-Z, and the Latin-1
    capitals U+00C0..U+00DE without the multiplication sign. *)
Definition lower_char (c : ascii) : ascii :=
  if between 65 90 c || (between 192 222 c && negb (code c =? 215))
  then ascii_of_nat (code c + 32)
  else c.

Definition lower (s : str) : str := map lower_char s.

(** [str.isspace] on one code point below 256; it is also what the
    regular expression [\s] matches on a [str] pattern. *)
Definition isspace (c : ascii) : bool :=
  between 9 13 c || between 28 32 c || (code c =? 133) || (code c =? 160).

Definition char_eqb (a b : ascii) : bool := Ascii.eqb a b.

Definition str_eqb (a b : str) : bool :=
  if decide (a = b) then true else false.

(** [s.replace(old, new)] for one-character [old] and [new]. *)
Definition replace_char (old new : ascii) (s : str) : str :=
  map (fun c => if char_eqb c old then new else c) s.

Fixpoint lstrip_by (p : ascii -> bool) (s : str) : str :=
  match s with
  | [] => []
  | c :: rest => if p c then lstrip_by p rest else s
  end.

Fixpoint take_while (p : ascii -> bool) (s : str) : str :=
  match s with
  | [] => []
  | c :: rest => if p c then c :: take_while p rest else []
  end.

Definition rstrip_by (p : ascii -> bool) (s : str) : str :=
  reverse (lstrip_by p (reverse s)).

Definition strip_by (p : ascii -> bool) (s : str) : str :=
  rstrip_by p (lstrip_by p s).

Definition one_of (chars : str) (c : ascii) : bool :=
  existsb (char_eqb c) chars.

(** [s.strip()], [s.strip(chars)], [s.rstrip(chars)] *)
Definition strip (s : str) : str := strip_by isspace s.
Definition strip_chars (chars s : str) : str := strip_by (one_of chars) s.
Definition rstrip_chars (chars s : str) : str := rstrip_by (one_of chars) s.

(** [s.startswith(p)] *)
Fixpoint startswith (p s : str) : bool :=
  match p, s with
  | [], _ => true
  | _ :: _, [] => false
  | a :: p', b :: s' => char_eqb a b && startswith p' s'
  end.

(** [sub in s] *)
Fixpoint contains (sub s : str) : bool :=
  startswith sub s ||
  match s with
  | [] => false
  | _ :: rest => contains sub rest
  end.

(** [s.split(sep)] for a non-empty [sep]: the separators are found from
    the left and do not overlap. [skip] counts the characters of a
    separator still to pass, [cur] is the piece read so far, reversed. *)
Fixpoint split_from (sep : str) (skip : nat) (cur : str) (s : str) : list str :=
  match s with
  | [] => [reverse cur]
  | c :: rest =>
      match skip with
      | S k => split_from sep k cur rest
      | O =>
          if startswith sep s
          then reverse cur :: split_from sep (length sep - 1) [] rest
          else split_from sep 0 (c :: cur) rest
      end
  end.

Definition split (sep s : str) : list str := split_from sep 0 [] s.

(** [sep.join(pieces)] *)
Fixpoint join (sep : str) (pieces : list str) : str :=
  match pieces with
  | [] => []
  | [p] => p
  | p :: rest => p ++ sep ++ join sep rest
  end.

(** [s.rfind(c)] for one character; [None] stands for -1. *)
Fixpoint rfind_char (c : ascii) (s : str) : option nat :=
  match s with
  | [] => None
  | x :: rest =>
      match rfind_char c rest with
      | Some i => Some (S i)
      | None => if char_eqb x c then Some 0 else None
      end
  end.

(** [str(n)] for a natural number *)
Definition str_of_nat (n : nat) : str :=
  list_ascii_of_string (NilZero.string_of_uint (Nat.to_uint n)).

End Py.

(** ** pathlib, POSIX flavour *)

Module PathLib.

(** The segments after the root: empty segments and [.] are dropped. *)
Definition tail (path : str) : list str :=
  List.filter (fun x => negb (Py.str_eqb x "" || Py.str_eqb x "."))
              (Py.split "/" path).

(** The root: [/], or [//] for exactly two leading slashes. *)
Definition root (path : str) : list str :=
  if Py.startswith "//" path && negb (Py.startswith "///" path) then ["//" : str]
  else if Py.startswith "/" path then ["/" : str]
  else [].

(** [Path(path).parts] *)
Definition parts (path : str) : list str := root path ++ tail path.

(** [Path(path).name]: the final segment, [""] when there is none. *)
Definition name (path : str) : str := List.last (tail path) [].

(** [Path(path).suffix]: from the last dot of the name on, unless that dot
    is the first or the last character of the name. *)
Definition suffix (path : str) : str :=
  let n := name path in
  match Py.rfind_char "." n with
  | Some i => if (0 <? i) && (i <? length n - 1) then drop i n else []
  | None => []
  end.

(** [str(dir / child)] *)
Definition joinpath (dir child : str) : str :=
  if Py.str_eqb dir "/" then dir ++ child else dir ++ "/" ++ child.

End PathLib.

(** ** gitmax.py *)

Module GitMax.

(** *** Configuration *)

Definition GITHUB_FILE_LIMIT : Z := 100 * 1024 * 1024.
Definition GITHUB_USERNAME : str := "Michaelunkai".
Definition DEFAULT_WORKERS : nat := 15.

(** *** [path_to_repo_name] *)

(** [re.sub(r'-+', '-', name)]: every maximal run of dashes becomes one. *)
Fixpoint re_sub_dashes (s : str) : str :=
  match s with
  | [] => []
  | c :: rest =>
      if Py.char_eqb c "-"
      then match rest with
           | d :: _ => if Py.char_eqb d "-" then re_sub_dashes rest
                       else c :: re_sub_dashes rest
           | [] => [c]
           end
      else c :: re_sub_dashes rest
  end.

(** The class [[a-z0-9\-_]]. *)
Definition valid_char (c : ascii) : bool :=
  Py.between 97 122 c || Py.between 48 57 c ||
  Py.char_eqb c "-" || Py.char_eqb c "_".

(** [re.sub(r'[^a-z0-9\-_]', '', name)] *)
Definition re_sub_invalid (s : str) : str := List.filter valid_char s.

Definition path_to_repo_name (path : str) : str :=
  let name := Py.lower (PathLib.name path) in
  let name := Py.replace_char " " "-" name in
  let name := re_sub_dashes name in
  let name := re_sub_invalid name in
  let name := Py.strip_chars "-" name in
  let name := if 100 <? length name
              then Py.rstrip_chars "-" (take 100 name)
              else name in
  match name with
  | [] => "repo" : str
  | _ => name
  end.

(** The stages of [path_to_repo_name] by name: the name before the
    truncation, and the truncation. *)
Definition dash : ascii := "-"%char.

Definition cleaned (path : str) : str :=
  Py.strip_chars "-"
    (re_sub_invalid
       (re_sub_dashes (Py.replace_char " " "-" (Py.lower (PathLib.name path))))).

Definition truncated (name : str) : str :=
  if 100 <? length name then Py.rstrip_chars "-" (take 100 name) else name.


(** *** [Stats] and [Result]

    [Stats.start_time] is a float used only for display and is left out;
    [Stats.lock] is modelled by [increment_completed] being one atomic
    step of the pool (see [pool_step]). *)

Module Stats.
Record t := make {
  total : Z;
  completed : Z;
  success : Z;
  failed : Z;
  lfs_files : Z
}.

Definition increment_completed (self : t) (succeeded : bool) (lfs_count : Z) : t :=
  {| total := total self;
     completed := completed self + 1;
     success := if succeeded then success self + 1 else success self;
     failed := if succeeded then failed self else failed self + 1;
     lfs_files := lfs_files self + lfs_count |}.
End Stats.

Module Result.
Record t := make {
  path : str;
  success : bool;
  message : str;
  repo_url : str;
  lfs_files : nat;
  total_files : nat
}.

Definition set_success (v : bool) (r : t) : t :=
  make (path r) v (message r) (repo_url r) (lfs_files r) (total_files r).
Definition set_message (v : str) (r : t) : t :=
  make (path r) (success r) v (repo_url r) (lfs_files r) (total_files r).
Definition set_repo_url (v : str) (r : t) : t :=
  make (path r) (success r) (message r) v (lfs_files r) (total_files r).
Definition set_lfs_files (v : nat) (r : t) : t :=
  make (path r) (success r) (message r) (repo_url r) v (total_files r).
Definition set_total_files (v : nat) (r : t) : t :=
  make (path r) (success r) (message r) (repo_url r) (lfs_files r) v.
End Result.

(** *** The outside world *)

(** How [subprocess.run] ends. *)
Inductive proc_outcome :=
| Completed (returncode : Z) (stdout stderr : str)
| TimeoutExpired
| Raised (description : str).

(** The effects the program performs, in the order it performs them. *)
Inductive event :=
| Run (cmd : str) (cwd : option str) (timeout : nat)
| Sleep (seconds : nat)
| Rmtree (target : str).

(** One item of [dir.rglob("*")]: its parts below [dir], whether
    [is_file()] and [is_dir()] hold, and [stat().st_size], [None] when
    [stat()] raises. *)
Record entry := {
  rel : list str;
  is_file : bool;
  is_dir : bool;
  st_size : option Z
}.

(** The world answers from the history of the effects so far. *)
Record world := {
  subprocess_run : list event -> str -> option str -> nat -> proc_outcome;
  path_resolve : list event -> str -> str;
  path_exists : list event -> str -> bool;
  path_rglob : list event -> str -> list entry;
  time_strftime : list event -> str
}.

(** A computation reads the history and returns its value together with
    the effects it has added. *)
Definition M (A : Type) : Type := list event -> A * list event.

Definition ret {A} (a : A) : M A := fun _ => (a, []).

Definition bind {A B} (m : M A) (k : A -> M B) : M B :=
  fun h =>
    let (a, t1) := m h in
    let (b, t2) := k a (h ++ t1) in
    (b, t1 ++ t2).

Definition emit (e : event) : M unit := fun _ => (tt, [e]).

Definition ask {A} (q : list event -> A) : M A := fun h => (q h, []).

Declare Scope M_scope.
Delimit Scope M_scope with M.
Bind Scope M_scope with M.

Notation "'let*' x ':=' c1 'in' c2" := (bind c1 (fun x => c2))
  (at level 10, x binder, c1 at level 100, c2 at level 200) : M_scope.
Notation "c1 ;; c2" := (bind c1 (fun _ => c2))
  (at level 100, c2 at level 200, right associativity) : M_scope.

Open Scope M_scope.

Fixpoint for_each {A} (xs : list A) (body : A -> M unit) : M unit :=
  match xs with
  | [] => ret tt
  | x :: rest => body x ;; for_each rest body
  end.

Definition dquote : str := [ascii_of_nat 34].
Definition newline : str := [ascii_of_nat 10].
Definition backslash : ascii := ascii_of_nat 92.

(** [not xs] for a string or a list *)
Definition is_empty {A} (xs : list A) : bool :=
  match xs with [] => true | _ => false end.

(** *** [run_cmd] *)

(** The body of [run_cmd] after [subprocess.run] has ended in [o]:
    the [return] of the [try] and the two [except] clauses. *)
Definition run_cmd_result (capture : bool) (o : proc_outcome) : bool * str * str :=
  match o with
  | Completed returncode stdout stderr =>
      ((returncode =? 0)%Z,
       if capture then stdout else "" : str,
       if capture then stderr else "" : str)
  | TimeoutExpired => (false, "" : str, "Command timed out" : str)
  | Raised e => (false, "" : str, e)
  end.

(** *** [get_lfs_patterns] *)

Definition get_lfs_patterns (large_files : list str) : gset str :=
  foldl (fun (patterns : gset str) f =>
           let ext := Py.lower (PathLib.suffix f) in
           if is_empty ext then {[ f ]} ∪ patterns
           else {[ "*" ++ ext ]} ∪ patterns)
        ∅ large_files.

(** What one path adds to the set in [get_lfs_patterns]. *)
Definition pattern_of (f : str) : str :=
  let ext := Py.lower (PathLib.suffix f) in
  if is_empty ext then f else "*" ++ ext.

(** *** [read_dirs_from_file]

    [lines] are the lines of the file as iterating over it yields them. *)

Definition read_dirs_from_file (lines : list str) : list str :=
  foldl (fun dirs line =>
           let line := Py.strip line in
           if negb (is_empty line) && negb (Py.startswith "#" line) then
             if Py.startswith "gitit " line then
               let parts := Py.split "; " line in
               foldl (fun dirs part =>
                        if Py.startswith "gitit " part
                        then dirs ++ [Py.strip (drop 6 part)]
                        else dirs)
                     dirs parts
             else dirs ++ [line]
           else dirs)
        [] lines.

(** *** Texts built by the workflow *)

Definition repo_url_of (repo_name : str) : str :=
  "https://github.com/" ++ GITHUB_USERNAME ++ "/" ++ repo_name.

(** [[f for f in out.strip().split('\n') if f.strip()]] *)
Definition nonblank_lines (out : str) : list str :=
  List.filter (fun f => negb (is_empty (Py.strip f)))
              (Py.split newline (Py.strip out)).

(** [[...] if staged_ok else []] *)
Definition staged_list (staged_ok : bool) (staged_out : str) : list str :=
  if staged_ok then nonblank_lines staged_out else [].

Definition push_cmd : str := "git push --set-upstream origin main --force".
Definition diff_cached_cmd : str := "git diff --cached --name-only".

(** [f"git push failed after 5 attempts: {err[:80] if err else 'unknown'}"] *)
Definition push_failed_message (err : str) : str :=
  "git push failed after 5 attempts: " ++
  (if is_empty err then "unknown" : str else take 80 err).

Definition staging_failed_message (total_files : nat) : str :=
  "STAGING FAILED - " ++ Py.str_of_nat total_files ++ " files exist but 0 staged!".

Section Workflow.

Variable W : world.

Definition run_cmd (cmd : str) (cwd : option str) (capture : bool) (timeout : nat)
  : M (bool * str * str) :=
  fun h => (run_cmd_result capture (subprocess_run W h cmd cwd timeout),
            [Run cmd cwd timeout]).

(** [run_cmd(cmd, dir)] with the defaults [capture=True], [timeout=300]. *)
Definition run_in (cmd dir : str) : M (bool * str * str) :=
  run_cmd cmd (Some dir) true 300.

Definition sleep (seconds : nat) : M unit := emit (Sleep seconds).
Definition rmtree (target : str) : M unit := emit (Rmtree target).
Definition exists_ (p : str) : M bool := ask (fun h => path_exists W h p).
Definition resolve (p : str) : M str := ask (fun h => path_resolve W h p).
Definition rglob (dir : str) : M (list entry) := ask (fun h => path_rglob W h dir).
Definition strftime : M str := ask (time_strftime W).

(** *** [get_large_files] *)

(** [".git" in item.parts] for an item of [dir.rglob("*")] *)
Definition in_git (dir : str) (e : entry) : bool :=
  existsb (Py.str_eqb ".git") (PathLib.parts dir ++ rel e).

(** [str(item.relative_to(dir_path)).replace("\\", "/")] *)
Definition rel_path (e : entry) : str :=
  Py.replace_char backslash "/" (Py.join "/" (rel e)).

(** One turn of the loop of [get_large_files]: what it appends. *)
Definition large_file (dir : str) (e : entry) : option str :=
  if in_git dir e then None
  else if is_file e then
    match st_size e with
    | Some size => if (GITHUB_FILE_LIMIT <? size)%Z then Some (rel_path e) else None
    | None => None
    end
  else None.

Definition get_large_files (dir_path : str) : M (list str) :=
  let* items := rglob dir_path in
  ret (omap (large_file dir_path) items).


(** *** [setup_git_lfs]

    A Python set is walked in an order of its own; the model walks
    [elements patterns]. No theorem below depends on that order. *)

Definition setup_git_lfs (dir_path : str) (large_files : list str) : M bool :=
  if is_empty large_files then ret true
  else
    let* '(ok, _, _) := run_in "git lfs install --local" dir_path in
    if negb ok then ret false
    else
      let patterns := get_lfs_patterns large_files in
      for_each (elements patterns)
        (fun pattern =>
           run_in ("git lfs track " ++ dquote ++ pattern ++ dquote) dir_path ;;
           ret tt) ;;
      for_each large_files
        (fun f =>
           run_in ("git lfs track " ++ dquote ++ f ++ dquote) dir_path ;;
           ret tt) ;;
      ret true.

(** *** [ensure_github_repo] *)

Definition gh_view_cmd (repo_name : str) : str :=
  "gh repo view " ++ GITHUB_USERNAME ++ "/" ++ repo_name.
Definition gh_create_cmd (repo_name : str) : str :=
  "gh repo create " ++ GITHUB_USERNAME ++ "/" ++ repo_name ++ " --public".

(** The [for attempt in range(3)] loop; [true] when it has returned
    from inside the loop. *)
Fixpoint create_attempts (repo_name : str) (attempts : list nat) : M bool :=
  match attempts with
  | [] => ret false
  | attempt :: rest =>
      let* '(create_ok, _, create_err) :=
        run_cmd (gh_create_cmd repo_name) None true 60 in
      if create_ok then sleep 1 ;; ret true
      else if Py.contains "already exists" (Py.lower create_err) then ret true
      else sleep (2 * (attempt + 1)) ;; create_attempts repo_name rest
  end.

Definition ensure_github_repo (repo_name : str) : M bool :=
  let* '(ok, _, _) := run_cmd (gh_view_cmd repo_name) None true 30 in
  if negb ok then
    let* returned := create_attempts repo_name (seq 0 3) in
    if returned then ret true
    else
      run_cmd (gh_create_cmd repo_name) None true 60 ;;
      sleep 2 ;;
      ret true
  else ret true.

(** *** [is_already_synced] *)

Definition remote_query : str := "git remote get-url origin".
Definition status_query : str := "git status --porcelain".
Definition ahead_query : str := "git rev-list --count origin/main..HEAD 2>nul".

Definition is_already_synced (dir_path : str) : M (bool * str) :=
  let git_dir := PathLib.joinpath dir_path ".git" in
  let* git_dir_exists := exists_ git_dir in
  if negb git_dir_exists then ret (false, "No .git" : str)
  else
    let* '(ok, remote, _) := run_in remote_query dir_path in
    if negb ok || is_empty (Py.strip remote) then ret (false, "No remote" : str)
    else
      let* '(ok, status, _) := run_in status_query dir_path in
      if ok && is_empty (Py.strip status) then
        let* '(ok, ahead, _) := run_in ahead_query dir_path in
        if ok && Py.str_eqb (Py.strip ahead) "0"
        then ret (true, "Already synced" : str)
        else ret (false, "Has changes" : str)
      else ret (false, "Has changes" : str).

(** *** [process_directory]

    The body is cut into its consecutive blocks; a block that can end
    the job early returns [inl] of the final result. The operations of
    the world are total, so the outermost [except Exception] of the
    source, which records an unexpected fault as the job's message, has
    nothing to catch here: this is the run in which no operation
    raises. [Guarded.process_directory] below is the function with its
    [except] clause; the two agree where nothing raises. *)

(** Lines 277-318: count the files, reset the metadata, initialise,
    configure, register large files. Returns the result so far and the
    [err] of [git init].

    The nested [.git] directories are taken from one listing. The source
    walks [rglob(".git")] while it removes, so it does not come to a
    [.git] below one it has just removed; here such a directory is
    removed once more, which [shutil.rmtree] with [ignore_errors=True]
    does without effect and without complaint. *)
Definition prepare (dir_path : str) (result : Result.t) (use_lfs : bool)
  : M (Result.t + Result.t * str) :=
  let* items := rglob dir_path in
  let total_files :=
    length (List.filter (fun e => is_file e && negb (in_git dir_path e)) items) in
  let result := Result.set_total_files total_files result in
  let* found := rglob dir_path in
  for_each (List.filter (fun e => Py.str_eqb (List.last (rel e) []) ".git") found)
    (fun nested_git =>
       if is_dir nested_git && negb (length (rel nested_git) =? 1)
       then rmtree (Py.join "/" (dir_path :: rel nested_git))
       else ret tt) ;;
  let git_dir := PathLib.joinpath dir_path ".git" in
  let* git_dir_exists := exists_ git_dir in
  (if git_dir_exists then rmtree git_dir else ret tt) ;;
  let* '(ok, _, err) := run_in "git init -b main" dir_path in
  if negb ok then
    ret (inl (Result.set_message ("git init failed: " ++ err) result))
  else
    run_in ("git config user.name " ++ dquote ++ GITHUB_USERNAME ++ dquote) dir_path ;;
    run_in ("git config user.email " ++ dquote ++ GITHUB_USERNAME
            ++ "@users.noreply.github.com" ++ dquote) dir_path ;;
    run_in "git config core.autocrlf false" dir_path ;;
    run_in "git config http.postBuffer 524288000" dir_path ;;
    let* large_files := get_large_files dir_path in
    let result := Result.set_lfs_files (length large_files) result in
    (if negb (is_empty large_files) && use_lfs
     then setup_git_lfs dir_path large_files ;; ret tt
     else ret tt) ;;
    ret (inr (result, err)).

(** Lines 320-337: stage everything and verify. *)
Definition stage (dir_path : str) (result : Result.t)
  : M (Result.t + list str) :=
  let total_files := Result.total_files result in
  run_in "git add -A" dir_path ;;
  let* '(staged_ok, staged_out, _) := run_in diff_cached_cmd dir_path in
  let staged_files := staged_list staged_ok staged_out in
  if (0 <? total_files) && (length staged_files =? 0) then
    run_in "git add ." dir_path ;;
    run_in "git add --all" dir_path ;;
    let* '(staged_ok, staged_out, _) := run_in diff_cached_cmd dir_path in
    let staged_files := staged_list staged_ok staged_out in
    if (0 <? total_files) && (length staged_files =? 0) then
      ret (inl (Result.set_message (staging_failed_message total_files) result))
    else ret (inr staged_files)
  else ret (inr staged_files).

(** The [for verify_attempt in range(3)] loop. *)
Fixpoint verify_attempts (repo_name : str) (attempts : list nat) : M unit :=
  match attempts with
  | [] => ret tt
  | _ :: rest =>
      let* '(verify_ok, _, _) := run_cmd (gh_view_cmd repo_name) None true 15 in
      if verify_ok then ret tt
      else sleep 2 ;; verify_attempts repo_name rest
  end.

(** Lines 339-358: commit, make sure the remote repository exists,
    wire the remote. *)
Definition commit_and_wire (dir_path repo_name : str) (staged_files : list str)
  : M unit :=
  let* timestamp := strftime in
  let commit_msg :=
    "Auto commit " ++ timestamp ++ " - "
    ++ Py.str_of_nat (length staged_files) ++ " files" in
  run_in ("git commit -m " ++ dquote ++ commit_msg ++ dquote) dir_path ;;
  ensure_github_repo repo_name ;;
  verify_attempts repo_name (seq 0 3) ;;
  let remote_url := repo_url_of repo_name ++ ".git" in
  run_in "git remote remove origin" dir_path ;;
  run_in ("git remote add origin " ++ remote_url) dir_path ;;
  run_in "git branch -M main" dir_path ;;
  ret tt.

(** Lines 368-386: what the loop does after a failed push. *)
Definition react (dir_path : str) (attempt : nat) (err : str) : M unit :=
  let error_lower := Py.lower err in
  if Py.contains "large file" error_lower || Py.contains "100 mb" error_lower
     || Py.contains "exceeds" error_lower then
    run_cmd "git lfs push --all origin main" (Some dir_path) true 300 ;;
    sleep 2
  else if Py.contains "rate limit" error_lower || Py.contains "403" err then
    sleep (10 * (attempt + 1))
  else if Py.contains "timeout" error_lower || Py.contains "connection" error_lower then
    sleep (5 * (2 ^ attempt))
  else if Py.contains "non-fast-forward" error_lower then
    sleep 1
  else
    sleep (2 * (attempt + 1)).

(** Lines 361-386: the [for attempt in range(5)] loop. It returns
    [push_ok] and the [err] the loop leaves behind. *)
Fixpoint push_attempts (dir_path : str) (attempts : list nat) (err : str)
  : M (bool * str) :=
  match attempts with
  | [] => ret (false, err)
  | attempt :: rest =>
      let* '(ok, _, err) := run_cmd push_cmd (Some dir_path) true 600 in
      if ok then ret (true, err)
      else react dir_path attempt err ;; push_attempts dir_path rest err
  end.

Definition verify_cmd : str :=
  "git diff --cached --name-only HEAD~1 HEAD 2>nul || git ls-tree -r HEAD --name-only".

(** Lines 360-404: push with retries, then verify what was pushed. *)
Definition push_and_verify (dir_path repo_name : str) (result : Result.t) (err : str)
  : M Result.t :=
  let total_files := Result.total_files result in
  let* '(push_ok, err) := push_attempts dir_path (seq 0 5) err in
  if negb push_ok then
    ret (Result.set_message (push_failed_message err) result)
  else
    let done :=
      Result.set_repo_url (repo_url_of repo_name)
        (Result.set_message ("Success (" ++ Py.str_of_nat total_files ++ " files)")
           (Result.set_success true result)) in
    let* '(staged_ok, staged_out, _) := run_in verify_cmd dir_path in
    if staged_ok then
      let pushed_files := nonblank_lines staged_out in
      if (0 <? total_files) && (length pushed_files =? 0) then
        ret (Result.set_success false
               (Result.set_message
                  ("EMPTY REPO - " ++ Py.str_of_nat total_files
                   ++ " files exist but 0 pushed! Check file sizes.") result))
      else ret done
    else ret done.

(** Lines 269-404: everything after the sync check. *)
Definition publish (dir_path repo_name : str) (result : Result.t)
           (dry_run use_lfs : bool) : M Result.t :=
  if dry_run then
    let* large_files := get_large_files dir_path in
    ret (Result.set_lfs_files (length large_files)
           (Result.set_repo_url (repo_url_of repo_name)
              (Result.set_message "Dry run - would push"
                 (Result.set_success true result))))
  else
    let* prepared := prepare dir_path result use_lfs in
    match prepared with
    | inl failed => ret failed
    | inr (result, err) =>
        let* staged := stage dir_path result in
        match staged with
        | inl failed => ret failed
        | inr staged_files =>
            commit_and_wire dir_path repo_name staged_files ;;
            push_and_verify dir_path repo_name result err
        end
    end.

Definition process_directory (dir_path : str) (dry_run use_lfs : bool)
  : M Result.t :=
  let result := Result.make dir_path false "" "" 0 0 in
  let* dir_path := resolve dir_path in
  let repo_name := path_to_repo_name dir_path in
  let* dir_exists := exists_ dir_path in
  if negb dir_exists then
    ret (Result.set_message "Directory does not exist" result)
  else
    let* '(synced, reason) := is_already_synced dir_path in
    if synced then
      ret (Result.set_repo_url (repo_url_of repo_name)
             (Result.set_message ("SKIPPED - " ++ reason)
                (Result.set_success true result)))
    else publish dir_path repo_name result dry_run use_lfs.

(** *** [worker_task]

    The shared [stats] object is passed in and the updated one is
    returned. *)
Definition worker_task (dir_path : str) (stats : Stats.t) (dry_run use_lfs : bool)
  : M (Result.t * Stats.t) :=
  let* result := process_directory dir_path dry_run use_lfs in
  ret (result,
       Stats.increment_completed stats (Result.success result)
         (Z.of_nat (Result.lfs_files result))).

(** *** The workflow up to a step

    [process_directory] once more, stopped before the staging and before
    the push: [inl] is the result of a job that has ended earlier, [inr]
    the resolved directory, the repository name, the result so far and
    the [err] of [git init], from which the next step starts. *)
Definition until_stage (dir_path : str) (dry_run use_lfs : bool)
  : M (Result.t + str * str * Result.t * str) :=
  let result := Result.make dir_path false "" "" 0 0 in
  let* dir_path := resolve dir_path in
  let repo_name := path_to_repo_name dir_path in
  let* dir_exists := exists_ dir_path in
  if negb dir_exists then
    ret (inl (Result.set_message "Directory does not exist" result))
  else
    let* '(synced, reason) := is_already_synced dir_path in
    if synced then
      ret (inl (Result.set_repo_url (repo_url_of repo_name)
                  (Result.set_message ("SKIPPED - " ++ reason)
                     (Result.set_success true result))))
    else if dry_run then
      let* large_files := get_large_files dir_path in
      ret (inl (Result.set_lfs_files (length large_files)
                  (Result.set_repo_url (repo_url_of repo_name)
                     (Result.set_message "Dry run - would push"
                        (Result.set_success true result)))))
    else
      let* prepared := prepare dir_path result use_lfs in
      match prepared with
      | inl failed => ret (inl failed)
      | inr (result, err) => ret (inr (dir_path, repo_name, result, err))
      end.

Definition until_push (dir_path : str) (dry_run use_lfs : bool)
  : M (Result.t + str * str * Result.t * str) :=
  let* reached := until_stage dir_path dry_run use_lfs in
  match reached with
  | inl ended => ret (inl ended)
  | inr (dir_path, repo_name, result, err) =>
      let* staged := stage dir_path result in
      match staged with
      | inl failed => ret (inl failed)
      | inr staged_files =>
          commit_and_wire dir_path repo_name staged_files ;;
          ret (inr (dir_path, repo_name, result, err))
      end
  end.

End Workflow.

(** *** What the sync check asks

    The three queries of [is_already_synced] as events, and the answers
    that make a directory count as synced, at the history [h] at which the
    check starts. *)
Definition asked (query dir_path : str) : event := Run query (Some dir_path) 300.

Definition git_dir_present (W : world) (dir_path : str) (h : list event) : Prop :=
  path_exists W h (PathLib.joinpath dir_path ".git") = true.

Definition remote_configured (W : world) (dir_path : str) (h : list event) : Prop :=
  exists out err,
    subprocess_run W h remote_query (Some dir_path) 300 = Completed 0 out err
    /\ Py.strip out <> [].

Definition tree_clean (W : world) (dir_path : str) (h : list event) : Prop :=
  exists out err,
    subprocess_run W (h ++ [asked remote_query dir_path])
      status_query (Some dir_path) 300 = Completed 0 out err
    /\ Py.strip out = [].

Definition not_ahead (W : world) (dir_path : str) (h : list event) : Prop :=
  exists out err,
    subprocess_run W (h ++ [asked remote_query dir_path; asked status_query dir_path])
      ahead_query (Some dir_path) 300 = Completed 0 out err
    /\ Py.strip out = ("0" : str).

Definition queries (dir_path : str) : list event :=
  [asked remote_query dir_path; asked status_query dir_path;
   asked ahead_query dir_path].

(** The result of a job that is skipped as already synced. *)
Definition skipped (dir_path resolved : str) : Result.t :=
  Result.make dir_path true "SKIPPED - Already synced"
    (repo_url_of (path_to_repo_name resolved)) 0 0.

(** *** The worker pool of [main]

    [main] builds [Stats(total=len(dirs))] and submits one [worker_task]
    per directory. Jobs complete in any order; the lock makes each
    [increment_completed] one step. A job sees whatever history the
    other workers have produced by then. *)

Record pool := {
  stats : Stats.t;
  pending : list str;
  results : list Result.t
}.

Definition start (dirs : list str) : pool :=
  {| stats := Stats.make (Z.of_nat (length dirs)) 0 0 0 0;
     pending := dirs;
     results := [] |}.

Inductive pool_step (W : world) (dry_run use_lfs : bool) : pool -> pool -> Prop :=
| job_completes st before d after rs h r st' t :
    worker_task W d st dry_run use_lfs h = ((r, st'), t) ->
    pool_step W dry_run use_lfs
      {| stats := st; pending := before ++ d :: after; results := rs |}
      {| stats := st'; pending := before ++ after; results := rs ++ [r] |}.

(** What the counters satisfy while the pool works through [dirs]. *)
Definition counted (dirs : list str) (s : pool) : Prop :=
  let st := stats s in
  (Stats.completed st = Stats.success st + Stats.failed st
   /\ 0 <= Stats.success st /\ 0 <= Stats.failed st
   /\ Stats.total st = Z.of_nat (length dirs)
   /\ Stats.completed st + Z.of_nat (length (pending s)) = Stats.total st
   /\ Stats.completed st = Z.of_nat (length (results s)))%Z.

(** *** Reading a trace *)

Definition is_push (e : event) : bool :=
  match e with
  | Run cmd _ _ => Py.str_eqb cmd push_cmd
  | _ => false
  end.

(** How many times the forced push was run. *)
Definition pushes (t : list event) : nat := length (List.filter is_push t).

(** The seconds slept. *)
Definition slept (t : list event) : nat :=
  list_sum (map (fun e => match e with Sleep n => n | _ => 0 end) t).

(** The job failed at the staging step. *)
Definition staging_failed (r : Result.t) : bool :=
  negb (Result.success r) && Py.startswith "STAGING FAILED" (Result.message r).

(** What the staging step reads when it verifies at history [h]. *)
Definition staged_at (W : world) (dir_path : str) (h : list event) : list str :=
  let '(staged_ok, staged_out, _) :=
    run_cmd_result true (subprocess_run W h diff_cached_cmd (Some dir_path) 300) in
  staged_list staged_ok staged_out.

(** The forced push as an event, and what it answers at history [h]. *)
Definition push_event (dir_path : str) : event := Run push_cmd (Some dir_path) 600.

Definition pushed (W : world) (dir_path : str) (h : list event) : bool * str * str :=
  run_cmd_result true (subprocess_run W h push_cmd (Some dir_path) 600).

Definition lfs_push_event (dir_path : str) : event :=
  Run "git lfs push --all origin main" (Some dir_path) 300.

(** The classes of push errors, in the order [react] tests them. *)
Definition mentions_large_file (err : str) : bool :=
  Py.contains "large file" (Py.lower err) || Py.contains "100 mb" (Py.lower err)
  || Py.contains "exceeds" (Py.lower err).
Definition mentions_rate_limit (err : str) : bool :=
  Py.contains "rate limit" (Py.lower err) || Py.contains "403" err.
Definition mentions_network (err : str) : bool :=
  Py.contains "timeout" (Py.lower err) || Py.contains "connection" (Py.lower err).
Definition mentions_non_fast_forward (err : str) : bool :=
  Py.contains "non-fast-forward" (Py.lower err).

End GitMax.

(** ** convert_oneliner.py *)

Module ConvertOneliner.

Definition not_semicolon (c : ascii) : bool := negb (Py.char_eqb c ";").

(** The pattern [gitit\s+([^;]+)] tried at the start of [s]: the group
    and the length of the whole match. Both repetitions are greedy; when
    the white space runs up to a semicolon or to the end, [\s+] gives its
    last character back to the group. *)
Definition match_here (s : str) : option (str * nat) :=
  if Py.startswith "gitit" s then
    let after := drop 5 s in
    let spaces := Py.take_while Py.isspace after in
    let group := Py.take_while not_semicolon (drop (length spaces) after) in
    match spaces, group with
    | [], _ => None
    | _ :: _, _ :: _ => Some (group, 5 + length spaces + length group)
    | [_], [] => None
    | _ :: _ :: _, [] => Some ([List.last spaces " "%char], 5 + length spaces)
    end
  else None.

(** [re.findall]: matches are looked for from the left and do not
    overlap. [skip] counts the characters of a match still to pass. *)
Fixpoint findall_from (skip : nat) (s : str) : list str :=
  match s with
  | [] => []
  | _ :: rest =>
      match skip with
      | S k => findall_from k rest
      | O =>
          match match_here s with
          | Some (group, len) => group :: findall_from (len - 1) rest
          | None => findall_from 0 rest
          end
      end
  end.

Definition findall (content : str) : list str := findall_from 0 content.

(** [[p.strip() for p in paths if p.strip()]] *)
Definition stripped (paths : list str) : list str :=
  map Py.strip (List.filter (fun p => negb (GitMax.is_empty (Py.strip p))) paths).

(** The paths read from the text, before duplicates are removed. *)
Definition extract (content : str) : list str := stripped (findall content).

(** The loop over [paths] with [seen] and [unique_paths]. *)
Definition unique (paths : list str) : list str :=
  snd (foldl (fun '(seen, unique_paths) p =>
                if decide (p ∈ (seen : gset str))
                then (seen, unique_paths)
                else ({[ p ]} ∪ seen, unique_paths ++ [p]))
             (∅, []) paths).

(** [convert_oneliner] on the text of the input file: the paths it
    prints, one per line, or writes joined by newlines. *)
Definition convert_oneliner (content : str) : list str :=
  unique (extract content).

Definition written (content : str) : str :=
  Py.join GitMax.newline (convert_oneliner content).

(** Each distinct element once, at the place of its first occurrence:
    the reading of "order of first occurrence" the loop is compared with. *)
Fixpoint first_occurrences (paths : list str) : list str :=
  match paths with
  | [] => []
  | p :: rest =>
      p :: List.filter (fun q => negb (Py.str_eqb q p)) (first_occurrences rest)
  end.

(** The text of a one-liner: the paths, each behind the marker, with
    [sep] between them. *)
Definition oneliner (sep : str) (paths : list str) : str :=
  Py.join sep (map (fun p => "gitit " ++ p) paths).

(** A path as a one-liner holds it: not empty, no white space at its
    ends, no semicolon. *)
Definition well_formed (p : str) : Prop :=
  p <> [] /\ Py.strip p = p /\ ";"%char ∉ p.

End ConvertOneliner.

(** ** Sample worlds

    Small worlds on which the workflow is run in the examples. Their
    answers do not change with the history. *)

Module Samples.
Import GitMax.

Definition MiB : Z := 1024 * 1024.

Definition file (parts : list str) (size : Z) : entry :=
  {| rel := parts; is_file := true; is_dir := false; st_size := Some size |}.

Definition directory (parts : list str) : entry :=
  {| rel := parts; is_file := false; is_dir := true; st_size := Some 4096%Z |}.

Definition unreadable (parts : list str) : entry :=
  {| rel := parts; is_file := true; is_dir := false; st_size := None |}.

(** A tree with files around the 100 MiB limit. *)
Definition big_tree : list entry :=
  [ file ["video.MP4" : str] (100 * MiB + 1);
    file ["exact.bin" : str] (100 * MiB);
    directory ["data" : str];
    file ["data" : str; "dump" : str] (100 * MiB + 1);
    directory [".git" : str];
    file [".git" : str; "objects" : str; "pack.idx" : str] (500 * MiB);
    unreadable ["locked.iso" : str];
    file ["notes.txt" : str] 12 ].

Definition small_tree : list entry :=
  [ file ["README.md" : str] 120; file ["main.py" : str] 2048 ].

Definition world_of (run : str -> proc_outcome) (tree : list entry) : world :=
  {| subprocess_run := fun _ cmd _ _ => run cmd;
     path_resolve := fun _ p => p;
     path_exists := fun _ _ => true;
     path_rglob := fun _ _ => tree;
     time_strftime := fun _ => "2024-05-01 12:00:00" : str |}.

Definition ok_with (out : str) : proc_outcome := Completed 0 out "".
Definition failed_with (err : str) : proc_outcome := Completed 1 "" err.

(** Every command succeeds and prints nothing. *)
Definition silent : world := world_of (fun _ => ok_with "") small_tree.

(** A clean clone that is level with [origin/main]. *)
Definition synced : world :=
  world_of (fun cmd =>
              if Py.str_eqb cmd remote_query
              then ok_with ("https://github.com/Michaelunkai/demo.git" ++ newline)
              else if Py.str_eqb cmd status_query then ok_with ""
              else if Py.str_eqb cmd ahead_query then ok_with ("0" ++ newline)
              else failed_with "unexpected")
           small_tree.

(** A fresh directory: no remote yet, the index lists the two files, the
    push is answered by [push]. *)
Definition fresh (push : proc_outcome) : world :=
  world_of (fun cmd =>
              if Py.str_eqb cmd remote_query then failed_with "error: No such remote 'origin'"
              else if Py.str_eqb cmd diff_cached_cmd
              then ok_with ("README.md" ++ newline ++ "main.py" ++ newline)
              else if Py.str_eqb cmd verify_cmd
              then ok_with ("README.md" ++ newline ++ "main.py" ++ newline)
              else if Py.str_eqb cmd push_cmd then push
              else ok_with "")
           small_tree.

(** A directory whose files never reach the index. *)
Definition unstageable : world :=
  world_of (fun cmd =>
              if Py.str_eqb cmd remote_query then failed_with "error: No such remote 'origin'"
              else ok_with "")
           small_tree.

(** Every command runs into its timeout. *)
Definition hanging : world := world_of (fun _ => TimeoutExpired) small_tree.

Definition job : str := "/home/user/My Cool App!!".

End Samples.

(** ** [scan_directories] *)

Module Scan.

(** The directories below a root as [os.walk] walks them: a directory has
    a name and its sub-directories, in the order of the listing. (A link
    to a directory is listed but not walked; it is no node here.) *)
#[warnings="-register-all"]
Inductive dir_tree := Dir (name : str) (subdirs : list dir_tree).

Definition name_of (t : dir_tree) : str :=
  match t with Dir name _ => name end.

Definition subdirs_of (t : dir_tree) : list dir_tree :=
  match t with Dir _ subdirs => subdirs end.

(** [os.path.join(top, name)] for a [name] that does not start with a
    slash. *)
Definition os_path_join (top name : str) : str :=
  if Py.char_eqb (List.last top "/"%char) "/" then top ++ name
  else top ++ "/" ++ name.

(** [str(Path(p))]: the root and the segments, joined again. *)
Definition path_str (p : str) : str :=
  match PathLib.root p, PathLib.tail p with
  | [], [] => "." : str
  | [], segments => Py.join "/" segments
  | r :: _, segments => r ++ Py.join "/" segments
  end.

(** The loop over [os.walk(root_path)], from the directory [dirpath] with
    the tree [t] below it: [.git] is taken out of [dirnames], a directory
    deeper than [max_depth] is not recorded and not descended, any other
    is recorded and its remaining sub-directories are walked in turn. *)
Fixpoint walk (root_depth max_depth : Z) (dirpath : str) (t : dir_tree)
  : list str :=
  match t with
  | Dir _ dirnames =>
      let current_depth :=
        (Z.of_nat (length (PathLib.parts dirpath)) - root_depth)%Z in
      if (current_depth >? max_depth)%Z then []
      else
        path_str dirpath
        :: flat_map
             (fun sub =>
                if Py.str_eqb (name_of sub) ".git" then []
                else walk root_depth max_depth
                       (os_path_join dirpath (name_of sub)) sub)
             dirnames
  end.

(** [scan_directories]: [root_path] is [str(Path(root).resolve())], [tree]
    what [os.walk] finds there, [None] when the root cannot be listed
    (then [os.walk] yields nothing). *)
Definition scan_directories (root_path : str) (tree : option dir_tree)
           (max_depth : Z) : list str :=
  let root_depth := Z.of_nat (length (PathLib.parts root_path)) in
  match tree with
  | Some t => walk root_depth max_depth root_path t
  | None => []
  end.

(** A name as a directory listing gives it: not empty, not [.], without
    a slash. *)
Definition plain (name : str) : Prop :=
  name <> [] /\ name <> ("." : str) /\ "/"%char ∉ name.

(** The absolute path with the given segments. *)
Definition abs_path (segments : list str) : str := "/" ++ Py.join "/" segments.

(** Every name in the tree below the root is plain. *)
Fixpoint plain_below (t : dir_tree) : Prop :=
  match t with
  | Dir _ subdirs =>
      (fix all (l : list dir_tree) : Prop :=
         match l with
         | [] => True
         | sub :: rest => plain (name_of sub) /\ plain_below sub /\ all rest
         end) subdirs
  end.

(** [descends t segments]: following [segments] from [t] leads to a
    directory of the tree. *)
Inductive descends : dir_tree -> list str -> Prop :=
| descends_here t : descends t []
| descends_down name subdirs sub segments :
    sub ∈ subdirs -> descends sub segments ->
    descends (Dir name subdirs) (name_of sub :: segments).

End Scan.

(** ** What a job does and how it ends *)

Module Effects.
Import GitMax.

(** Every effect that [m] adds satisfies [P], whatever the history. *)
Definition emits {A} (P : event -> Prop) (m : M A) : Prop :=
  forall h, Forall P (snd (m h)).

(** What [m] returns satisfies [Q], whatever the history. *)
Definition returns {A} (Q : A -> Prop) (m : M A) : Prop :=
  forall h, Q (fst (m h)).

(** The effects that [m] adds weigh at most [n] in all, whatever the
    history. *)
Definition costs {A} (weight : event -> nat) (n : nat) (m : M A) : Prop :=
  forall h, list_sum (map weight (snd (m h))) <= n.

(** The seconds of a sleep; one for a forced push; one for a [gh repo
    create]. *)
Definition seconds (e : event) : nat :=
  match e with Sleep n => n | _ => 0 end.

Definition pushing (e : event) : nat := if is_push e then 1 else 0.

Definition creating (e : event) : nat :=
  match e with
  | Run cmd _ _ => if Py.startswith "gh repo create " cmd then 1 else 0
  | _ => 0
  end.

(** The longest sleep after the failed push number [attempt]. *)
Definition longest_backoff (attempt : nat) : nat :=
  Nat.max (10 * (attempt + 1)) (5 * 2 ^ attempt).

(** The weights the budget is taken in. *)
Definition measured (weight : event -> nat) : Prop :=
  weight = seconds \/ weight = pushing \/ weight = creating.

(** A command that sets large-file storage up: the installation or the
    tracking of a pattern or a path. *)
Definition lfs_setup (e : event) : bool :=
  match e with
  | Run cmd _ _ =>
      Py.startswith "git lfs install" cmd || Py.startswith "git lfs track" cmd
  | _ => false
  end.

(** An effect that stays with the job directory [d]: a command run in [d]
    or a [gh repo] command, a sleep, or the removal of a [.git] directory
    at or below [d]. *)
Definition job_effect (d : str) (e : event) : Prop :=
  match e with
  | Run cmd cwd _ =>
      cwd = Some d \/ (cwd = None /\ Py.startswith "gh repo " cmd = true)
  | Sleep _ => True
  | Rmtree target =>
      target = PathLib.joinpath d ".git"
      \/ exists parts, List.last parts [] = (".git" : str)
                       /\ target = Py.join "/" (d :: parts)
  end.

(** An effect that changes nothing: one of the three queries of the sync
    check. *)
Definition query_effect (d : str) (e : event) : Prop := e ∈ queries d.

(** The results a job can end with, for the directory [dir] as given and
    [d] as resolved. *)
Inductive job_result (dir d : str) : Result.t -> Prop :=
| ends_missing :
    job_result dir d (Result.make dir false "Directory does not exist" "" 0 0)
| ends_skipped :
    job_result dir d (skipped dir d)
| ends_dry_run lfs_files :
    job_result dir d
      (Result.make dir true "Dry run - would push"
         (repo_url_of (path_to_repo_name d)) lfs_files 0)
| ends_init_failed total_files err :
    job_result dir d
      (Result.make dir false ("git init failed: " ++ err) "" 0 total_files)
| ends_staging_failed lfs_files total_files :
    0 < total_files ->
    job_result dir d
      (Result.make dir false (staging_failed_message total_files) ""
         lfs_files total_files)
| ends_push_failed lfs_files total_files err :
    job_result dir d
      (Result.make dir false (push_failed_message err) "" lfs_files total_files)
| ends_empty_repo lfs_files total_files :
    0 < total_files ->
    job_result dir d
      (Result.make dir false
         ("EMPTY REPO - " ++ Py.str_of_nat total_files
          ++ " files exist but 0 pushed! Check file sizes.") ""
         lfs_files total_files)
| ends_success lfs_files total_files :
    job_result dir d
      (Result.make dir true
         ("Success (" ++ Py.str_of_nat total_files ++ " files)")
         (repo_url_of (path_to_repo_name d)) lfs_files total_files).

(** The command that registers a pattern or a path with large-file
    storage. *)
Definition lfs_track (what d : str) : event :=
  asked ("git lfs track " ++ dquote ++ what ++ dquote) d.

End Effects.

(** ** Text files *)

Module TextFile.

(** The lines of a text as iterating over the open file yields them:
    each line with its newline, the last one without when the text does
    not end in one. The text holds no carriage return, which reading
    would turn into a newline. *)
Fixpoint lines_from (cur : str) (content : str) : list str :=
  match content with
  | [] => match cur with [] => [] | _ => [reverse cur] end
  | c :: rest =>
      if Py.char_eqb c (ascii_of_nat 10)
      then reverse (c :: cur) :: lines_from [] rest
      else lines_from (c :: cur) rest
  end.

Definition readlines (content : str) : list str := lines_from [] content.

(** A path that can stand on a line of its own in a list file: well
    formed, without a line break inside, and starting neither like a
    comment nor like a one-liner. *)
Definition listable (p : str) : Prop :=
  ConvertOneliner.well_formed p
  /\ (ascii_of_nat 10 ∉ p) /\ (ascii_of_nat 13 ∉ p)
  /\ Py.startswith "#" p = false
  /\ Py.startswith "gitit " p = false.

End TextFile.

(** ** The derivation of a repository name, step by step

    The steps in the words of the specification, written without the
    regular expressions of the source: [path_to_repo_name] is compared
    with them. *)

Module RepoNameSpec.

(** Runs of dashes collapsed to one dash: a dash stays when no dash
    stands right before it. *)
Fixpoint collapse (after_dash : bool) (s : str) : str :=
  match s with
  | [] => []
  | c :: rest =>
      if Py.char_eqb c "-"
      then if after_dash then collapse true rest else c :: collapse true rest
      else c :: collapse false rest
  end.

Definition collapse_runs (s : str) : str := collapse false s.

(** The characters [a-z0-9-_], one by one. *)
Definition alphabet : str := "abcdefghijklmnopqrstuvwxyz0123456789-_".

Definition in_alphabet (c : ascii) : bool := existsb (Py.char_eqb c) alphabet.

(** The name derived from the final path segment. *)
Definition derived_name (segment : str) : str :=
  let lowered := Py.lower segment in
  let dashed := map (fun c => if Py.char_eqb c " " then "-"%char else c) lowered in
  let collapsed := collapse_runs dashed in
  let kept := List.filter in_alphabet collapsed in
  let trimmed := Py.strip_chars "-" kept in
  let cut :=
    if length trimmed <=? 100 then trimmed
    else Py.rstrip_chars "-" (take 100 trimmed) in
  match cut with
  | [] => "repo" : str
  | _ => cut
  end.

(** A segment from which the derivation removes no character: after
    lower-casing every character is of the alphabet or a space. *)
Definition nothing_removed (segment : str) : Prop :=
  Forall (fun c => in_alphabet (Py.lower_char c) = true \/ c = " "%char) segment.

End RepoNameSpec.

(** ** The pool of [main], thread by thread

    In [main] a worker thread runs [worker_task], which updates the
    counters under the lock before the future completes; the main thread
    takes the completed futures from [as_completed] and appends their
    results. Between the two steps the result of a job is counted but
    not yet collected. *)

Module Executor.
Import GitMax.

Record state := {
  stats : Stats.t;
  pending : list str;
  completed : list Result.t;
  results : list Result.t
}.

Definition start (dirs : list str) : state :=
  {| stats := Stats.make (Z.of_nat (length dirs)) 0 0 0 0;
     pending := dirs;
     completed := [];
     results := [] |}.

Inductive step (W : world) (dry_run use_lfs : bool) : state -> state -> Prop :=
| worker_returns st before d after done rs h r st' t :
    worker_task W d st dry_run use_lfs h = ((r, st'), t) ->
    step W dry_run use_lfs
      {| stats := st; pending := before ++ d :: after;
         completed := done; results := rs |}
      {| stats := st'; pending := before ++ after;
         completed := done ++ [r]; results := rs |}
| main_collects st pend before r after rs :
    step W dry_run use_lfs
      {| stats := st; pending := pend;
         completed := before ++ r :: after; results := rs |}
      {| stats := st; pending := pend;
         completed := before ++ after; results := rs ++ [r] |}.

(** The counts the counters are compared with. *)
Definition succeeded (rs : list Result.t) : Z :=
  Z.of_nat (length (List.filter Result.success rs)).

Definition failed (rs : list Result.t) : Z :=
  Z.of_nat (length (List.filter (fun r => negb (Result.success r)) rs)).

Definition large_files (rs : list Result.t) : Z :=
  Z.of_nat (list_sum (map Result.lfs_files rs)).

End Executor.

(** ** [process_directory] with its [except] clause

    The body of [process_directory] stands in a [try]; an exception
    ends the job with [result.message = str(e)[:100]] and the result as
    it is by then. [run_cmd] catches every exception itself,
    [shutil.rmtree] is called with [ignore_errors=True], [stat()] in
    [get_large_files] stands in a bare [except], and sleeping, the
    clock and the operations on texts do not raise; what can raise are
    the reads of the file system. [GitMax.process_directory] is the run
    in which none of them does. *)

Module Guarded.
Import GitMax.

(** The places of the source where an exception can come up. *)
Inductive site :=
| resolving                       (* 254: Path(dir_path).resolve() *)
| checking_directory              (* 257: dir_path.exists() *)
| checking_repository             (* 233: git_dir.exists() *)
| listing_large_files             (* 159-162: rglob("*") and is_file() *)
| counting_files                  (* 278: rglob("*") and is_file() *)
| listing_nested                  (* 284: rglob(".git") starts *)
| visiting_nested (target : str)  (* 284-285: the next item, is_dir() *)
| checking_root_repository.       (* 294: git_dir.exists() *)

(** Whether the operation at a place raises, given the history, and
    with which text [str(e)]. *)
Definition faults : Type := site -> list event -> option str.

Definition none_raise : faults := fun _ _ => None.

(** [except Exception as e: result.message = str(e)[:100]] *)
Definition caught (e : str) (result : Result.t) : Result.t :=
  Result.set_message (take 100 e) result.

(** A step inside the [try] returns [inl] of the final result when the
    function ends there, by [return] or through the [except] clause. *)
Definition attempt {A} (F : faults) (s : site) (result : Result.t) (read : M A)
  : M (Result.t + A) :=
  fun h =>
    match F s h with
    | Some e => (inl (caught e result), [])
    | None => let (a, t) := read h in (inr a, t)
    end.

Definition and_then {A B} (m : M (Result.t + A)) (k : A -> M (Result.t + B))
  : M (Result.t + B) :=
  bind m (fun r =>
            match r with
            | inl ended => ret (inl ended)
            | inr a => k a
            end).

(** A step that cannot raise. *)
Definition run {A} (m : M A) : M (Result.t + A) :=
  bind m (fun a => ret (inr a)).

Definition ends {A} (result : Result.t) : M (Result.t + A) := ret (inl result).

Notation "'let*?' x ':=' c1 'in' c2" := (and_then c1 (fun x => c2))
  (at level 10, x binder, c1 at level 100, c2 at level 200) : M_scope.

Section Workflow.

Variable W : world.
Variable F : faults.

(** [is_already_synced]: its first operation, [git_dir.exists()], is the
    only one that can raise. *)
Definition is_already_synced (dir_path : str) (result : Result.t)
  : M (Result.t + bool * str) :=
  attempt F checking_repository result (GitMax.is_already_synced W dir_path).

(** [get_large_files]: the walk over [rglob("*")] performs no effect, so
    an exception of the walk or of [is_file()] comes before any. *)
Definition get_large_files (dir_path : str) (result : Result.t)
  : M (Result.t + list str) :=
  attempt F listing_large_files result (GitMax.get_large_files W dir_path).

(** Lines 284-290: the loop over the nested [.git] directories. *)
Fixpoint remove_nested (dir_path : str) (result : Result.t)
         (found : list entry) : M (Result.t + unit) :=
  match found with
  | [] => ret (inr tt)
  | nested_git :: rest =>
      let target := Py.join "/" (dir_path :: rel nested_git) in
      let*? is_directory :=
        attempt F (visiting_nested target) result (ret (is_dir nested_git)) in
      let*? _ :=
        run (if is_directory && negb (length (rel nested_git) =? 1)
             then rmtree target
             else ret tt) in
      remove_nested dir_path result rest
  end.

(** Lines 277-318, as [GitMax.prepare]. *)
Definition prepare (dir_path : str) (result : Result.t) (use_lfs : bool)
  : M (Result.t + Result.t * str) :=
  let*? items := attempt F counting_files result (rglob W dir_path) in
  let total_files :=
    length (List.filter (fun e => is_file e && negb (in_git dir_path e)) items) in
  let result := Result.set_total_files total_files result in
  let*? found := attempt F listing_nested result (rglob W dir_path) in
  let*? _ :=
    remove_nested dir_path result
      (List.filter (fun e => Py.str_eqb (List.last (rel e) []) ".git") found) in
  let git_dir := PathLib.joinpath dir_path ".git" in
  let*? git_dir_exists :=
    attempt F checking_root_repository result (exists_ W git_dir) in
  let*? _ := run (if git_dir_exists then rmtree git_dir else ret tt) in
  let*? '(ok, _, err) := run (run_in W "git init -b main" dir_path) in
  if negb ok then
    ends (Result.set_message ("git init failed: " ++ err) result)
  else
    let*? _ :=
      run (run_in W ("git config user.name " ++ dquote ++ GITHUB_USERNAME
                     ++ dquote) dir_path) in
    let*? _ :=
      run (run_in W ("git config user.email " ++ dquote ++ GITHUB_USERNAME
                     ++ "@users.noreply.github.com" ++ dquote) dir_path) in
    let*? _ := run (run_in W "git config core.autocrlf false" dir_path) in
    let*? _ := run (run_in W "git config http.postBuffer 524288000" dir_path) in
    let*? large_files := get_large_files dir_path result in
    let result := Result.set_lfs_files (length large_files) result in
    let*? _ :=
      run (if negb (is_empty large_files) && use_lfs
           then setup_git_lfs W dir_path large_files ;; ret tt
           else ret tt) in
    ret (inr (result, err)).

(** Lines 251-409. *)
Definition process_directory (dir_path : str) (dry_run use_lfs : bool)
  : M Result.t :=
  let result := Result.make dir_path false "" "" 0 0 in
  let* outcome :=
    (let*? dir_path := attempt F resolving result (resolve W dir_path) in
     let repo_name := path_to_repo_name dir_path in
     let*? dir_exists :=
       attempt F checking_directory result (exists_ W dir_path) in
     if negb dir_exists then
       ends (Result.set_message "Directory does not exist" result)
     else
       let*? '(synced, reason) := is_already_synced dir_path result in
       if synced then
         ends (Result.set_repo_url (repo_url_of repo_name)
                 (Result.set_message ("SKIPPED - " ++ reason)
                    (Result.set_success true result)))
       else if dry_run then
         let*? large_files := get_large_files dir_path result in
         ends (Result.set_lfs_files (length large_files)
                 (Result.set_repo_url (repo_url_of repo_name)
                    (Result.set_message "Dry run - would push"
                       (Result.set_success true result))))
       else
         let*? '(result, err) := prepare dir_path result use_lfs in
         let*? staged_files := stage W dir_path result in
         let*? _ := run (commit_and_wire W dir_path repo_name staged_files) in
         run (push_and_verify W dir_path repo_name result err)) in
  ret (match outcome with
       | inl ended => ended
       | inr returned => returned
       end).

End Workflow.

(** The result of a job that ended in the [except] clause. *)
Definition faulted (dir_path e : str) (total_files : nat) : Result.t :=
  Result.make dir_path false (take 100 e) "" 0 total_files.

(** The results a job can end with: the eight of a run without an
    exception, and the one of the [except] clause. *)
Inductive job_end (dir d : str) : Result.t -> Prop :=
| ends_returned r : Effects.job_result dir d r -> job_end dir d r
| ends_faulted e total_files : job_end dir d (faulted dir e total_files).

(** What a step inside the [try] hands on: a final result, or a value. *)
Definition sum_case {A} (Q : Result.t -> Prop) (R : A -> Prop)
           (x : Result.t + A) : Prop :=
  match x with
  | inl ended => Q ended
  | inr a => R a
  end.

(** A file name that cannot be resolved. *)
Definition unresolvable : faults :=
  fun s _ =>
    match s with
    | resolving => Some ("embedded null byte" : str)
    | _ => None
    end.

End Guarded.

(** ** More worlds *)

Module Cases.
Import GitMax Samples.

(** No directory exists. *)
Definition missing : world :=
  {| subprocess_run := fun _ _ _ _ => ok_with "";
     path_resolve := fun _ p => p;
     path_exists := fun _ _ => false;
     path_rglob := fun _ _ => [];
     time_strftime := fun _ => "2024-05-01 12:00:00" : str |}.

(** GitHub refuses for as long as it can: no repository can be viewed or
    created, the first four pushes are rate limited, the fifth loses its
    connection. Everything local works. *)
Definition stubborn : world :=
  {| subprocess_run :=
       fun h cmd _ _ =>
         if Py.startswith "gh " cmd then failed_with "HTTP 500"
         else if Py.str_eqb cmd push_cmd then
           if pushes h <? 4 then failed_with "API rate limit exceeded for user"
           else failed_with "connection reset by peer"
         else ok_with "tracked";
     path_resolve := fun _ p => p;
     path_exists := fun _ _ => true;
     path_rglob := fun _ _ => small_tree;
     time_strftime := fun _ => "2024-05-01 12:00:00" : str |}.

(** A project with a repository of its own and two levels of sources. *)
Definition project : Scan.dir_tree :=
  Scan.Dir "project"
    [ Scan.Dir ".git" [Scan.Dir "objects" []];
      Scan.Dir "src" [Scan.Dir "lib" [Scan.Dir "deep" []]];
      Scan.Dir "docs" [] ].

End Cases.

(* ===================================================================== *)
(** * Part II: theorems                                                   *)
(* ===================================================================== *)

Example path_to_repo_name_ex1 :
  GitMax.path_to_repo_name "/home/u/My Cool App!!" = "my-cool-app".
Proof. vm_compute. reflexivity. Qed.

(** ** Facts about the Python string operations *)

Module PyFacts.
Import Py.

Lemma lstrip_by_suffix p s : lstrip_by p s `suffix_of` s.
Proof.
  induction s as [|c s IH]; simpl.
  - reflexivity.
  - destruct (p c).
    + by apply suffix_cons_r.
    + reflexivity.
Qed.

Lemma head_lstrip_by p s c : head (lstrip_by p s) = Some c -> p c = false.
Proof.
  induction s as [|x s IH]; simpl; [done|].
  destruct (p x) eqn:E; [done|].
  simpl. intros [= <-]. done.
Qed.

Lemma lstrip_by_all p s : forallb p s = true -> lstrip_by p s = [].
Proof.
  induction s as [|x s IH]; simpl; [done|].
  intros [Hx Hs]%andb_true_iff. rewrite Hx. auto.
Qed.

Lemma lstrip_by_keep p c s : p c = false -> lstrip_by p (c :: s) = c :: s.
Proof. intros H. simpl. by rewrite H. Qed.

Lemma lstrip_by_snoc p s c :
  p c = false -> lstrip_by p (s ++ [c]) = lstrip_by p s ++ [c].
Proof.
  intros Hc. induction s as [|x s IH]; simpl.
  - by rewrite Hc.
  - destruct (p x); [done|reflexivity].
Qed.

Lemma rstrip_by_prefix p s : rstrip_by p s `prefix_of` s.
Proof.
  unfold rstrip_by.
  destruct (lstrip_by_suffix p (reverse s)) as [k Hk].
  exists (reverse k).
  apply (f_equal reverse) in Hk.
  rewrite reverse_involutive, reverse_app in Hk. exact Hk.
Qed.

Lemma last_rstrip_by p s c : last (rstrip_by p s) = Some c -> p c = false.
Proof.
  unfold rstrip_by. rewrite last_reverse. apply head_lstrip_by.
Qed.

Lemma rstrip_by_all p s : forallb p s = true -> rstrip_by p s = [].
Proof.
  intros H. unfold rstrip_by. rewrite lstrip_by_all; [done|].
  rewrite forallb_forall in *. intros x Hx. apply H.
  apply list_elem_of_In, elem_of_reverse, list_elem_of_In, Hx.
Qed.

Lemma rstrip_by_cons_keep p c s :
  p c = false -> rstrip_by p (c :: s) = c :: rstrip_by p s.
Proof.
  intros Hc. unfold rstrip_by. rewrite reverse_cons.
  rewrite lstrip_by_snoc by done.
  by rewrite reverse_snoc.
Qed.

Lemma rstrip_by_id p s :
  (forall c, last s = Some c -> p c = false) -> rstrip_by p s = s.
Proof.
  intros H. unfold rstrip_by.
  destruct (reverse s) as [|x r] eqn:E.
  - simpl. rewrite <- (reverse_involutive s), E. done.
  - rewrite lstrip_by_keep.
    + by rewrite <- E, reverse_involutive.
    + apply H. by rewrite <- head_reverse, E.
Qed.

Lemma strip_by_head p s c : head (strip_by p s) = Some c -> p c = false.
Proof.
  unfold strip_by. intros H.
  apply (head_lstrip_by p s).
  destruct (rstrip_by_prefix p (lstrip_by p s)) as [k Hk].
  rewrite Hk. destruct (rstrip_by p (lstrip_by p s)); [done|]. exact H.
Qed.

Lemma strip_by_last p s c : last (strip_by p s) = Some c -> p c = false.
Proof. apply last_rstrip_by. Qed.

Lemma strip_by_all p s : forallb p s = true -> strip_by p s = [].
Proof.
  intros H. unfold strip_by. rewrite (lstrip_by_all p s H). done.
Qed.

Lemma strip_by_id p s :
  (forall c, head s = Some c -> p c = false) ->
  (forall c, last s = Some c -> p c = false) ->
  strip_by p s = s.
Proof.
  intros Hh Hl. unfold strip_by.
  assert (lstrip_by p s = s) as ->.
  { destruct s as [|x s]; [done|]. apply lstrip_by_keep. by apply Hh. }
  by apply rstrip_by_id.
Qed.

Lemma rstrip_by_sublist p s : rstrip_by p s `sublist_of` s.
Proof.
  destruct (rstrip_by_prefix p s) as [k Hk].
  rewrite Hk at 2. apply sublist_inserts_r. reflexivity.
Qed.

Lemma lstrip_by_sublist p s : lstrip_by p s `sublist_of` s.
Proof.
  destruct (lstrip_by_suffix p s) as [k Hk].
  rewrite Hk at 2. apply sublist_inserts_l. reflexivity.
Qed.

Lemma strip_by_sublist p s : strip_by p s `sublist_of` s.
Proof.
  unfold strip_by. etrans; [apply rstrip_by_sublist|apply lstrip_by_sublist].
Qed.

Lemma Forall_sublist {A} (P : A -> Prop) (l k : list A) :
  l `sublist_of` k -> Forall P k -> Forall P l.
Proof.
  intros Hs Hk. rewrite Forall_forall in *.
  intros x Hx. apply Hk. eapply elem_of_sublist; eauto.
Qed.

Lemma map_fixed {A} (f : A -> A) (l : list A) :
  Forall (fun x => f x = x) l -> map f l = l.
Proof. induction 1; simpl; congruence. Qed.

Lemma filter_all {A} (f : A -> bool) (l : list A) :
  Forall (fun x => f x = true) l -> List.filter f l = l.
Proof. induction 1 as [|x l Hx _ IH]; simpl; [done|]. by rewrite Hx, IH. Qed.

Lemma last_elem_of {A} (l : list A) x : last l = Some x -> x ∈ l.
Proof.
  intros H. apply last_Some in H as [l' ->]. set_solver.
Qed.

Lemma head_elem_of {A} (l : list A) x : head l = Some x -> x ∈ l.
Proof. destruct l; [done|]. intros [= ->]. set_solver. Qed.

End PyFacts.

Module SplitFacts.
Import Py.

Lemma str_eqb_eq a b : str_eqb a b = true <-> a = b.
Proof. unfold str_eqb. destruct (decide (a = b)); split; congruence. Qed.

Lemma str_eqb_neq a b : str_eqb a b = false <-> a <> b.
Proof. unfold str_eqb. destruct (decide (a = b)); split; congruence. Qed.

Lemma char_eqb_eq a b : char_eqb a b = true <-> a = b.
Proof. apply Ascii.eqb_eq. Qed.

Lemma char_eqb_neq a b : char_eqb a b = false <-> a <> b.
Proof. apply Ascii.eqb_neq. Qed.

Lemma startswith_app p s : startswith p (p ++ s) = true.
Proof.
  induction p as [|a p IH]; simpl; [done|].
  rewrite IH, andb_true_r. by apply char_eqb_eq.
Qed.

Lemma startswith_prefix p s : startswith p s = true <-> p `prefix_of` s.
Proof.
  split.
  - revert s. induction p as [|a p IH]; intros s H.
    + apply prefix_nil.
    + destruct s as [|b s]; simpl in H; [done|].
      apply andb_true_iff in H as [->%char_eqb_eq H].
      by apply prefix_cons, IH.
  - intros [k ->]. apply startswith_app.
Qed.

(** A text without the separator is one piece. *)
Lemma split_from_no_sep sep s cur :
  contains sep s = false ->
  split_from sep 0 cur s = [reverse cur ++ s].
Proof.
  revert cur. induction s as [|c s IH]; intros cur H.
  - simpl. by rewrite app_nil_r.
  - simpl in H. apply orb_false_iff in H as [Hs Hc].
    cbn [split_from]. rewrite Hs, (IH _ Hc), reverse_cons, <- app_assoc. done.
Qed.

Lemma split_no_sep sep s : contains sep s = false -> split sep s = [s].
Proof. intros H. unfold split. by rewrite split_from_no_sep. Qed.

Lemma contains_char_false c s :
  contains [c] s = false <-> c ∉ s.
Proof.
  induction s as [|x s IH]; simpl.
  - split; [intros _; apply not_elem_of_nil|done].
  - rewrite andb_true_r, orb_false_iff, IH, not_elem_of_cons, char_eqb_neq.
    tauto.
Qed.

(** With a one-character separator, what follows the last separator is
    the last piece. *)
Lemma split_from_char_last c pre seg cur :
  c ∉ seg ->
  exists pieces, split_from [c] 0 cur (pre ++ c :: seg) = pieces ++ [seg].
Proof.
  intros Hseg. revert cur. induction pre as [|x pre IH]; intros cur.
  - cbn [app split_from startswith length Nat.sub].
    assert (char_eqb c c = true) as -> by by apply char_eqb_eq.
    cbn [andb]. rewrite split_from_no_sep by by apply contains_char_false.
    exists [reverse cur]. done.
  - cbn [app split_from startswith length Nat.sub].
    rewrite andb_true_r. destruct (char_eqb c x).
    + destruct (IH []) as [pieces ->]. by exists (reverse cur :: pieces).
    + apply IH.
Qed.

Lemma last_filter_snoc {A} (f : A -> bool) l x d :
  f x = true -> List.last (List.filter f (l ++ [x])) d = x.
Proof.
  intros H. rewrite List.filter_app. simpl. rewrite H.
  apply List.last_last.
Qed.

(** [Path(dir + "/" + segment).name] is the segment. *)
Lemma name_of_joined dir seg :
  "/"%char ∉ seg -> seg <> [] -> seg <> ("." : str) ->
  PathLib.name (dir ++ "/" ++ seg) = seg.
Proof.
  intros Hs He Hd. unfold PathLib.name, PathLib.tail, split.
  destruct (split_from_char_last "/" dir seg [] Hs) as [pieces E].
  change (list_ascii_of_string "/") with ["/"%char].
  cbn [app]. rewrite E. apply last_filter_snoc.
  apply negb_true_iff, orb_false_iff. split; by apply str_eqb_neq.
Qed.

Lemma name_of_segment seg :
  "/"%char ∉ seg -> seg <> [] -> seg <> ("." : str) ->
  PathLib.name seg = seg.
Proof.
  intros Hs He Hd. unfold PathLib.name, PathLib.tail.
  rewrite split_no_sep by by apply contains_char_false.
  cbn [List.filter]. assert (str_eqb seg "" = false) as -> by by apply str_eqb_neq.
  assert (str_eqb seg "." = false) as -> by by apply str_eqb_neq.
  done.
Qed.

End SplitFacts.

(** ** [path_to_repo_name] *)

Module RepoNameFacts.
Import Py GitMax PyFacts SplitFacts.

Ltac each_char c :=
  destruct c as [[] [] [] [] [] [] [] []]; try (vm_compute; congruence).

Lemma one_of_dash c : one_of "-" c = char_eqb c dash.
Proof. unfold one_of. simpl. apply orb_false_r. Qed.

Lemma valid_lower_fixed c : valid_char c = true -> lower_char c = c.
Proof. each_char c. Qed.

Lemma valid_not_space c : valid_char c = true -> c <> " "%char.
Proof. each_char c. Qed.

(** The collapse keeps a subsequence of its input ... *)
Lemma re_sub_dashes_sublist s : re_sub_dashes s `sublist_of` s.
Proof.
  induction s as [|c s IH]; [done|].
  cbn [re_sub_dashes]. destruct (char_eqb c "-").
  - destruct s as [|d s'].
    + reflexivity.
    + destruct (char_eqb d "-").
      * by apply sublist_cons.
      * by apply sublist_skip.
  - by apply sublist_skip.
Qed.

Lemma re_sub_dashes_head s : head (re_sub_dashes s) = head s.
Proof.
  induction s as [|c s IH]; [done|].
  cbn [re_sub_dashes]. destruct (char_eqb c "-") eqn:E; [|done].
  destruct s as [|d s']; [done|].
  destruct (char_eqb d "-") eqn:E'; [|done].
  rewrite IH. simpl. apply char_eqb_eq in E, E'. congruence.
Qed.

Lemma startswith_run a s :
  startswith "--" (a :: s) =
  char_eqb a dash && match s with b :: _ => char_eqb b dash | [] => false end.
Proof.
  unfold dash. destruct s as [|b s]; cbn [startswith list_ascii_of_string];
    unfold char_eqb.
  - by rewrite !andb_false_r.
  - rewrite andb_true_r, (Ascii.eqb_sym "-" a), (Ascii.eqb_sym "-" b). done.
Qed.

(** ... leaves no two dashes side by side ... *)
Lemma re_sub_dashes_no_run s : contains "--" (re_sub_dashes s) = false.
Proof.
  induction s as [|c s IH]; [done|].
  cbn [re_sub_dashes]. destruct (char_eqb c "-") eqn:E.
  - destruct s as [|d s']; [apply char_eqb_eq in E; subst; done|].
    destruct (char_eqb d "-") eqn:E'; [done|].
    cbn [contains]. rewrite IH, orb_false_r, startswith_run.
    pose proof (re_sub_dashes_head (d :: s')) as Hh.
    destruct (re_sub_dashes (d :: s')) as [|x r]; [by rewrite andb_false_r|].
    simpl in Hh. injection Hh as ->.
    fold dash in E'. rewrite E'. by rewrite andb_false_r.
  - cbn [contains]. rewrite IH, orb_false_r, startswith_run.
    fold dash in E. by rewrite E.
Qed.

(** ... keeps every other character in place ... *)
Lemma re_sub_dashes_others s :
  List.filter (fun c => negb (char_eqb c "-")) (re_sub_dashes s)
  = List.filter (fun c => negb (char_eqb c "-")) s.
Proof.
  induction s as [|c s IH]; [done|].
  cbn [re_sub_dashes]. destruct (char_eqb c "-") eqn:E.
  - destruct s as [|d s'].
    + simpl. by rewrite E.
    + destruct (char_eqb d "-") eqn:E'.
      * rewrite IH. cbn [List.filter]. by rewrite E.
      * cbn [List.filter] in *. rewrite E, E' in *. cbn [negb] in *. by rewrite IH.
  - cbn [List.filter]. rewrite E. cbn [negb]. by rewrite IH.
Qed.

(** ... and changes nothing where there is no run. *)
Lemma re_sub_dashes_fixed s : contains "--" s = false -> re_sub_dashes s = s.
Proof.
  induction s as [|c s IH]; [done|].
  cbn [contains]. intros [H1 H2]%orb_false_iff.
  cbn [re_sub_dashes]. destruct (char_eqb c "-") eqn:E.
  - destruct s as [|d s']; [done|].
    destruct (char_eqb d "-") eqn:E'.
    + exfalso. rewrite startswith_run in H1. fold dash in E, E'.
      by rewrite E, E' in H1.
    + by rewrite (IH H2).
  - by rewrite (IH H2).
Qed.

Lemma contains_dashes_false s : dash ∉ s -> contains "--" s = false.
Proof.
  induction s as [|c s IH]; [done|].
  intros [Hc Hs]%not_elem_of_cons. cbn [contains].
  rewrite (IH Hs), orb_false_r, startswith_run.
  assert (char_eqb c dash = false) as ->; [|done].
  by apply char_eqb_neq.
Qed.

Lemma path_to_repo_name_unfold path :
  path_to_repo_name path =
  if is_empty (truncated (cleaned path)) then "repo" : str
  else truncated (cleaned path).
Proof.
  change (path_to_repo_name path) with
    (match truncated (cleaned path) with
     | [] => "repo" : str
     | _ => truncated (cleaned path)
     end).
  by destruct (truncated (cleaned path)).
Qed.

Lemma truncated_prefix name : truncated name `prefix_of` name.
Proof.
  unfold truncated. destruct (100 <? length name); [|done].
  etrans; [apply rstrip_by_prefix|apply prefix_take].
Qed.

Lemma truncated_length name : length (truncated name) <= 100.
Proof.
  unfold truncated. destruct (100 <? length name) eqn:E.
  - etrans; [apply prefix_length, rstrip_by_prefix|].
    rewrite length_take. lia.
  - apply Nat.ltb_ge in E. lia.
Qed.

Lemma cleaned_valid path : Forall (fun c => valid_char c = true) (cleaned path).
Proof.
  unfold cleaned, strip_chars, re_sub_invalid.
  eapply Forall_sublist; [apply strip_by_sublist|].
  apply Forall_forall. intros c Hc%list_elem_of_In%List.filter_In. tauto.
Qed.

Lemma truncated_last name c :
  (forall c, last name = Some c -> c <> dash) ->
  last (truncated name) = Some c -> c <> dash.
Proof.
  intros Hn. unfold truncated. destruct (100 <? length name); [|apply Hn].
  intros H%last_rstrip_by. rewrite one_of_dash in H.
  by apply char_eqb_neq in H.
Qed.

Lemma cleaned_head path c : head (cleaned path) = Some c -> c <> dash.
Proof.
  intros H%strip_by_head. rewrite one_of_dash in H. by apply char_eqb_neq.
Qed.

Lemma cleaned_last path c : last (cleaned path) = Some c -> c <> dash.
Proof.
  intros H%strip_by_last. rewrite one_of_dash in H. by apply char_eqb_neq.
Qed.

Lemma head_prefix {A} (l k : list A) x :
  l `prefix_of` k -> head l = Some x -> head k = Some x.
Proof. intros [m ->]. by destruct l. Qed.

End RepoNameFacts.

Module RepoNameSteps.
Import Py GitMax PyFacts SplitFacts RepoNameFacts RepoNameSpec.

(** The collapse of the source keeps the last dash of a run, the one of
    the specification the first: the texts are the same. *)
Lemma re_sub_dashes_collapse s :
  re_sub_dashes s = collapse false s
  /\ re_sub_dashes ("-"%char :: s) = "-"%char :: collapse true s.
Proof.
  induction s as [|c s [IH1 IH2]]; [done|].
  destruct (char_eqb c "-") eqn:E.
  - apply char_eqb_eq in E as ->. split.
    + rewrite IH2. reflexivity.
    + change (re_sub_dashes ("-"%char :: "-"%char :: s))
        with (re_sub_dashes ("-"%char :: s)).
      rewrite IH2. reflexivity.
  - split.
    + cbn [re_sub_dashes collapse]. rewrite E. by rewrite IH1.
    + cbn [re_sub_dashes collapse].
      change (char_eqb "-" "-") with true. cbn iota. rewrite E.
      by rewrite IH1.
Qed.

Lemma valid_char_alphabet c : valid_char c = in_alphabet c.
Proof. destruct c as [[] [] [] [] [] [] [] []]; reflexivity. Qed.

Lemma replace_space_map s :
  replace_char " " "-" s
  = map (fun c => if char_eqb c " " then "-"%char else c) s.
Proof. reflexivity. Qed.

Lemma path_to_repo_name_derived path :
  path_to_repo_name path = derived_name (PathLib.name path).
Proof.
  unfold path_to_repo_name, derived_name. cbn zeta.
  rewrite (proj1 (re_sub_dashes_collapse _)).
  unfold re_sub_invalid, collapse_runs.
  rewrite (List.filter_ext valid_char in_alphabet valid_char_alphabet).
  set (trimmed := strip_chars "-" _).
  destruct (Nat.ltb_spec 100 (length trimmed)) as [Hlong|Hshort],
           (Nat.leb_spec (length trimmed) 100) as [Hle|Hgt]; try lia;
    reflexivity.
Qed.

(** A text without a run of dashes has none in its parts. *)
Lemma startswith_extend p s k :
  startswith p s = true -> startswith p (s ++ k) = true.
Proof.
  revert s. induction p as [|a p IH]; intros s H; [done|].
  destruct s as [|b s]; [done|]. cbn [startswith app] in *.
  apply andb_true_iff in H as [-> H]. by rewrite IH.
Qed.

Lemma no_run_suffix k t :
  contains "--" (k ++ t) = false -> contains "--" t = false.
Proof.
  induction k as [|c k IH]; [done|]. cbn [app contains].
  intros [_ H]%orb_false_iff. by apply IH.
Qed.

Lemma no_run_prefix t k :
  contains "--" (t ++ k) = false -> contains "--" t = false.
Proof.
  induction t as [|c t IH]; [done|]. cbn [app contains].
  intros [Hs H]%orb_false_iff. rewrite (IH H), orb_false_r.
  destruct (startswith "--" (c :: t)) eqn:E; [|done].
  apply (startswith_extend _ _ k) in E. cbn [app] in E. congruence.
Qed.

Lemma no_run_strip_by p s :
  contains "--" s = false -> contains "--" (strip_by p s) = false.
Proof.
  intros H. unfold strip_by.
  destruct (rstrip_by_prefix p (lstrip_by p s)) as [k Hk].
  destruct (lstrip_by_suffix p s) as [k' Hk'].
  apply (no_run_prefix _ k). rewrite <- Hk. apply (no_run_suffix k').
  by rewrite <- Hk'.
Qed.

Lemma no_run_truncated name :
  contains "--" name = false -> contains "--" (truncated name) = false.
Proof.
  intros H. destruct (truncated_prefix name) as [k Hk].
  apply (no_run_prefix _ k). by rewrite <- Hk.
Qed.

(** Where the derivation removes no character the name has no run of
    dashes. *)
Lemma no_run_in_name path :
  nothing_removed (PathLib.name path) ->
  contains "--" (path_to_repo_name path) = false.
Proof.
  intros Hkept. rewrite path_to_repo_name_unfold.
  assert (Hclean : contains "--" (cleaned path) = false).
  { unfold cleaned, strip_chars. apply no_run_strip_by.
    unfold re_sub_invalid. rewrite filter_all; [apply re_sub_dashes_no_run|].
    eapply Forall_sublist; [apply re_sub_dashes_sublist|].
    unfold replace_char, lower. rewrite Forall_forall. intros c Hc.
    apply list_elem_of_fmap in Hc as (b & -> & Hb).
    apply list_elem_of_fmap in Hb as (a & -> & Ha).
    unfold nothing_removed in Hkept. rewrite Forall_forall in Hkept.
    destruct (Hkept a Ha) as [Hin| ->]; [|reflexivity].
    rewrite valid_char_alphabet.
    destruct (char_eqb (lower_char a) " "); [reflexivity|exact Hin]. }
  apply no_run_truncated in Hclean.
  by destruct (truncated (cleaned path)).
Qed.

End RepoNameSteps.

Module RepoName.
Import Py GitMax PyFacts SplitFacts RepoNameFacts.

(** A name without a character of the repository alphabet has nothing
    left after the cleaning. *)
Lemma cleaned_of_invalid path :
  Forall (fun c => valid_char (lower_char c) = false) (PathLib.name path) ->
  cleaned path = [].
Proof.
  intros H. unfold cleaned, strip_chars. apply strip_by_all.
  apply forallb_forall. intros x Hx%list_elem_of_In.
  unfold re_sub_invalid in Hx.
  apply list_elem_of_In, List.filter_In in Hx as [Hx%list_elem_of_In Hv].
  eapply elem_of_sublist in Hx; [|apply re_sub_dashes_sublist].
  unfold replace_char, lower in Hx.
  apply list_elem_of_fmap in Hx as [y [-> Hy]].
  apply list_elem_of_fmap in Hy as [c [-> Hc]].
  rewrite Forall_forall in H. specialize (H c Hc).
  destruct (char_eqb (lower_char c) " "); [done|]. congruence.
Qed.

(** A name over a-z, 0-9 and the underscore passes the cleaning
    unchanged. *)
Lemma cleaned_of_plain path :
  Forall (fun c => valid_char c = true /\ c <> dash) (PathLib.name path) ->
  cleaned path = PathLib.name path.
Proof.
  intros H. unfold cleaned. set (n := PathLib.name path) in *.
  assert (lower n = n) as ->.
  { apply map_fixed. eapply Forall_impl; [exact H|].
    intros c [Hc _]. by apply valid_lower_fixed. }
  assert (replace_char " " "-" n = n) as ->.
  { apply map_fixed. eapply Forall_impl; [exact H|].
    intros c [Hc%valid_not_space _].
    by apply char_eqb_neq in Hc as ->. }
  assert (dash ∉ n) as Hd.
  { intros Hin. rewrite Forall_forall in H. by destruct (H _ Hin). }
  rewrite re_sub_dashes_fixed by by apply contains_dashes_false.
  unfold re_sub_invalid. rewrite filter_all
    by (eapply Forall_impl; [exact H|]; by intros c [Hc _]).
  apply strip_by_id; intros c Hc; rewrite one_of_dash;
    apply char_eqb_neq; intros ->; apply Hd.
  - by apply head_elem_of.
  - by apply last_elem_of.
Qed.

(** C1. For every directory path the derived repository name is the
    final path segment, lower-cased, with spaces turned into dashes, runs
    of dashes collapsed, every character outside [a-z0-9-_] removed,
    dashes stripped at both ends, and cut to at most 100 characters with
    no dash left at the end; the fixed name "repo" stands in for an empty
    result. So the name is never empty, never longer than 100, made of
    [a-z0-9-_] only, and neither starts nor ends with a dash.
    "My Cool App!!" gives "my-cool-app"; a name all of whose characters
    are still outside [a-z0-9-_] after lower-casing gives "repo"; a name
    of 150 valid characters gives at most 100 characters with no dash at
    the end, and exactly its first 100 characters when it holds no dash.

    The steps are those of the specification: the name equals
    [RepoNameSpec.derived_name] of the final segment, which collapses
    runs of dashes and keeps the characters of the alphabet without the
    regular expressions of the source. The collapse of the source leaves
    no two dashes in a row and touches no other character; the class of
    the source is the alphabet [a-z0-9-_]; and where no character is
    removed after the collapse the name holds no run of dashes: "My  App"
    gives "my-app". *)
Theorem path_to_repo_name_derivation :
  (forall path : str,
     let r := path_to_repo_name path in
     r = (if is_empty (truncated (cleaned path)) then "repo" : str
          else truncated (cleaned path))
     /\ 1 <= length r <= 100
     /\ Forall (fun c => valid_char c = true) r
     /\ head r <> Some dash /\ last r <> Some dash)
  /\ (forall dir seg : str,
        "/"%char ∉ seg -> seg <> [] -> seg <> ("." : str) ->
        path_to_repo_name (dir ++ "/" ++ seg) = path_to_repo_name seg)
  /\ path_to_repo_name "My Cool App!!" = ("my-cool-app" : str)
  /\ path_to_repo_name "/home/user/My Cool App!!" = ("my-cool-app" : str)
  /\ (forall path : str,
        Forall (fun c => valid_char (lower_char c) = false) (PathLib.name path) ->
        path_to_repo_name path = ("repo" : str))
  /\ (forall path : str,
        length (PathLib.name path) = 150 ->
        Forall (fun c => valid_char c = true) (PathLib.name path) ->
        let r := path_to_repo_name path in
        length r <= 100 /\ last r <> Some dash
        /\ (dash ∉ PathLib.name path -> r = take 100 (PathLib.name path)))
  /\ (forall path : str,
        path_to_repo_name path = RepoNameSpec.derived_name (PathLib.name path))
  /\ (forall s : str,
        re_sub_dashes s = RepoNameSpec.collapse_runs s
        /\ contains "--" (re_sub_dashes s) = false
        /\ List.filter (fun c => negb (char_eqb c "-")) (re_sub_dashes s)
           = List.filter (fun c => negb (char_eqb c "-")) s)
  /\ (forall c : ascii, valid_char c = RepoNameSpec.in_alphabet c)
  /\ (forall path : str,
        RepoNameSpec.nothing_removed (PathLib.name path) ->
        contains "--" (path_to_repo_name path) = false)
  /\ path_to_repo_name "My  App" = ("my-app" : str)
  /\ path_to_repo_name "/srv/a---b - c" = ("a-b-c" : str).
Proof.
  assert (forall path : str,
     let r := path_to_repo_name path in
     r = (if is_empty (truncated (cleaned path)) then "repo" : str
          else truncated (cleaned path))
     /\ 1 <= length r <= 100
     /\ Forall (fun c => valid_char c = true) r
     /\ head r <> Some dash /\ last r <> Some dash) as General.
  { intros path r. subst r. rewrite path_to_repo_name_unfold.
    split; [done|].
    pose proof (truncated_length (cleaned path)) as Hlen.
    pose proof (truncated_prefix (cleaned path)) as Hpre.
    pose proof (truncated_last (cleaned path)) as Hlast.
    destruct (truncated (cleaned path)) as [|c n] eqn:E; cbn [is_empty].
    - repeat split; try (vm_compute; lia); try done.
      repeat constructor.
    - repeat split.
      + simpl. lia.
      + exact Hlen.
      + eapply Forall_sublist; [|apply cleaned_valid].
        destruct Hpre as [k ->]. apply sublist_inserts_r. reflexivity.
      + intros Hh. eapply (cleaned_head path); [|reflexivity].
        eapply head_prefix; eauto.
      + intros Hl. eapply Hlast; [apply cleaned_last|exact Hl|reflexivity]. }
  split; [exact General|].
  split.
  { intros dir seg Hs He Hd. unfold path_to_repo_name.
    by rewrite name_of_joined, name_of_segment. }
  split; [by vm_compute|].
  split; [by vm_compute|].
  split.
  { intros path H. rewrite path_to_repo_name_unfold.
    by rewrite (cleaned_of_invalid path H). }
  split.
  { intros path Hlen Hvalid r.
    destruct (General path) as (_ & [_ Hle] & _ & _ & Hl).
    split; [exact Hle|]. split; [exact Hl|].
    intros Hd. subst r. rewrite path_to_repo_name_unfold.
    rewrite cleaned_of_plain.
    2:{ rewrite Forall_forall in *. intros c Hc. split; [by apply Hvalid|].
        intros ->. by apply Hd. }
    unfold truncated. rewrite Hlen. cbn [Nat.ltb Nat.leb].
    assert (rstrip_chars "-" (take 100 (PathLib.name path))
            = take 100 (PathLib.name path)) as ->.
    { apply rstrip_by_id. intros c Hc%last_elem_of. rewrite one_of_dash.
      apply char_eqb_neq. intros ->. apply Hd.
      eapply elem_of_sublist; [exact Hc|apply sublist_take]. }
    destruct (take 100 (PathLib.name path)) eqn:E; [|done].
    apply (f_equal length) in E. rewrite length_take, Hlen in E. done. }
  split; [apply RepoNameSteps.path_to_repo_name_derived|].
  split.
  { intros s. split; [apply RepoNameSteps.re_sub_dashes_collapse|].
    split; [apply re_sub_dashes_no_run|apply re_sub_dashes_others]. }
  split; [apply RepoNameSteps.valid_char_alphabet|].
  split; [apply RepoNameSteps.no_run_in_name|].
  split; by vm_compute.
Qed.

End RepoName.

(** The theorem at work: a name of punctuation only, a name of 150 letters,
    and a directory path. *)
Lemma path_to_repo_name_witness :
  GitMax.path_to_repo_name "!!! ???" = ("repo" : str)
  /\ GitMax.path_to_repo_name (replicate 150 "a"%char) = replicate 100 "a"%char
  /\ GitMax.path_to_repo_name "/srv/data/Report 2024"
     = GitMax.path_to_repo_name "Report 2024".
Proof.
  destruct RepoName.path_to_repo_name_derivation
    as (_ & Hseg & _ & _ & Hinv & H150 & _).
  split; [|split].
  - apply Hinv. apply (bool_decide_unpack _). by vm_compute.
  - assert (length (PathLib.name (replicate 150 "a"%char)) = 150) as H1
      by by vm_compute.
    assert (Forall (fun c => GitMax.valid_char c = true)
              (PathLib.name (replicate 150 "a"%char))) as H2
      by (apply (bool_decide_unpack _); by vm_compute).
    destruct (H150 _ H1 H2) as (_ & _ & H3).
    rewrite H3; [by vm_compute|].
    apply (bool_decide_unpack _). by vm_compute.
  - apply (Hseg "/srv/data" "Report 2024"); [|done|done].
    apply (bool_decide_unpack _). by vm_compute.
Defined.

(** Where the hundredth character is a dash the name gets shorter than 100,
    and a dash that the removal of invalid characters brings next to
    another one stays. *)
Example path_to_repo_name_short :
  GitMax.path_to_repo_name (replicate 99 "a"%char ++ "-" ++ replicate 50 "b"%char)
  = replicate 99 "a"%char
  /\ GitMax.path_to_repo_name "a-!-b" = ("a--b" : str).
Proof. split; by vm_compute. Qed.

(** ** [run_cmd] *)

Module RunCmd.
Import Py GitMax.

(** C7, as the code has it. [run_cmd] always returns a triple and adds
    exactly the one command to the trace. When the process completes the
    triple is (exit status is zero, stdout, stderr) for a capturing call,
    and the two texts are empty for a call that does not capture; so the
    flag is true exactly when the process completed with exit status
    zero. On a timeout the triple is (false, "", "Command timed out"); on
    any other failure of the execution it is (false, "", description). *)
Theorem run_cmd_returns (W : world) (cmd : str) (cwd : option str)
        (capture : bool) (timeout : nat) (h : list event) :
  exists ok out err,
    run_cmd W cmd cwd capture timeout h = ((ok, out, err), [Run cmd cwd timeout])
    /\ match subprocess_run W h cmd cwd timeout with
       | Completed returncode stdout stderr =>
           (ok = true <-> returncode = 0%Z)
           /\ out = (if capture then stdout else [])
           /\ err = (if capture then stderr else [])
       | TimeoutExpired =>
           ok = false /\ out = [] /\ err = ("Command timed out" : str)
       | Raised description =>
           ok = false /\ out = [] /\ err = description
       end
    /\ (ok = true <->
        exists stdout stderr,
          subprocess_run W h cmd cwd timeout = Completed 0 stdout stderr).
Proof.
  unfold run_cmd.
  destruct (subprocess_run W h cmd cwd timeout) as [rc so se| |d] eqn:E;
    cbn [run_cmd_result].
  - eexists _, _, _. split; [reflexivity|]. split.
    + split; [apply Z.eqb_eq|done].
    + rewrite Z.eqb_eq. split.
      * intros ->. eauto.
      * intros (? & ? & [= -> _ _]). done.
  - eexists _, _, _. split; [reflexivity|]. split; [done|].
    split; [done|]. intros (? & ? & [=]).
  - eexists _, _, _. split; [reflexivity|]. split; [done|].
    split; [done|]. intros (? & ? & [=]).
Qed.

(** C7, as stated, fails where a command times out: the text returned is
    "Command timed out", not "timed out". *)
Lemma run_cmd_timeout_text :
  fst (run_cmd Samples.hanging "git status --porcelain" (Some Samples.job) true 300 [])
  <> (false, [], "timed out" : str).
Proof. by vm_compute. Qed.

End RunCmd.

(** ** [get_large_files] and [get_lfs_patterns] *)

Module LargeFiles.
Import Py GitMax SplitFacts.

Lemma lower_empty s : is_empty (lower s) = is_empty s.
Proof. by destruct s. Qed.

Lemma is_empty_true {A} (l : list A) : is_empty l = true <-> l = [].
Proof. destruct l; split; done. Qed.

Lemma is_empty_false {A} (l : list A) : is_empty l = false <-> l <> [].
Proof. destruct l; split; done. Qed.

Lemma pattern_of_extension f :
  PathLib.suffix f <> [] -> pattern_of f = "*" ++ lower (PathLib.suffix f).
Proof.
  intros H. unfold pattern_of.
  by rewrite lower_empty, (proj2 (is_empty_false _) H).
Qed.

Lemma pattern_of_plain f : PathLib.suffix f = [] -> pattern_of f = f.
Proof. intros H. unfold pattern_of. by rewrite H. Qed.

Lemma get_lfs_patterns_fold (step : gset str -> str -> gset str) acc fs pat :
  (forall patterns f, step patterns f = {[ pattern_of f ]} ∪ patterns) ->
  pat ∈ foldl step acc fs
  <-> pat ∈ acc \/ exists f, f ∈ fs /\ pat = pattern_of f.
Proof.
  intros Hstep. revert acc. induction fs as [|f fs IH]; intros acc; cbn [foldl].
  - split; [by left|]. intros [H|(f & Hf & _)]; [done|].
    by apply elem_of_nil in Hf.
  - rewrite IH, Hstep. clear IH. split.
    + intros [[->%elem_of_singleton|H]%elem_of_union|(g & Hg & ->)].
      * right. exists f. split; [left|done].
      * by left.
      * right. exists g. split; [by right|done].
    + intros [H|(g & [->|Hg]%elem_of_cons & ->)].
      * left. apply elem_of_union. by right.
      * left. apply elem_of_union. left. by apply elem_of_singleton.
      * right. eauto.
Qed.

(** The patterns are what the paths add, one by one. *)
Lemma elem_of_get_lfs_patterns fs pat :
  pat ∈ get_lfs_patterns fs <-> exists f, f ∈ fs /\ pat = pattern_of f.
Proof.
  unfold get_lfs_patterns. rewrite get_lfs_patterns_fold.
  - split; [intros [H|H]; [by apply elem_of_empty in H|done]|by right].
  - intros patterns f. unfold pattern_of. cbn zeta. by destruct (is_empty _).
Qed.

Lemma get_large_files_run W dir h :
  get_large_files W dir h = (omap (large_file dir) (path_rglob W h dir), []).
Proof. reflexivity. Qed.

Lemma in_git_false dir e :
  in_git dir e = false <-> (".git" : str) ∉ (PathLib.parts dir ++ rel e).
Proof.
  unfold in_git. rewrite <- not_true_iff_false, existsb_exists.
  split.
  - intros H Hin. apply H. exists ".git". split.
    + by apply list_elem_of_In.
    + by apply str_eqb_eq.
  - intros H (x & Hx%list_elem_of_In & E%str_eqb_eq). by subst.
Qed.

(** What one turn of the loop collects. *)
Lemma large_file_Some dir e p :
  large_file dir e = Some p <->
  is_file e = true
  /\ ((".git" : str) ∉ (PathLib.parts dir ++ rel e))
  /\ exists size, st_size e = Some size
                  /\ (100 * 1024 * 1024 < size)%Z /\ p = rel_path e.
Proof.
  unfold large_file. rewrite <- in_git_false.
  destruct (in_git dir e), (is_file e), (st_size e) as [size|]; cbn [negb].
  all: try (split; [done|]; intros (? & ? & ? & ? & ? & ?); done).
  change GITHUB_FILE_LIMIT with (100 * 1024 * 1024)%Z.
  destruct (100 * 1024 * 1024 <? size)%Z eqn:E.
  - apply Z.ltb_lt in E. split.
    + intros [= <-]. eauto 10.
    + intros (_ & _ & s & [= <-] & _ & ->). done.
  - apply Z.ltb_ge in E. split; [done|].
    intros (_ & _ & s & [= <-] & ? & _). lia.
Qed.

Lemma rel_path_no_backslash e : backslash ∉ rel_path e.
Proof.
  unfold rel_path, replace_char.
  intros (c & Hc & _)%list_elem_of_fmap.
  destruct (char_eqb c backslash) eqn:E; [done|].
  apply char_eqb_neq in E. congruence.
Qed.

Lemma rel_path_plain e :
  Forall (fun part => backslash ∉ part) (rel e) ->
  rel_path e = join "/" (rel e).
Proof.
  intros H. unfold rel_path, replace_char.
  assert (backslash ∉ join "/" (rel e)) as Hj.
  { induction H as [|p ps Hp _ IH]; [apply not_elem_of_nil|].
    cbn [join]. destruct ps as [|q ps]; [done|].
    rewrite !not_elem_of_app. split; [done|]. split; [|done].
    by apply (bool_decide_unpack _). }
  induction (join "/" (rel e)) as [|c s IH]; [done|].
  apply not_elem_of_cons in Hj as [Hc Hs]. cbn [map].
  rewrite (IH Hs). apply not_eq_sym, char_eqb_neq in Hc. by rewrite Hc.
Qed.

(** C6. The detector collects exactly the regular files outside [.git]
    whose size is strictly above 100 MiB: a path is collected if and only
    if it is the path of such an item of the tree. A file of 100 MiB + 1
    byte is collected and a file of exactly 100 MiB is not. Each path is
    recorded relative to the directory, its parts joined by forward
    slashes and free of backslashes. Of the collected paths, one with an
    extension adds the wildcard pattern of that extension (in lower case)
    and one without adds itself, and the set holds nothing else. *)
Theorem large_file_detection (W : world) (dir : str) (h : list event) :
  let found := fst (get_large_files W dir h) in
  get_large_files W dir h = (omap (large_file dir) (path_rglob W h dir), [])
  /\ (forall p : str,
        p ∈ found <->
        exists e size,
          e ∈ path_rglob W h dir /\ is_file e = true
          /\ ((".git" : str) ∉ (PathLib.parts dir ++ rel e))
          /\ st_size e = Some size /\ (100 * 1024 * 1024 < size)%Z
          /\ p = rel_path e)
  /\ (forall parts : list str,
        (".git" : str) ∉ (PathLib.parts dir ++ parts) ->
        large_file dir (Samples.file parts (100 * 1024 * 1024 + 1))
        = Some (rel_path (Samples.file parts (100 * 1024 * 1024 + 1)))
        /\ large_file dir (Samples.file parts (100 * 1024 * 1024)) = None)
  /\ (forall e, (backslash ∉ rel_path e)
                /\ (Forall (fun part => backslash ∉ part) (rel e) ->
                    rel_path e = join "/" (rel e)))
  /\ (forall f : str,
        f ∈ found ->
        (PathLib.suffix f <> [] ->
         "*" ++ lower (PathLib.suffix f) ∈ get_lfs_patterns found)
        /\ (PathLib.suffix f = [] -> f ∈ get_lfs_patterns found))
  /\ (forall pat : str,
        pat ∈ get_lfs_patterns found ->
        exists f, f ∈ found
                  /\ pat = (if is_empty (PathLib.suffix f) then f
                            else "*" ++ lower (PathLib.suffix f))).
Proof.
  intros found. subst found. rewrite get_large_files_run. cbn [fst].
  split; [done|]. split.
  { intros p. rewrite list_elem_of_omap. split.
    - intros (e & He & (Hf & Hg & size & Hs & Hlt & ->)%large_file_Some).
      eauto 10.
    - intros (e & size & He & Hf & Hg & Hs & Hlt & ->).
      exists e. split; [done|]. apply large_file_Some. eauto 10. }
  split.
  { intros parts Hg. split.
    - apply large_file_Some. repeat split; [done|].
      eexists. split; [reflexivity|]. split; [lia|done].
    - destruct (large_file dir _) as [p|] eqn:E; [|done].
      apply large_file_Some in E as (_ & _ & size & [= <-] & ? & _). lia. }
  split.
  { intros e. split; [apply rel_path_no_backslash|apply rel_path_plain]. }
  split.
  { intros f Hf. split; intros Hs; apply elem_of_get_lfs_patterns; exists f.
    - by rewrite pattern_of_extension.
    - by rewrite pattern_of_plain. }
  intros pat (f & Hf & ->)%elem_of_get_lfs_patterns.
  exists f. split; [done|]. unfold pattern_of. by rewrite lower_empty.
Qed.

(** The detector on a tree with files around the limit. *)
Example large_files_of_big_tree :
  let W := Samples.world_of (fun _ => Samples.ok_with "") Samples.big_tree in
  fst (get_large_files W "/srv/job" []) = [ "video.MP4" : str; "data/dump" : str ]
  /\ get_lfs_patterns [ "video.MP4" : str; "data/dump" : str ]
     = {[ "*.mp4" : str; "data/dump" : str ]}.
Proof.
  split; [by vm_compute|].
  apply set_eq. intros pat.
  rewrite elem_of_get_lfs_patterns, elem_of_union, !elem_of_singleton.
  assert (pattern_of "video.MP4" = ("*.mp4" : str)) as E1 by by vm_compute.
  assert (pattern_of "data/dump" = ("data/dump" : str)) as E2 by by vm_compute.
  split.
  - intros (f & [->|[->|[]%elem_of_nil]%elem_of_cons]%elem_of_cons & ->);
      rewrite ?E1, ?E2; tauto.
  - intros [->| ->]; eexists; (split; [|symmetry; eassumption]).
    + left.
    + right. left.
Qed.

(** C9. A collected path with an extension adds the wildcard pattern of
    its extension in lower case; so two paths whose extensions differ
    only in case give one and the same pattern, as "a.ISO" and "b.iso"
    give the single pattern "*.iso". *)
Theorem lfs_pattern_lowercase :
  (forall (large_files : list str) (f : str),
     f ∈ large_files -> PathLib.suffix f <> [] ->
     pattern_of f = "*" ++ lower (PathLib.suffix f)
     /\ pattern_of f ∈ get_lfs_patterns large_files)
  /\ (forall f g : str,
        PathLib.suffix f <> [] ->
        lower (PathLib.suffix f) = lower (PathLib.suffix g) ->
        get_lfs_patterns [f; g] = {[ "*" ++ lower (PathLib.suffix f) ]})
  /\ get_lfs_patterns [ "a.ISO" : str; "b.iso" : str ] = {[ "*.iso" : str ]}.
Proof.
  split.
  { intros fs f Hf Hs. split; [by apply pattern_of_extension|].
    apply elem_of_get_lfs_patterns. eauto. }
  assert (forall f g : str,
            PathLib.suffix f <> [] ->
            lower (PathLib.suffix f) = lower (PathLib.suffix g) ->
            get_lfs_patterns [f; g] = {[ "*" ++ lower (PathLib.suffix f) ]})
    as Same.
  { intros f g Hf E. apply set_eq. intros pat.
    rewrite elem_of_get_lfs_patterns, elem_of_singleton.
    assert (PathLib.suffix g <> []) as Hg.
    { intros Hg. rewrite Hg in E. by destruct (PathLib.suffix f). }
    split.
    - intros (x & [->|[->|[]%elem_of_nil]%elem_of_cons]%elem_of_cons & ->).
      + by apply pattern_of_extension.
      + rewrite E. by apply pattern_of_extension.
    - intros ->. exists f. split; [left|]. by rewrite pattern_of_extension. }
  split; [exact Same|].
  rewrite (Same "a.ISO" "b.iso"); [|by vm_compute|by vm_compute].
  f_equal.
Qed.

End LargeFiles.

(** C9 at work on two image files. *)
Lemma lfs_pattern_lowercase_witness :
  GitMax.pattern_of "disk/a.ISO" = ("*.iso" : str)
  /\ GitMax.get_lfs_patterns [ "disk/a.ISO" : str; "b.Iso" : str ] = {[ "*.iso" : str ]}.
Proof.
  destruct LargeFiles.lfs_pattern_lowercase as (H1 & H2 & _).
  split.
  - destruct (H1 [ "disk/a.ISO" : str ] "disk/a.ISO") as [-> _];
      [left|by vm_compute|by vm_compute].
  - rewrite (H2 "disk/a.ISO" "b.Iso"); [f_equal|by vm_compute|by vm_compute].
Defined.

(** C6 at work on the sample tree. *)
Lemma large_file_detection_witness :
  let W := Samples.world_of (fun _ => Samples.ok_with "") Samples.big_tree in
  ("video.MP4" : str) ∈ fst (GitMax.get_large_files W "/srv/job" [])
  /\ ("*.mp4" : str) ∈ GitMax.get_lfs_patterns (fst (GitMax.get_large_files W "/srv/job" []))
  /\ ("data/dump" : str) ∈ GitMax.get_lfs_patterns (fst (GitMax.get_large_files W "/srv/job" [])).
Proof.
  intros W.
  destruct (LargeFiles.large_file_detection W "/srv/job" [])
    as (_ & Hin & _ & _ & Hpat & _).
  assert (("video.MP4" : str) ∈ fst (GitMax.get_large_files W "/srv/job" [])) as H1.
  { apply Hin.
    exists (Samples.file ["video.MP4" : str] (100 * Samples.MiB + 1)),
           (100 * Samples.MiB + 1)%Z.
    split; [left|]. split; [done|]. split; [by apply (bool_decide_unpack _)|].
    split; [reflexivity|]. split; [by vm_compute|by vm_compute]. }
  assert (("data/dump" : str) ∈ fst (GitMax.get_large_files W "/srv/job" [])) as H2.
  { apply Hin.
    exists (Samples.file ["data" : str; "dump" : str] (100 * Samples.MiB + 1)),
           (100 * Samples.MiB + 1)%Z.
    split; [do 3 right; left|]. split; [done|].
    split; [by apply (bool_decide_unpack _)|].
    split; [reflexivity|]. split; [by vm_compute|by vm_compute]. }
  split; [exact H1|]. split.
  - destruct (Hpat _ H1) as [Hext _]. apply Hext. by vm_compute.
  - destruct (Hpat _ H2) as [_ Hplain]. apply Hplain. by vm_compute.
Defined.

(** ** [read_dirs_from_file] *)

Module ListFile.
Import Py GitMax SplitFacts.

(** The inner loop appends the paths of the segments that carry the
    marker, in order. *)
Lemma legacy_parts_fold dirs parts :
  foldl (fun dirs part =>
           if startswith "gitit " part
           then dirs ++ [strip (drop 6 part)]
           else dirs) dirs parts
  = dirs ++ map (fun part => strip (drop 6 part))
                (List.filter (startswith "gitit ") parts).
Proof.
  revert dirs. induction parts as [|part parts IH]; intros dirs; cbn [foldl].
  - by rewrite app_nil_r.
  - rewrite IH. cbn [List.filter]. destruct (startswith "gitit " part); [|done].
    by rewrite <- app_assoc.
Qed.

Lemma marker_line l :
  startswith "gitit " l = true ->
  is_empty l = false /\ startswith "#" l = false.
Proof.
  destruct l as [|c l]; [done|].
  change (list_ascii_of_string "gitit ") with ("g"%char :: list_ascii_of_string "itit ").
  cbn [startswith].
  intros [<-%char_eqb_eq _]%andb_true_iff. done.
Qed.

(** The lines are read one after the other. *)
Lemma read_dirs_from_file_lines lines :
  read_dirs_from_file lines
  = concat (map (fun line => read_dirs_from_file [line]) lines).
Proof.
  unfold read_dirs_from_file.
  set (step := fun (dirs : list str) (line : str) => _).
  assert (forall dirs line, step dirs line = dirs ++ step [] line) as Hstep.
  { intros dirs line. subst step. cbn beta zeta.
    destruct (negb (is_empty (strip line)) && negb (startswith "#" (strip line)));
      [|by rewrite app_nil_r].
    destruct (startswith "gitit " (strip line)); [|done].
    by rewrite !legacy_parts_fold. }
  assert (forall dirs, foldl step dirs lines
                       = dirs ++ concat (map (fun line => step [] line) lines)) as H.
  { induction lines as [|line lines IH]; intros dirs; cbn [foldl map concat].
    - by rewrite app_nil_r.
    - rewrite IH, (Hstep dirs line), <- app_assoc. done. }
  apply H.
Qed.

(** C10. A line that begins with "gitit " (after the surrounding white
    space is stripped) is split on the two characters "; " only; the
    pieces that begin with "gitit " give one entry each, the text after
    their marker, stripped, and the other pieces give nothing. So a line
    in which no "; " occurs, as when its segments are separated by a bare
    semicolon, gives one single entry: the rest of the line after the
    first marker. *)
Theorem legacy_line_split (line : str) :
  startswith "gitit " (strip line) = true ->
  read_dirs_from_file [line]
  = map (fun part => strip (drop 6 part))
        (List.filter (startswith "gitit ") (split "; " (strip line)))
  /\ (contains "; " (strip line) = false ->
      read_dirs_from_file [line] = [strip (drop 6 (strip line))]).
Proof.
  intros Hm. destruct (marker_line _ Hm) as [He Hc].
  assert (read_dirs_from_file [line]
          = map (fun part => strip (drop 6 part))
              (List.filter (startswith "gitit ") (split "; " (strip line)))) as E.
  { unfold read_dirs_from_file. cbn [foldl].
    rewrite He, Hc, Hm. cbn [negb andb]. by rewrite legacy_parts_fold. }
  split; [exact E|].
  intros Hn. rewrite E, (split_no_sep _ _ Hn). cbn [List.filter].
  by rewrite Hm.
Qed.

(** Semicolons with and without a space behind them, and a piece without
    the marker. *)
Example legacy_lines :
  read_dirs_from_file [ "gitit /srv/a; gitit /srv/b" : str ]
  = [ "/srv/a" : str; "/srv/b" : str ]
  /\ read_dirs_from_file [ "gitit /srv/a;gitit /srv/b" : str ]
     = [ "/srv/a;gitit /srv/b" : str ]
  /\ read_dirs_from_file [ "gitit /srv/a; /srv/b; gitit /srv/c" : str ]
     = [ "/srv/a" : str; "/srv/c" : str ]
  /\ read_dirs_from_file [ "# comment" : str; "" : str; "  /srv/plain  " : str ]
     = [ "/srv/plain" : str ].
Proof. repeat split; by vm_compute. Qed.

End ListFile.

(** C10 at work on a line whose segments are separated by a bare semicolon. *)
Lemma legacy_line_split_witness :
  GitMax.read_dirs_from_file [ "gitit /srv/a;gitit /srv/b" : str ]
  = [ "/srv/a;gitit /srv/b" : str ].
Proof.
  destruct (ListFile.legacy_line_split "gitit /srv/a;gitit /srv/b") as [_ H];
    [by vm_compute|].
  rewrite H; by vm_compute.
Defined.

(** ** [convert_oneliner] *)

Module Converter.
Import Py GitMax ConvertOneliner PyFacts SplitFacts.

(** *** The loop that removes duplicates *)

Lemma filter_filter {A} (f g : A -> bool) l :
  List.filter f (List.filter g l) = List.filter (fun x => f x && g x) l.
Proof.
  induction l as [|x l IH]; [done|]. cbn [List.filter].
  destruct (g x); cbn [List.filter]; rewrite ?andb_true_r, ?andb_false_r, IH; done.
Qed.

Lemma filter_split {A} (f : A -> bool) l u y v :
  List.filter f l = u ++ y :: v ->
  exists u' v', l = u' ++ y :: v' /\ List.filter f u' = u
                /\ List.filter f v' = v /\ f y = true.
Proof.
  revert u. induction l as [|x l IH]; intros u H; cbn [List.filter] in H.
  - by destruct u.
  - destruct (f x) eqn:E.
    + destruct u as [|z u]; cbn [app] in H.
      * injection H as -> <-. exists [], l. cbn [List.filter]. done.
      * injection H as <- H. destruct (IH _ H) as (u' & v' & -> & <- & <- & Hy).
        exists (x :: u'), v'. cbn [List.filter]. by rewrite E.
    + destruct (IH _ H) as (u' & v' & -> & <- & <- & Hy).
      exists (x :: u'), v'. cbn [List.filter]. by rewrite E.
Qed.

Lemma first_occurrences_elem paths p :
  p ∈ first_occurrences paths <-> p ∈ paths.
Proof.
  induction paths as [|x paths IH]; [done|]. cbn [first_occurrences].
  rewrite !elem_of_cons, <- IH. split; [|destruct (decide (p = x))].
  - intros [->|[H _]%list_elem_of_In%List.filter_In]; [by left|].
    right. by apply list_elem_of_In.
  - by left.
  - intros [->|H]; [done|]. right.
    apply list_elem_of_In, List.filter_In. split; [by apply list_elem_of_In|].
    by apply negb_true_iff, str_eqb_neq.
Qed.

Lemma NoDup_filter_bool {A} (f : A -> bool) l : NoDup l -> NoDup (List.filter f l).
Proof.
  induction 1 as [|x l Hx _ IH]; cbn [List.filter]; [constructor|].
  destruct (f x); [|done]. constructor; [|done].
  intros [H _]%list_elem_of_In%List.filter_In. by apply Hx, list_elem_of_In.
Qed.

Lemma first_occurrences_NoDup paths : NoDup (first_occurrences paths).
Proof.
  induction paths as [|x paths IH]; cbn [first_occurrences]; constructor.
  - intros [_ H]%list_elem_of_In%List.filter_In.
    by apply negb_true_iff, str_eqb_neq in H.
  - by apply NoDup_filter_bool.
Qed.

Lemma filter_bool_sublist {A} (f : A -> bool) l : List.filter f l `sublist_of` l.
Proof.
  induction l as [|x l IH]; [done|]. cbn [List.filter].
  destruct (f x); [by apply sublist_skip|by apply sublist_cons].
Qed.

Lemma first_occurrences_sublist paths : first_occurrences paths `sublist_of` paths.
Proof.
  induction paths as [|x paths IH]; [done|]. cbn [first_occurrences].
  apply sublist_skip. etrans; [apply filter_bool_sublist|done].
Qed.

(** Of two paths of the result, the earlier one occurs in the input
    before the other one occurs at all. *)
Lemma first_occurrences_order paths a p b q c :
  first_occurrences paths = a ++ p :: b ++ q :: c ->
  exists l1 l2, paths = l1 ++ p :: l2 /\ (p ∉ l1) /\ (q ∉ l1) /\ p <> q.
Proof.
  revert a p b q c. induction paths as [|x paths IH]; intros a p b q c H.
  - by destruct a.
  - cbn [first_occurrences] in H. destruct a as [|y a]; cbn [app] in H.
    + injection H as -> H. exists [], paths. split; [done|].
      split; [apply not_elem_of_nil|]. split; [apply not_elem_of_nil|].
      assert (q ∈ b ++ q :: c) as Hq by (apply elem_of_app; right; left).
      rewrite <- H in Hq.
      apply list_elem_of_In, List.filter_In in Hq as [_ Hq].
      apply negb_true_iff, str_eqb_neq in Hq. congruence.
    + injection H as -> H.
      apply filter_split in H as (u' & v' & E & _ & Hv & Hp).
      apply filter_split in Hv as (u'' & v'' & -> & _ & _ & Hq).
      destruct (IH _ _ _ _ _ E) as (l1 & l2 & -> & Hp1 & Hq1 & Hne).
      apply negb_true_iff, str_eqb_neq in Hp, Hq.
      exists (y :: l1), l2. split; [done|].
      rewrite !not_elem_of_cons. done.
Qed.

(** Reading one more path at the end adds it exactly when it has not
    occurred before. *)
Lemma first_occurrences_snoc paths p :
  first_occurrences (paths ++ [p])
  = if decide (p ∈ paths) then first_occurrences paths
    else first_occurrences paths ++ [p].
Proof.
  induction paths as [|x paths IH].
  - cbn. destruct (decide (p ∈ [])) as [H|_]; [by apply elem_of_nil in H|done].
  - cbn [app first_occurrences]. rewrite IH.
    destruct (decide (p ∈ paths)) as [Hin|Hin].
    + rewrite decide_True by by right. done.
    + rewrite List.filter_app. cbn [List.filter].
      destruct (decide (p = x)) as [->|Hne].
      * rewrite decide_True by by left.
        assert (str_eqb x x = true) as -> by by apply str_eqb_eq.
        cbn [negb]. by rewrite app_nil_r.
      * rewrite decide_False by (intros [?|?]%elem_of_cons; done).
        assert (str_eqb p x = false) as -> by by apply str_eqb_neq.
        done.
Qed.

Lemma unique_loop (seen : gset str) (unique_paths paths : list str) :
  snd (foldl (fun '(seen, unique_paths) p =>
                if decide (p ∈ (seen : gset str))
                then (seen, unique_paths)
                else ({[ p ]} ∪ seen, unique_paths ++ [p]))
             (seen, unique_paths) paths)
  = unique_paths
    ++ List.filter (fun p => bool_decide (p ∉ seen)) (first_occurrences paths).
Proof.
  revert seen unique_paths.
  induction paths as [|x paths IH]; intros seen acc; cbn [foldl].
  - by rewrite app_nil_r.
  - cbn [first_occurrences List.filter].
    destruct (decide (x ∈ seen)) as [Hin|Hin]; rewrite IH.
    + rewrite bool_decide_eq_false_2 by by intros H.
      f_equal. rewrite filter_filter. apply List.filter_ext.
      intros y. destruct (bool_decide (y ∉ seen)) eqn:E; [|done].
      apply bool_decide_eq_true in E. cbn [andb]. symmetry.
      apply negb_true_iff, str_eqb_neq. by intros ->.
    + rewrite bool_decide_eq_true_2 by done.
      rewrite <- app_assoc. cbn [app]. do 2 f_equal.
      rewrite filter_filter. apply List.filter_ext.
      intros y. destruct (decide (y = x)) as [->|Hne].
      * rewrite bool_decide_eq_false_2
          by (intros H; apply H, elem_of_union; left; by apply elem_of_singleton).
        assert (str_eqb x x = true) as -> by by apply str_eqb_eq.
        by rewrite andb_false_r.
      * assert (str_eqb y x = false) as -> by by apply str_eqb_neq.
        rewrite andb_true_r. apply bool_decide_ext.
        rewrite not_elem_of_union, not_elem_of_singleton. tauto.
Qed.

Lemma unique_first_occurrences paths : unique paths = first_occurrences paths.
Proof.
  unfold unique. rewrite unique_loop. cbn [app].
  apply filter_all, Forall_forall. intros y _.
  apply bool_decide_eq_true_2, not_elem_of_empty.
Qed.

(** *** The pattern on a one-liner *)

Lemma findall_from_skip n l1 l2 :
  length l1 = n -> findall_from n (l1 ++ l2) = findall_from 0 l2.
Proof.
  revert n. induction l1 as [|c l1 IH]; intros n Hn; cbn in Hn; subst n; [done|].
  cbn [app findall_from]. by apply IH.
Qed.

Lemma match_here_not_g c s : c <> "g"%char -> match_here (c :: s) = None.
Proof.
  intros Hc. unfold match_here.
  change (list_ascii_of_string "gitit") with ("g"%char :: list_ascii_of_string "itit").
  cbn [startswith].
  assert (char_eqb "g" c = false) as -> by by apply char_eqb_neq.
  done.
Qed.

(** Text without the letter g holds no match. *)
Lemma findall_from_junk junk s :
  "g"%char ∉ junk -> findall_from 0 (junk ++ s) = findall_from 0 s.
Proof.
  induction junk as [|c junk IH]; [done|].
  intros [Hc Hj]%not_elem_of_cons. cbn [app findall_from].
  rewrite match_here_not_g by done. by apply IH.
Qed.

Lemma take_while_until (f : ascii -> bool) p rest :
  Forall (fun c => f c = true) p ->
  (forall c, head rest = Some c -> f c = false) ->
  take_while f (p ++ rest) = p.
Proof.
  intros Hp Hr. induction Hp as [|c p Hc _ IH]; cbn [app take_while].
  - destruct rest as [|c rest]; [done|]. cbn [take_while].
    by rewrite (Hr c eq_refl).
  - by rewrite Hc, IH.
Qed.

(** The pattern at a marker that is followed by one space and a path. *)
Lemma match_here_marker p rest :
  p <> [] -> strip p = p -> ";"%char ∉ p ->
  (forall c, head rest = Some c -> c = ";"%char) ->
  match_here ("gitit " ++ p ++ rest) = Some (p, 6 + length p).
Proof.
  intros Hne Hs Hsemi Hrest.
  destruct p as [|c p'] eqn:Ep; [done|]. rewrite <- Ep in *.
  assert (isspace c = false) as Hc.
  { apply (strip_by_head isspace p c). unfold strip in Hs. by rewrite Hs, Ep. }
  unfold match_here.
  change (list_ascii_of_string "gitit " ++ p ++ rest)
    with (list_ascii_of_string "gitit" ++ " "%char :: p ++ rest).
  rewrite startswith_app.
  change (drop 5 (list_ascii_of_string "gitit" ++ " "%char :: p ++ rest))
    with (" "%char :: p ++ rest).
  assert (take_while isspace (" "%char :: p ++ rest) = [" "%char]) as ->.
  { cbn [take_while]. change (isspace " ") with true. cbn match.
    rewrite Ep. cbn [app take_while]. by rewrite Hc. }
  cbn [length skipn]. rewrite drop_0.
  rewrite take_while_until.
  - rewrite Ep. done.
  - apply Forall_forall. intros x Hx. unfold not_semicolon.
    apply negb_true_iff, char_eqb_neq. intros ->. done.
  - intros x Hx. rewrite (Hrest x Hx). done.
Qed.

Lemma findall_oneliner junk ps :
  "g"%char ∉ junk -> Forall well_formed ps ->
  findall (oneliner (";"%char :: junk) ps) = ps.
Proof.
  intros Hj Hps. unfold findall, oneliner.
  induction Hps as [|p ps (Hne & Hs & Hsemi) Hps IH]; [done|].
  cbn [map join].
  assert (forall rest, (forall c, head rest = Some c -> c = ";"%char) ->
            findall_from 0 ("gitit " ++ p ++ rest) = p :: findall_from 0 rest) as Hstep.
  { intros rest Hrest.
    change (list_ascii_of_string "gitit " ++ p ++ rest)
      with ("g"%char :: list_ascii_of_string "itit " ++ p ++ rest).
    cbn [findall_from].
    change ("g"%char :: list_ascii_of_string "itit " ++ p ++ rest)
      with (list_ascii_of_string "gitit " ++ p ++ rest).
    rewrite match_here_marker by done.
    f_equal. rewrite (app_assoc _ p rest). apply findall_from_skip.
    rewrite length_app. cbn. lia. }
  destruct ps as [|q ps].
  - cbn [map]. rewrite <- (app_nil_r p) at 1. rewrite Hstep; [done|done].
  - cbn [map] in *. rewrite <- app_assoc, Hstep by (by intros c [= <-]).
    f_equal. change ((";"%char :: junk) ++ ?x) with (";"%char :: junk ++ x).
    rewrite <- IH.
    change (";"%char :: junk ++ ?x) with ((";"%char :: junk) ++ x).
    apply findall_from_junk. apply not_elem_of_cons. done.
Qed.

Lemma stripped_well_formed ps : Forall well_formed ps -> stripped ps = ps.
Proof.
  intros H. unfold stripped.
  induction H as [|p ps (Hne & Hs & _) _ IH]; [done|].
  cbn [List.filter]. rewrite Hs.
  destruct p; [done|]. cbn [is_empty negb map]. rewrite Hs. by f_equal.
Qed.

Lemma extract_nonempty content p : p ∈ extract content -> p <> [].
Proof.
  unfold extract, stripped.
  intros (x & -> & [_ Hx]%list_elem_of_In%List.filter_In)%list_elem_of_fmap.
  by destruct (strip x).
Qed.

(** Where the groups of the pattern stand in the text. *)
Lemma take_while_split f s :
  s = take_while f s ++ drop (length (take_while f s)) s
  /\ Forall (fun c => f c = true) (take_while f s)
  /\ (forall c, head (drop (length (take_while f s)) s) = Some c -> f c = false).
Proof.
  induction s as [|c s (IH1 & IH2 & IH3)]; [done|].
  cbn [take_while]. destruct (f c) eqn:E.
  - cbn [length drop app]. split; [by rewrite <- IH1|].
    split; [by constructor|exact IH3].
  - cbn [length drop app]. split; [done|]. split; [constructor|].
    by intros ? [= <-].
Qed.

Lemma ends_at_semicolon (post : str) :
  (forall c, head post = Some c -> not_semicolon c = false) ->
  post = [] \/ exists post', post = ";"%char :: post'.
Proof.
  destruct post as [|c post]; [by left|]. intros H. right. exists post.
  specialize (H c eq_refl). unfold not_semicolon in H.
  apply negb_false_iff, char_eqb_eq in H. by subst.
Qed.

Lemma match_here_origin s group len :
  match_here s = Some (group, len) ->
  exists ws post,
    s = "gitit" ++ ws ++ group ++ post
    /\ ws <> [] /\ Forall (fun c => isspace c = true) ws
    /\ group <> [] /\ (";"%char ∉ group)
    /\ (post = [] \/ exists post', post = ";"%char :: post').
Proof.
  unfold match_here. destruct (startswith "gitit" s) eqn:Hstart; [|done].
  apply startswith_prefix in Hstart as [after ->].
  change (drop 5 ("gitit" ++ after)) with after. cbn zeta.
  destruct (take_while_split isspace after) as (Hafter & Hspaces & _).
  remember (take_while isspace after) as run eqn:Erun.
  remember (drop (length run) after) as rest eqn:Erest.
  destruct (take_while_split not_semicolon rest) as (Hrest & Hgroup & Hpost).
  remember (take_while not_semicolon rest) as found eqn:Efound.
  assert (Hsemi : forall g, Forall (fun c => not_semicolon c = true) g ->
                            ";"%char ∉ g).
  { intros g Hg Hin. rewrite Forall_forall in Hg. specialize (Hg _ Hin).
    by vm_compute in Hg. }
  destruct run as [|a [|b more]]; [done| |].
  - destruct found as [|x g]; [done|]. intros [= <- _].
    exists [a], (drop (length (x :: g)) rest).
    split; [by rewrite <- Hrest, <- Hafter|]. split; [done|].
    split; [done|]. split; [done|]. split; [by apply Hsemi|].
    by apply ends_at_semicolon.
  - assert (Hlast : a :: b :: more
                    = removelast (a :: b :: more)
                      ++ [List.last (a :: b :: more) " "%char])
      by by apply app_removelast_last.
    destruct found as [|x g].
    + intros [= <- _].
      change (match more with
              | [] => b
              | _ :: _ => List.last more " "%char
              end) with (List.last (a :: b :: more) " "%char).
      exists (removelast (a :: b :: more)), rest.
      split.
      { rewrite (app_assoc (removelast (a :: b :: more))), <- Hlast.
        by rewrite <- Hafter. }
      split; [by destruct more|].
      split.
      { eapply Forall_sublist; [|exact Hspaces].
        rewrite Hlast at 2. by apply sublist_inserts_r. }
      split; [done|]. split.
      { intros Hin%list_elem_of_singleton.
        assert (Hl : isspace (List.last (a :: b :: more) " "%char) = true).
        { rewrite Forall_forall in Hspaces. apply Hspaces.
          rewrite Hlast at 2. apply elem_of_app. right. by left. }
        rewrite <- Hin in Hl. by vm_compute in Hl. }
      cbn [drop length] in Hpost. by apply ends_at_semicolon.
    + intros [= <- _].
      exists (a :: b :: more), (drop (length (x :: g)) rest).
      split; [by rewrite <- Hrest, <- Hafter|]. split; [done|].
      split; [done|]. split; [done|]. split; [by apply Hsemi|].
      by apply ends_at_semicolon.
Qed.

Lemma findall_from_origin skip s group :
  group ∈ findall_from skip s ->
  exists pre ws post,
    s = pre ++ "gitit" ++ ws ++ group ++ post
    /\ ws <> [] /\ Forall (fun c => isspace c = true) ws
    /\ group <> [] /\ (";"%char ∉ group)
    /\ (post = [] \/ exists post', post = ";"%char :: post').
Proof.
  revert skip. induction s as [|c s IH]; intros skip; cbn [findall_from].
  { intros H. by apply elem_of_nil in H. }
  assert (Hlater : forall k, group ∈ findall_from k s ->
    exists pre ws post,
      c :: s = pre ++ "gitit" ++ ws ++ group ++ post
      /\ ws <> [] /\ Forall (fun c => isspace c = true) ws
      /\ group <> [] /\ (";"%char ∉ group)
      /\ (post = [] \/ exists post', post = ";"%char :: post')).
  { intros k (pre & ws & post & -> & H)%IH. by exists (c :: pre), ws, post. }
  destruct skip as [|k]; [|apply Hlater].
  destruct (match_here (c :: s)) as [[g len]|] eqn:E; [|apply Hlater].
  intros [->|Hin]%elem_of_cons; [|by eapply Hlater].
  apply match_here_origin in E as (ws & post & H). by exists [], ws, post.
Qed.

(** Every path of the output stands in the text behind a marker and
    white space and runs up to the next semicolon or the end. *)
Lemma convert_oneliner_origin content p :
  p ∈ convert_oneliner content ->
  exists pre ws group post,
    content = pre ++ "gitit" ++ ws ++ group ++ post
    /\ ws <> [] /\ Forall (fun c => isspace c = true) ws
    /\ (";"%char ∉ group) /\ p = strip group /\ p <> []
    /\ (post = [] \/ exists post', post = ";"%char :: post').
Proof.
  intros Hp. unfold convert_oneliner in Hp.
  rewrite unique_first_occurrences in Hp.
  apply (proj1 (first_occurrences_elem _ _)) in Hp.
  pose proof (extract_nonempty content p Hp) as Hne.
  unfold extract, stripped in Hp.
  apply list_elem_of_fmap in Hp as (g & -> & Hg).
  apply list_elem_of_In, filter_In in Hg as [Hg _].
  apply list_elem_of_In in Hg.
  apply findall_from_origin in Hg
    as (pre & ws & post & E & Hws & Hspace & _ & Hsemi & Hpost).
  by exists pre, ws, g, post.
Qed.

(** C8, as the code has it. For every input text the converter reads
    as paths the groups of the pattern [gitit\s+([^;]+)], each stripped,
    the empty ones left out, and puts out each distinct path exactly
    once, in the order of the first occurrences: the output has no
    duplicates, holds exactly the paths read, keeps their order, and of
    two paths of the output the earlier one occurs in the input before
    the other one occurs at all. Every path of the output is the stripped
    text that stands in the input behind [gitit] and white space and runs
    up to the next semicolon or to the end of the text; it holds no
    semicolon, but it may span lines and hold later markers. On a
    one-liner of well-formed paths, separated by a semicolon with or
    without white space behind it, the paths read are the paths behind
    the markers. *)
Theorem convert_oneliner_unique :
  (forall content : str,
     let paths := extract content in
     let out := convert_oneliner content in
     out = first_occurrences paths
     /\ NoDup out
     /\ (forall p, p ∈ out <-> p ∈ paths)
     /\ (forall p, p ∈ out -> p <> [])
     /\ out `sublist_of` paths
     /\ (forall a p b q c,
           out = a ++ p :: b ++ q :: c ->
           exists l1 l2,
             paths = l1 ++ p :: l2 /\ (p ∉ l1) /\ (q ∉ l1) /\ p <> q)
     /\ (forall p,
           p ∈ out ->
           exists pre ws group post,
             content = pre ++ "gitit" ++ ws ++ group ++ post
             /\ ws <> [] /\ Forall (fun c => isspace c = true) ws
             /\ (";"%char ∉ group) /\ p = strip group /\ p <> []
             /\ (post = [] \/ exists post', post = ";"%char :: post')))
  /\ (forall (junk : str) (ps : list str),
        "g"%char ∉ junk -> Forall well_formed ps ->
        extract (oneliner (";"%char :: junk) ps) = ps
        /\ convert_oneliner (oneliner (";"%char :: junk) ps)
           = first_occurrences ps)
  /\ convert_oneliner
       "gitit /srv/a; gitit /srv/b;gitit /srv/a;  gitit /srv/c ; gitit /srv/b"
     = [ "/srv/a" : str; "/srv/b" : str; "/srv/c" : str ].
Proof.
  split; [|split; [|by vm_compute]].
  - intros content paths out. subst paths out. unfold convert_oneliner.
    rewrite unique_first_occurrences.
    split; [done|]. split; [apply first_occurrences_NoDup|].
    split; [apply first_occurrences_elem|].
    split.
    { intros p Hp. apply (proj1 (first_occurrences_elem _ _)) in Hp.
      exact (extract_nonempty content p Hp). }
    split; [apply first_occurrences_sublist|].
    split; [apply first_occurrences_order|].
    intros p Hp. apply convert_oneliner_origin. unfold convert_oneliner.
    by rewrite unique_first_occurrences.
  - intros junk ps Hj Hps.
    assert (extract (oneliner (";"%char :: junk) ps) = ps) as E.
    { unfold extract. rewrite findall_oneliner by done.
      by apply stripped_well_formed. }
    split; [exact E|]. unfold convert_oneliner.
    by rewrite E, unique_first_occurrences.
Qed.

(** C8, as stated, fails where no semicolon separates two markers: the
    path behind the second marker is not put out as a path, it is part
    of the first path. *)
Lemma marker_inside_path :
  ("gitit /srv/a" ++ newline ++ "gitit /srv/b" : str)
  = ("gitit /srv/a" ++ newline) ++ "gitit " ++ "/srv/b"
  /\ convert_oneliner ("gitit /srv/a" ++ newline ++ "gitit /srv/b")
     <> ["/srv/a" : str; "/srv/b" : str]
  /\ ~ ("/srv/b" : str)
        ∈ convert_oneliner ("gitit /srv/a" ++ newline ++ "gitit /srv/b")
  /\ convert_oneliner ("gitit /srv/a" ++ newline ++ "gitit /srv/b")
     = ["/srv/a" ++ newline ++ "gitit /srv/b"].
Proof.
  assert (E : convert_oneliner ("gitit /srv/a" ++ newline ++ "gitit /srv/b")
              = ["/srv/a" ++ newline ++ "gitit /srv/b"]) by by vm_compute.
  split; [reflexivity|]. rewrite E. split; [discriminate|].
  split; [|reflexivity].
  intros H%list_elem_of_singleton. discriminate H.
Qed.

(** A path runs up to the next semicolon: markers that no semicolon
    separates give one path, and white space alone gives none. *)
Example paths_end_at_semicolons :
  convert_oneliner ("gitit /srv/a" ++ newline ++ "gitit /srv/b")
  = [ "/srv/a" ++ newline ++ "gitit /srv/b" ]
  /\ convert_oneliner "gitit  ;gitit /srv/a" = [ "/srv/a" : str ].
Proof. split; by vm_compute. Qed.

End Converter.

(** C8 at work on a one-liner that names a directory twice. *)
Lemma convert_oneliner_unique_witness :
  ConvertOneliner.convert_oneliner "gitit /srv/a; gitit /srv/b; gitit /srv/a"
  = [ "/srv/a" : str; "/srv/b" : str ].
Proof.
  destruct Converter.convert_oneliner_unique as (_ & H & _).
  destruct (H " " [ "/srv/a" : str; "/srv/b" : str; "/srv/a" : str ]) as [_ E].
  - apply (bool_decide_unpack _). by vm_compute.
  - repeat constructor; try done; try by vm_compute.
    all: apply (bool_decide_unpack _); by vm_compute.
  - etrans; [|etrans; [exact E|by vm_compute]]. by vm_compute.
Defined.

(** ** [Stats] and the worker pool *)

Module Pool.
Import Py GitMax.

Lemma worker_task_stats W d st dry_run use_lfs h r st' t :
  worker_task W d st dry_run use_lfs h = ((r, st'), t) ->
  st' = Stats.increment_completed st (Result.success r)
          (Z.of_nat (Result.lfs_files r))
  /\ (r, t) = process_directory W d dry_run use_lfs h.
Proof.
  unfold worker_task, bind, ret.
  destruct (process_directory W d dry_run use_lfs h) as [r0 t0].
  intros [= <- <- <-]. by rewrite app_nil_r.
Qed.

(** A job never hangs in the model: [worker_task] has a value in every
    world and after every history. *)
Lemma worker_task_total W d st dry_run use_lfs h :
  exists r st' t, worker_task W d st dry_run use_lfs h = ((r, st'), t).
Proof. destruct (worker_task W d st dry_run use_lfs h) as [[r st'] t]. eauto. Qed.

Lemma counted_start dirs : counted dirs (start dirs).
Proof. unfold counted, start. cbn. lia. Qed.

Lemma counted_step W dry_run use_lfs dirs s s' :
  counted dirs s -> pool_step W dry_run use_lfs s s' ->
  counted dirs s'
  /\ (Stats.completed (stats s') = Stats.completed (stats s) + 1)%Z
  /\ length (pending s) = S (length (pending s')).
Proof.
  intros Hc Hs. destruct Hs as [st before d after rs h r st' t Hw].
  apply worker_task_stats in Hw as [-> _].
  unfold counted in *. cbn in *.
  rewrite !length_app in *. cbn in *.
  destruct (Result.success r); cbn; lia.
Qed.

Lemma counted_reachable W dry_run use_lfs dirs s :
  rtc (pool_step W dry_run use_lfs) (start dirs) s -> counted dirs s.
Proof.
  intros H.
  eapply (rtc_ind_r (counted dirs)); [apply counted_start| |exact H].
  intros y z _ Hs Hy. by eapply counted_step.
Qed.

Lemma pool_runs W dry_run use_lfs s :
  exists s', nsteps (pool_step W dry_run use_lfs) (length (pending s)) s s'
             /\ pending s' = [].
Proof.
  destruct s as [st pend rs]. cbn [pending].
  revert st rs. induction pend as [|d pend IH]; intros st rs.
  - eexists. split; [constructor|done].
  - destruct (worker_task_total W d st dry_run use_lfs []) as (r & st' & t & Hw).
    destruct (IH st' (rs ++ [r])) as (s' & Hn & He).
    exists s'. split; [|done]. cbn [length].
    eapply nsteps_l; [|exact Hn].
    by apply (job_completes W dry_run use_lfs st [] d pend rs [] r st' t).
Qed.

Lemma completed_after W dry_run use_lfs dirs n s :
  nsteps (pool_step W dry_run use_lfs) n (start dirs) s ->
  Stats.completed (stats s) = Z.of_nat n.
Proof.
  revert s. induction n as [|n IH]; intros s H.
  - inversion H; subst. done.
  - apply nsteps_inv_r in H as (y & Hy & Hs).
    pose proof (rtc_nsteps_2 _ _ _ Hy) as Hr%counted_reachable.
    destruct (counted_step _ _ _ _ _ _ Hr Hs) as (_ & -> & _).
    rewrite (IH _ Hy). lia.
Qed.

(** C3. While the pool works through the jobs, after every increment the
    shared counters satisfy [completed = success + failed] and
    [completed <= total]. Every job that completes adds exactly one to
    [completed], whether it succeeded or failed (and exactly one to
    [success] or to [failed]), so after [n] completions [completed] is
    [n]; with no job left [completed = total], and the pool does get
    there: [len(dirs)] completions empty it. *)
Theorem stats_invariant (W : world) (dry_run use_lfs : bool) (dirs : list str) :
  (forall st succeeded lfs_count,
     let st' := Stats.increment_completed st succeeded lfs_count in
     Stats.completed st' = Stats.completed st + 1
     /\ Stats.success st' + Stats.failed st'
        = Stats.success st + Stats.failed st + 1
     /\ Stats.total st' = Stats.total st)%Z
  /\ (forall s,
        rtc (pool_step W dry_run use_lfs) (start dirs) s ->
        (Stats.completed (stats s)
         = Stats.success (stats s) + Stats.failed (stats s)
         /\ Stats.completed (stats s) <= Stats.total (stats s)
         /\ Stats.total (stats s) = Z.of_nat (length dirs)
         /\ Stats.completed (stats s)
            = Stats.total (stats s) - Z.of_nat (length (pending s))
         /\ (pending s = [] ->
             Stats.completed (stats s) = Stats.total (stats s)))%Z)
  /\ (forall s s',
        rtc (pool_step W dry_run use_lfs) (start dirs) s ->
        pool_step W dry_run use_lfs s s' ->
        (Stats.completed (stats s') = Stats.completed (stats s) + 1)%Z
        /\ length (pending s) = S (length (pending s')))
  /\ (forall n s,
        nsteps (pool_step W dry_run use_lfs) n (start dirs) s ->
        Stats.completed (stats s) = Z.of_nat n)
  /\ (exists s,
        nsteps (pool_step W dry_run use_lfs) (length dirs) (start dirs) s
        /\ pending s = []
        /\ Stats.completed (stats s) = Stats.total (stats s)).
Proof.
  split.
  { intros st succeeded lfs_count. cbn. destruct succeeded; lia. }
  split.
  { intros s Hs%counted_reachable. unfold counted in Hs. cbn zeta in Hs.
    repeat split; try lia. intros E. rewrite E in Hs. cbn in Hs. lia. }
  split.
  { intros s s' Hs%counted_reachable Hstep.
    by destruct (counted_step _ _ _ _ _ _ Hs Hstep) as (_ & ? & ?). }
  split; [intros n s; apply completed_after|].
  destruct (pool_runs W dry_run use_lfs (start dirs)) as (s & Hn & He).
  exists s. split; [exact Hn|]. split; [exact He|].
  pose proof (rtc_nsteps_2 _ _ _ Hn) as Hr%counted_reachable.
  unfold counted in Hr. cbn zeta in Hr. rewrite He in Hr. cbn in Hr. lia.
Qed.

(** Two jobs in a world where the directory is level with its remote:
    after the first completion one job is counted and one is pending. *)
Example pool_of_two :
  exists s,
    nsteps (pool_step Samples.synced false true) 1
           (start [ Samples.job; Samples.job ]) s
    /\ Stats.completed (stats s) = 1%Z /\ Stats.success (stats s) = 1%Z
    /\ Stats.failed (stats s) = 0%Z /\ length (pending s) = 1.
Proof.
  destruct (worker_task Samples.synced Samples.job
              (stats (start [ Samples.job; Samples.job ])) false true [])
    as [[r st'] t] eqn:E.
  eexists. split.
  - apply nsteps_once.
    apply (job_completes _ _ _ _ [] Samples.job [Samples.job] [] [] r st' t E).
  - vm_compute in E. injection E as <- <- <-. by vm_compute.
Qed.

(** A job that fails is counted all the same. *)
Example pool_of_failure :
  exists s,
    nsteps (pool_step Samples.unstageable false true) 1
           (start [ Samples.job ]) s
    /\ Stats.completed (stats s) = 1%Z /\ Stats.success (stats s) = 0%Z
    /\ Stats.failed (stats s) = 1%Z /\ pending s = [].
Proof.
  destruct (worker_task Samples.unstageable Samples.job
              (stats (start [ Samples.job ])) false true [])
    as [[r st'] t] eqn:E.
  eexists. split.
  - apply nsteps_once.
    apply (job_completes _ _ _ _ [] Samples.job [] [] [] r st' t E).
  - vm_compute in E. injection E as <- <- <-. by vm_compute.
Qed.

End Pool.

(** ** Running the workflow *)

Module Steps.
Import Py GitMax.

(** How [bind] runs the basic computations. *)
Lemma bind_ret {A B} (a : A) (k : A -> M B) h : bind (ret a) k h = k a h.
Proof.
  unfold bind, ret. rewrite app_nil_r. by destruct (k a h).
Qed.

Lemma bind_ask {A B} (q : list event -> A) (k : A -> M B) h :
  bind (ask q) k h = k (q h) h.
Proof.
  unfold bind, ask. rewrite app_nil_r. by destruct (k (q h) h).
Qed.

Lemma bind_emit {B} (e : event) (k : unit -> M B) h :
  bind (emit e) k h = (fst (k tt (h ++ [e])), e :: snd (k tt (h ++ [e]))).
Proof. unfold bind, emit. by destruct (k tt (h ++ [e])). Qed.

Lemma bind_run_in {B} W (cmd dir : str) (k : bool * str * str -> M B) h :
  bind (run_in W cmd dir) k h
  = let r := run_cmd_result true (subprocess_run W h cmd (Some dir) 300) in
    (fst (k r (h ++ [asked cmd dir])), asked cmd dir :: snd (k r (h ++ [asked cmd dir]))).
Proof.
  unfold bind, run_in, run_cmd, asked. cbn zeta.
  by destruct (k _ _).
Qed.

Lemma bind_assoc {A B C} (m : M A) (f : A -> M B) (g : B -> M C) h :
  bind (bind m f) g h = bind m (fun a => bind (f a) g) h.
Proof.
  unfold bind. destruct (m h) as [a t1]. destruct (f a (h ++ t1)) as [b t2].
  rewrite <- !app_assoc. destruct (g b (h ++ t1 ++ t2)) as [c t3].
  by rewrite app_assoc.
Qed.

Lemma bind_ext {A B} (m : M A) (f g : A -> M B) h :
  (forall a h', f a h' = g a h') -> bind m f h = bind m g h.
Proof. intros E. unfold bind. destruct (m h) as [a t]. by rewrite E. Qed.

(** A command has succeeded exactly when its process has completed with
    exit status zero. *)
Lemma run_cmd_result_ok o ok out err :
  run_cmd_result true o = (ok, out, err) ->
  (ok = true <-> o = Completed 0 out err).
Proof.
  destruct o as [rc so se| |d]; cbn; intros [= <- <- <-].
  - rewrite Z.eqb_eq. split; [by intros ->|by intros [= ->]].
  - split; done.
  - split; done.
Qed.

End Steps.

(** ** [is_already_synced] and the skip *)

Module SyncCheck.
Import Py GitMax Steps SplitFacts.

(** The check answers "synced" exactly on the four answers, and then it has
    run the three queries and nothing else. *)
Lemma is_already_synced_spec W d h :
  exists synced reason t,
    is_already_synced W d h = ((synced, reason), t)
    /\ t `prefix_of` queries d
    /\ (synced = true <->
        git_dir_present W d h /\ remote_configured W d h
        /\ tree_clean W d h /\ not_ahead W d h)
    /\ (synced = true -> reason = ("Already synced" : str) /\ t = queries d).
Proof.
  unfold is_already_synced, git_dir_present, remote_configured, tree_clean,
    not_ahead, queries, exists_.
  cbn zeta. rewrite bind_ask.
  destruct (path_exists W h (PathLib.joinpath d ".git")) eqn:E0; cbn [negb].
  2:{ eexists _, _, _. split; [reflexivity|]. split; [apply prefix_nil|].
      split; [|done]. split; [done|]. intros (? & _). done. }
  rewrite bind_run_in. cbn zeta.
  destruct (run_cmd_result true (subprocess_run W h remote_query (Some d) 300))
    as [[ok1 out1] err1] eqn:R1.
  pose proof (run_cmd_result_ok _ _ _ _ R1) as H1.
  destruct (negb ok1 || is_empty (strip out1)) eqn:C1.
  { unfold ret; cbn [fst snd]. eexists _, _, _. split; [reflexivity|].
    split; [by exists [asked status_query d; asked ahead_query d]|].
    split; [|done]. split; [done|].
    intros (_ & (o & e & Ho & Hne) & _). rewrite Ho in R1. cbn in R1.
    injection R1 as <- <- <-. cbn in C1. by destruct (strip o). }
  apply orb_false_iff in C1 as [Hok1%negb_false_iff Hne1].
  subst ok1. rewrite (proj1 H1 eq_refl) in *. clear H1.
  rewrite bind_run_in. cbn zeta.
  destruct (run_cmd_result true
              (subprocess_run W (h ++ [asked remote_query d]) status_query (Some d) 300))
    as [[ok2 out2] err2] eqn:R2.
  pose proof (run_cmd_result_ok _ _ _ _ R2) as H2.
  destruct (ok2 && is_empty (strip out2)) eqn:C2.
  2:{ unfold ret; cbn [fst snd]. eexists _, _, _. split; [reflexivity|].
      split; [by exists [asked ahead_query d]|].
      split; [|done]. split; [done|].
      intros (_ & _ & (o & e & Ho & He) & _). rewrite Ho in R2. cbn in R2.
      injection R2 as <- <- <-. cbn in C2. by rewrite He in C2. }
  apply andb_true_iff in C2 as [-> He2].
  rewrite (proj1 H2 eq_refl) in *. clear H2.
  rewrite bind_run_in. cbn zeta. rewrite <- !app_assoc. cbn [app].
  destruct (run_cmd_result true
              (subprocess_run W (h ++ [asked remote_query d; asked status_query d])
                 ahead_query (Some d) 300))
    as [[ok3 out3] err3] eqn:R3.
  pose proof (run_cmd_result_ok _ _ _ _ R3) as H3.
  destruct (ok3 && str_eqb (strip out3) "0") eqn:C3.
  2:{ unfold ret; cbn [fst snd]. eexists _, _, _. split; [reflexivity|]. split; [done|].
      split; [|done]. split; [done|].
      intros (_ & _ & _ & (o & e & Ho & He)). rewrite Ho in R3. cbn in R3.
      injection R3 as <- <- <-. cbn in C3. rewrite He in C3. by vm_compute in C3. }
  apply andb_true_iff in C3 as [-> He3%str_eqb_eq].
  rewrite (proj1 H3 eq_refl) in *. clear H3.
  unfold ret; cbn [fst snd]. eexists _, _, _. split; [reflexivity|]. split; [done|].
  split; [|done]. split; [|done]. intros _.
  split; [done|]. split.
  { exists out1, err1. split; [done|]. by destruct (strip out1). }
  split.
  { exists out2, err2. split; [done|]. by destruct (strip out2). }
  exists out3, err3. done.
Qed.

(** C5. For every job directory that exists and for which the metadata
    directory exists, the query for the origin remote succeeds with a
    non-blank answer, the status query succeeds with a blank answer (clean
    tree) and the count of commits ahead of [origin/main] succeeds with
    "0", the workflow marks the job successful with the message
    "SKIPPED - Already synced" and stops: the three read-only queries are
    all it has run. Whenever one of the answers is missing (a query fails
    or says otherwise), the check says "not synced" and the workflow goes
    on with the rest of its steps right after the queries it has run. *)
Theorem already_synced_skips (W : world) (dir : str) (dry_run use_lfs : bool)
        (h : list event) :
  let d := path_resolve W h dir in
  let all_four :=
    git_dir_present W d h /\ remote_configured W d h
    /\ tree_clean W d h /\ not_ahead W d h in
  path_exists W h d = true ->
  (fst (fst (is_already_synced W d h)) = true <-> all_four)
  /\ (all_four ->
      process_directory W dir dry_run use_lfs h = (skipped dir d, queries d)
      /\ Result.success (skipped dir d) = true
      /\ Result.message (skipped dir d) = ("SKIPPED - Already synced" : str)
      /\ contains "already synced" (lower (Result.message (skipped dir d))) = true
      /\ Forall (fun e => exists query, e = Run query (Some d) 300
                          /\ query ∈ [remote_query; status_query; ahead_query])
                (queries d))
  /\ (~ all_four ->
      exists reason t,
        is_already_synced W d h = ((false, reason), t)
        /\ t `prefix_of` queries d
        /\ process_directory W dir dry_run use_lfs h
           = (fst (publish W d (path_to_repo_name d)
                     (Result.make dir false "" "" 0 0) dry_run use_lfs (h ++ t)),
              t ++ snd (publish W d (path_to_repo_name d)
                          (Result.make dir false "" "" 0 0) dry_run use_lfs
                          (h ++ t)))).
Proof.
  intros d all_four Hex.
  destruct (is_already_synced_spec W d h)
    as (synced & reason & t & E & Hpre & Hiff & Hyes).
  assert (process_directory W dir dry_run use_lfs h
          = if synced
            then (Result.set_repo_url (repo_url_of (path_to_repo_name d))
                    (Result.set_message ("SKIPPED - " ++ reason)
                       (Result.set_success true
                          (Result.make dir false "" "" 0 0))), t)
            else (fst (publish W d (path_to_repo_name d)
                         (Result.make dir false "" "" 0 0) dry_run use_lfs (h ++ t)),
                  t ++ snd (publish W d (path_to_repo_name d)
                              (Result.make dir false "" "" 0 0) dry_run use_lfs
                              (h ++ t)))) as Hrun.
  { unfold process_directory, resolve, exists_. cbn zeta.
    rewrite bind_ask. fold d. rewrite bind_ask, Hex. cbn [negb].
    unfold bind at 1. rewrite E. destruct synced.
    - unfold ret. cbv beta iota. by rewrite app_nil_r.
    - by destruct (publish W d _ _ dry_run use_lfs (h ++ t)). }
  split; [by rewrite E|].
  split.
  - intros H4. apply Hiff in H4. subst synced.
    destruct (Hyes eq_refl) as [-> ->].
    split; [exact Hrun|]. split; [done|]. split; [done|].
    split; [by vm_compute|].
    unfold queries, asked. repeat constructor; eexists; (split; [reflexivity|]).
    + by left.
    + right. by left.
    + do 2 right. by left.
  - intros Hn. destruct synced; [by destruct Hn; apply Hiff|].
    exists reason, t. done.
Qed.

End SyncCheck.

(** C5 at work: a clean clone that is level with its remote is skipped
    after the three queries. *)
Lemma already_synced_skips_witness :
  GitMax.process_directory Samples.synced Samples.job false true []
  = (GitMax.skipped Samples.job Samples.job, GitMax.queries Samples.job).
Proof.
  destruct (SyncCheck.already_synced_skips Samples.synced Samples.job false true [])
    as (_ & H & _); [by vm_compute|].
  apply H. split; [|split; [|split]].
  - by vm_compute.
  - eexists _, _. split; [by vm_compute|by vm_compute].
  - eexists _, _. split; [by vm_compute|by vm_compute].
  - eexists _, _. split; [by vm_compute|by vm_compute].
Defined.

(** A directory without a remote is not skipped, whatever else holds. *)
Example not_synced_goes_on :
  fst (GitMax.is_already_synced Samples.silent Samples.job [])
  = (false, "No remote" : str)
  /\ GitMax.pushes (snd (GitMax.process_directory (Samples.fresh (Samples.ok_with ""))
                    Samples.job false true [])) = 1.
Proof. split; by vm_compute. Qed.

(** ** The staging step *)

Module Staging.
Import Py GitMax Steps SplitFacts.

Lemma bind_inv {A B} (m : M A) (k : A -> M B) h b t :
  bind m k h = (b, t) ->
  exists a t1 t2, m h = (a, t1) /\ k a (h ++ t1) = (b, t2) /\ t = t1 ++ t2.
Proof.
  unfold bind. destruct (m h) as [a t1]. destruct (k a (h ++ t1)) as [b' t2] eqn:E.
  intros [= <- <-]. by exists a, t1, t2.
Qed.

(** The staging step, run: one or two rounds, and what it returns. *)
Lemma stage_run W d result h :
  let n := Result.total_files result in
  let first := staged_at W d (h ++ [asked "git add -A" d]) in
  let second :=
    staged_at W d (h ++ [asked "git add -A" d; asked diff_cached_cmd d;
                         asked "git add ." d; asked "git add --all" d]) in
  stage W d result h =
  if (0 <? n) && (length first =? 0) then
    (if (0 <? n) && (length second =? 0)
     then inl (Result.set_message (staging_failed_message n) result)
     else inr second,
     [asked "git add -A" d; asked diff_cached_cmd d;
      asked "git add ." d; asked "git add --all" d; asked diff_cached_cmd d])
  else (inr first, [asked "git add -A" d; asked diff_cached_cmd d]).
Proof.
  intros n first second. subst n first second. unfold stage, staged_at.
  cbn zeta. rewrite bind_run_in. cbn zeta. rewrite bind_run_in. cbn zeta.
  destruct (run_cmd_result true
              (subprocess_run W (h ++ [asked "git add -A" d]) diff_cached_cmd
                 (Some d) 300)) as [[ok1 out1] err1].
  destruct ((0 <? Result.total_files result) && (length (staged_list ok1 out1) =? 0)).
  2:{ unfold ret. done. }
  rewrite bind_run_in. cbn zeta. rewrite bind_run_in. cbn zeta.
  rewrite bind_run_in. cbn zeta. rewrite <- !app_assoc. cbn [app].
  destruct (run_cmd_result true
              (subprocess_run W
                 (h ++ [asked "git add -A" d; asked diff_cached_cmd d;
                        asked "git add ." d; asked "git add --all" d])
                 diff_cached_cmd (Some d) 300)) as [[ok2 out2] err2].
  destruct ((0 <? Result.total_files result) && (length (staged_list ok2 out2) =? 0));
    unfold ret; done.
Qed.

Ltac unbind H :=
  let a := fresh "a" in
  let t1 := fresh "t" in
  let t2 := fresh "t" in
  let E := fresh "E" in
  apply bind_inv in H as (a & t1 & t2 & E & H & ->); cbv beta in H.

Lemma ret_inv {A} (a b : A) h t : ret a h = (b, t) -> a = b /\ t = [].
Proof. unfold ret. by intros [= <- <-]. Qed.

Lemma ask_inv {A} (q : list event -> A) b h t : ask q h = (b, t) -> b = q h /\ t = [].
Proof. unfold ask. by intros [= <- <-]. Qed.

(** What [prepare] hands on: the file count is taken from the tree as it
    is when the step starts, and the job has not been marked successful. *)
Lemma prepare_run W d r0 use_lfs h x t :
  prepare W d r0 use_lfs h = (x, t) ->
  match x with
  | inl failed =>
      Result.success failed = Result.success r0
      /\ exists err, Result.message failed = "git init failed: " ++ err
  | inr (result, _) =>
      Result.success result = Result.success r0
      /\ Result.path result = Result.path r0
      /\ Result.total_files result
         = length (List.filter (fun e => is_file e && negb (in_git d e))
                     (path_rglob W h d))
  end.
Proof.
  unfold prepare. cbn zeta. intros H.
  unbind H. unfold rglob in E. apply ask_inv in E as [-> ->].
  rewrite app_nil_r in H.
  do 5 unbind H.
  destruct a3 as [[ok out] err]. destruct ok; cbn [negb] in H.
  - do 6 unbind H. apply ret_inv in H as [<- _]. done.
  - apply ret_inv in H as [<- _]. cbn. eauto.
Qed.

(** A job that ends before the staging step has not failed at it; a job
    that reaches it is unmarked and carries the file count. *)
Lemma until_stage_run W dir dry_run use_lfs h x t :
  until_stage W dir dry_run use_lfs h = (x, t) ->
  match x with
  | inl ended => staging_failed ended = false
  | inr (d, repo, result, _) =>
      d = path_resolve W h dir /\ repo = path_to_repo_name d
      /\ Result.success result = false /\ Result.path result = dir
  end.
Proof.
  unfold until_stage. cbn zeta. intros H.
  unbind H. unfold resolve in E. apply ask_inv in E as [-> ->].
  rewrite app_nil_r in H.
  unbind H. destruct (negb a).
  { apply ret_inv in H as [<- _]. by vm_compute. }
  unbind H. destruct a0 as [synced reason]. destruct synced.
  { apply ret_inv in H as [<- _]. done. }
  destruct dry_run.
  { unbind H. apply ret_inv in H as [<- _]. done. }
  unbind H. apply prepare_run in E1.
  destruct a0 as [failed|[result err]]; apply ret_inv in H as [<- _].
  - destruct E1 as (_ & err & Hm). unfold staging_failed. rewrite Hm.
    apply andb_false_iff. right. done.
  - cbn in E1. tauto.
Qed.

(** The push never produces the staging message. *)
Lemma push_and_verify_not_staging W d repo result err h :
  staging_failed (fst (push_and_verify W d repo result err h)) = false.
Proof.
  unfold push_and_verify. cbn zeta. unfold bind at 1.
  destruct (push_attempts W d (seq 0 5) err h) as [[push_ok err'] t].
  destruct push_ok; cbn [negb].
  - rewrite bind_run_in. cbn zeta.
    destruct (run_cmd_result true _) as [[ok out] e]. cbn [fst].
    destruct ok; [destruct (_ && _)|]; unfold ret; cbn [fst]; done.
  - unfold ret. cbn [fst]. unfold staging_failed. apply andb_false_iff. by right.
Qed.

(** [process_directory] is the workflow up to the staging step followed by
    the staging step and what comes after it. *)
Lemma process_directory_from_stage W dir dry_run use_lfs h :
  process_directory W dir dry_run use_lfs h
  = bind (until_stage W dir dry_run use_lfs)
      (fun reached =>
         match reached with
         | inl ended => ret ended
         | inr (d, repo, result, err) =>
             bind (stage W d result)
               (fun staged =>
                  match staged with
                  | inl failed => ret failed
                  | inr staged_files =>
                      bind (commit_and_wire W d repo staged_files)
                        (fun _ => push_and_verify W d repo result err)
                  end)
         end) h.
Proof.
  unfold process_directory, until_stage. cbn zeta.
  rewrite bind_assoc. apply bind_ext. intros d h1.
  rewrite bind_assoc. apply bind_ext. intros ex h2.
  destruct (negb ex); [by rewrite bind_ret|].
  rewrite bind_assoc. apply bind_ext. intros [synced reason] h3.
  destruct synced; [by rewrite bind_ret|].
  unfold publish. destruct dry_run.
  { rewrite bind_assoc. apply bind_ext. intros lf h4. by rewrite bind_ret. }
  rewrite bind_assoc. apply bind_ext. intros [failed|[result err]] h4;
    by rewrite bind_ret.
Qed.

Lemma length_zero {A} (l : list A) : (length l =? 0) = true <-> l = [].
Proof. destruct l; cbn; split; done. Qed.

(** C4. The staging step fails the job, with the message
    "STAGING FAILED - n files exist but 0 staged!", if and only if the
    counted number of regular files is not zero and no path is staged,
    neither after [git add -A] nor after the two other invocations
    [git add .] and [git add --all]. This holds of the step wherever it
    starts, and of the whole job: the job ends with that message exactly
    when the workflow reaches the staging step with such a count and such
    answers. The count is the number of regular files outside [.git]; with
    a count of zero the step passes after its first round, and no job with
    zero counted files ends with the message. *)
Theorem staging_failure (W : world) (dir : str) (dry_run use_lfs : bool)
        (h : list event) :
  let round1 d := [asked "git add -A" d] in
  let round2 d :=
    [asked "git add -A" d; asked diff_cached_cmd d;
     asked "git add ." d; asked "git add --all" d] in
  (forall (d : str) (result : Result.t) (h' : list event),
     let n := Result.total_files result in
     ((exists failed t, stage W d result h' = (inl failed, t))
      <-> 0 < n /\ staged_at W d (h' ++ round1 d) = []
          /\ staged_at W d (h' ++ round2 d) = [])
     /\ (forall failed t,
           stage W d result h' = (inl failed, t) ->
           failed = Result.set_message (staging_failed_message n) result
           /\ t = round2 d ++ [asked diff_cached_cmd d])
     /\ (n = 0 ->
         stage W d result h'
         = (inr (staged_at W d (h' ++ round1 d)),
            round1 d ++ [asked diff_cached_cmd d])))
  /\ (staging_failed (fst (process_directory W dir dry_run use_lfs h)) = true
      <-> exists d repo result err t0,
            until_stage W dir dry_run use_lfs h = (inr (d, repo, result, err), t0)
            /\ 0 < Result.total_files result
            /\ staged_at W d ((h ++ t0) ++ round1 d) = []
            /\ staged_at W d ((h ++ t0) ++ round2 d) = [])
  /\ (forall d r0 h' result err t,
        prepare W d r0 use_lfs h' = (inr (result, err), t) ->
        Result.total_files result
        = length (List.filter (fun e => is_file e && negb (in_git d e))
                    (path_rglob W h' d)))
  /\ (staging_failed (fst (process_directory W dir dry_run use_lfs h)) = true ->
      0 < Result.total_files (fst (process_directory W dir dry_run use_lfs h))).
Proof.
  intros round1 round2.
  assert (forall (d : str) (result : Result.t) (h' : list event),
     let n := Result.total_files result in
     ((exists failed t, stage W d result h' = (inl failed, t))
      <-> 0 < n /\ staged_at W d (h' ++ round1 d) = []
          /\ staged_at W d (h' ++ round2 d) = [])
     /\ (forall failed t,
           stage W d result h' = (inl failed, t) ->
           failed = Result.set_message (staging_failed_message n) result
           /\ t = round2 d ++ [asked diff_cached_cmd d])
     /\ (n = 0 ->
         stage W d result h'
         = (inr (staged_at W d (h' ++ round1 d)),
            round1 d ++ [asked diff_cached_cmd d]))) as Step.
  { intros d result h' n. subst n round1 round2. cbv beta.
    rewrite (stage_run W d result h'). cbn zeta.
    destruct (0 <? Result.total_files result) eqn:En; cbn [andb].
    - apply Nat.ltb_lt in En.
      destruct (length (staged_at W d (h' ++ [asked "git add -A" d])) =? 0) eqn:E1.
      + apply length_zero in E1.
        destruct (length (staged_at W d (h' ++ _)) =? 0) eqn:E2.
        * apply length_zero in E2. split; [|split].
          -- split; [done|]. intros _. eauto.
          -- by intros failed t [= <- <-].
          -- lia.
        * split; [|split].
          -- split; [by intros (? & ? & [=])|].
             intros (_ & _ & E). rewrite E in E2. done.
          -- by intros failed t [=].
          -- lia.
      + split; [|split].
        * split; [by intros (? & ? & [=])|].
          intros (_ & E & _). rewrite E in E1. done.
        * by intros failed t [=].
        * lia.
    - apply Nat.ltb_ge in En. split; [|split].
      + split; [by intros (? & ? & [=])|]. intros (? & _). lia.
      + by intros failed t [=].
      + done. }
  assert (staging_failed (fst (process_directory W dir dry_run use_lfs h)) = true
      <-> exists d repo result err t0,
            until_stage W dir dry_run use_lfs h = (inr (d, repo, result, err), t0)
            /\ 0 < Result.total_files result
            /\ staged_at W d ((h ++ t0) ++ round1 d) = []
            /\ staged_at W d ((h ++ t0) ++ round2 d) = []) as Job.
  { rewrite process_directory_from_stage. unfold bind at 1.
    destruct (until_stage W dir dry_run use_lfs h) as [reached t0] eqn:E.
    pose proof (until_stage_run _ _ _ _ _ _ _ E) as Hu.
    destruct reached as [ended|[[[d repo] result] err]].
    { unfold ret. cbn [fst]. rewrite Hu. split; [done|].
      by intros (? & ? & ? & ? & ? & [=] & _). }
    destruct Hu as (_ & _ & Hs & _).
    destruct (Step d result (h ++ t0)) as (Hiff & Hmsg & _).
    unfold bind at 1.
    destruct (stage W d result (h ++ t0)) as [staged t1] eqn:Es.
    destruct staged as [failed|staged_files].
    - destruct (Hmsg _ _ eq_refl) as [-> ->].
      unfold ret. cbn [fst]. split.
      + intros _. exists d, repo, result, err, t0. split; [done|].
        apply Hiff. eauto.
      + intros _. unfold staging_failed. cbn. rewrite Hs. by vm_compute.
    - split.
      + unfold bind.
        destruct (commit_and_wire W d repo staged_files ((h ++ t0) ++ t1))
          as [u t2].
        pose proof (push_and_verify_not_staging W d repo result err
                      (((h ++ t0) ++ t1) ++ t2)) as Hp.
        destruct (push_and_verify W d repo result err _) as [r t3].
        cbn [fst] in *. congruence.
      + intros (d' & repo' & result' & err' & t0' & [= <- <- <- <- <-] & H3).
        apply Hiff in H3 as (? & ? & [=]). }
  split; [exact Step|]. split; [exact Job|]. split.
  { intros d r0 h' result err t Hp. by apply prepare_run in Hp as (_ & _ & ?). }
  intros Hf. pose proof Hf as Hf'.
  apply Job in Hf' as (d & repo & result & err & t0 & E & Hn & H1 & H2).
  rewrite process_directory_from_stage. unfold bind at 1. rewrite E.
  destruct (Step d result (h ++ t0)) as (Hiff & Hmsg & _).
  destruct (proj2 Hiff (conj Hn (conj H1 H2))) as (failed & t & Es).
  destruct (Hmsg _ _ Es) as [-> ->].
  unfold bind. rewrite Es. unfold ret. cbn. exact Hn.
Qed.

End Staging.

(** C4 at work: in a world whose index stays empty the job of two files
    fails at the staging step. *)
Lemma staging_failure_witness :
  GitMax.staging_failed
    (fst (GitMax.process_directory Samples.unstageable Samples.job false true []))
  = true
  /\ GitMax.Result.message
       (fst (GitMax.process_directory Samples.unstageable Samples.job false true []))
     = ("STAGING FAILED - 2 files exist but 0 staged!" : str).
Proof.
  destruct (Staging.staging_failure Samples.unstageable Samples.job false true [])
    as (_ & Job & _ & _).
  split; [|by vm_compute].
  apply Job.
  destruct (GitMax.until_stage Samples.unstageable Samples.job false true [])
    as [[ended|[[[d repo] result] err]] t0] eqn:E; vm_compute in E; [done|].
  injection E as <- <- <- <- <-.
  eexists _, _, _, _, _. split; [reflexivity|].
  split; [cbn; lia|]. split; by vm_compute.
Defined.

(** Where the index lists the files the job passes the step, and an empty
    directory passes it with nothing staged. *)
Example staging_passes :
  GitMax.staging_failed
    (fst (GitMax.process_directory (Samples.fresh (Samples.ok_with ""))
            Samples.job false true [])) = false
  /\ GitMax.staging_failed
       (fst (GitMax.process_directory
               (Samples.world_of (fun _ => Samples.ok_with "") [])
               Samples.job false true [])) = false.
Proof. split; by vm_compute. Qed.

(** ** The push with retries *)

Module PushRetry.
Import Py GitMax Steps SplitFacts Staging.

(** What [react] does, by the class of the error. *)
Lemma react_run W d attempt err h :
  react W d attempt err h
  = (tt,
     if mentions_large_file err then [lfs_push_event d; Sleep 2]
     else if mentions_rate_limit err then [Sleep (10 * (attempt + 1))]
     else if mentions_network err then [Sleep (5 * 2 ^ attempt)]
     else if mentions_non_fast_forward err then [Sleep 1]
     else [Sleep (2 * (attempt + 1))]).
Proof.
  unfold react, mentions_large_file, mentions_rate_limit, mentions_network,
    mentions_non_fast_forward. cbn zeta.
  destruct (contains "large file" (lower err) || contains "100 mb" (lower err)
            || contains "exceeds" (lower err)); [done|].
  destruct (contains "rate limit" (lower err) || contains "403" err); [done|].
  destruct (contains "timeout" (lower err) || contains "connection" (lower err));
    [done|].
  destruct (contains "non-fast-forward" (lower err)); done.
Qed.

Lemma react_trace W d attempt err h :
  exists t, react W d attempt err h = (tt, t)
            /\ t <> [] /\ (push_event d ∉ t) /\ pushes t = 0.
Proof.
  rewrite react_run. eexists. split; [reflexivity|].
  destruct (mentions_large_file err); [|destruct (mentions_rate_limit err);
    [|destruct (mentions_network err); [|destruct (mentions_non_fast_forward err)]]].
  all: split; [done|]; split; [|by vm_compute].
  all: unfold push_event, lfs_push_event;
    intros H; repeat (apply elem_of_cons in H as [H|H]; [done|]);
    by apply elem_of_nil in H.
Qed.

Lemma app_cons_split {A} (x : A) l1 l2 a b :
  x ∉ l1 -> l1 ++ l2 = a ++ x :: b ->
  exists a', a = l1 ++ a' /\ l2 = a' ++ x :: b.
Proof.
  revert a. induction l1 as [|y l1 IH]; intros a Hx E.
  - by exists a.
  - apply not_elem_of_cons in Hx as [Hne Hx].
    destruct a as [|z a]; cbn in E; injection E as -> E; [done|].
    destruct (IH a Hx E) as (a' & -> & ->). by exists a'.
Qed.

Lemma pushes_app t1 t2 : pushes (t1 ++ t2) = pushes t1 + pushes t2.
Proof. unfold pushes. by rewrite List.filter_app, length_app. Qed.

Lemma pushes_push_event d t : pushes (push_event d :: t) = S (pushes t).
Proof.
  unfold pushes, push_event. cbn [List.filter is_push].
  assert (str_eqb push_cmd push_cmd = true) as -> by by apply str_eqb_eq.
  done.
Qed.

(** The loop, run over a list of attempts from an error text and a
    history. *)
Lemma push_attempts_run W d attempts err0 h :
  exists push_ok err t,
    push_attempts W d attempts err0 h = ((push_ok, err), t)
    /\ pushes t <= length attempts
    /\ (forall t1 t2,
          t = t1 ++ push_event d :: t2 ->
          (fst (fst (pushed W d (h ++ t1))) = true <-> t2 = []))
    /\ (push_ok = true ->
        exists t1, t = t1 ++ [push_event d]
                   /\ fst (fst (pushed W d (h ++ t1))) = true
                   /\ snd (pushed W d (h ++ t1)) = err)
    /\ (push_ok = false ->
        pushes t = length attempts
        /\ (forall t1 t2,
              t = t1 ++ push_event d :: t2 ->
              fst (fst (pushed W d (h ++ t1))) = false)
        /\ (attempts = [] -> err = err0)
        /\ (attempts <> [] ->
            exists t1 t2, t = t1 ++ push_event d :: t2 /\ pushes t2 = 0
                          /\ snd (pushed W d (h ++ t1)) = err)).
Proof.
  revert err0 h. induction attempts as [|attempt rest IH]; intros err0 h.
  { exists false, err0, []. split; [done|]. split; [done|].
    split; [by intros [|??] ? [=]|]. split; [done|]. intros _.
    split; [done|]. split; [by intros [|??] ? [=]|]. done. }
  cbn [push_attempts]. unfold bind at 1, run_cmd. fold (pushed W d h).
  fold (push_event d).
  destruct (pushed W d h) as [[ok out] err] eqn:Ep. destruct ok.
  { (* the push succeeds: the loop stops *)
    exists true, err, [push_event d]. unfold ret. split; [done|].
    split; [rewrite pushes_push_event; cbn; lia|].
    split.
    { intros t1 t2 E. destruct t1 as [|e t1]; cbn in E.
      - injection E as <-. rewrite app_nil_r, Ep. done.
      - injection E as _ E. by destruct t1. }
    split; [|done]. intros _. exists []. by rewrite app_nil_r, Ep. }
  (* the push fails: react, then go on *)
  destruct (react_trace W d attempt err (h ++ [push_event d]))
    as (tr & Er & Hne & Hnp & Hp0).
  destruct (IH err ((h ++ [push_event d]) ++ tr))
    as (push_ok & err' & t' & Et & Hle & Hlast & Hyes & Hno).
  unfold bind. rewrite Er, Et.
  exists push_ok, err', (push_event d :: tr ++ t'). split; [done|].
  assert (forall t1 t2,
            push_event d :: tr ++ t' = t1 ++ push_event d :: t2 ->
            (t1 = [] /\ t2 = tr ++ t')
            \/ exists u, t1 = push_event d :: tr ++ u /\ t' = u ++ push_event d :: t2)
    as Hsplit.
  { intros t1 t2 E. destruct t1 as [|e t1]; cbn in E.
    - injection E as E. left. done.
    - injection E as <- E. right.
      apply app_cons_split in E as (u & -> & ->); [|done].
      by exists u. }
  assert (forall u, h ++ push_event d :: tr ++ u = ((h ++ [push_event d]) ++ tr) ++ u)
    as Hh.
  { intros u. by rewrite <- !app_assoc. }
  split.
  { rewrite pushes_push_event, pushes_app, Hp0. cbn. lia. }
  split.
  { intros t1 t2 [[-> ->]|(u & -> & ->)]%Hsplit.
    - rewrite app_nil_r, Ep. cbn. split; [done|].
      intros [? _]%app_eq_nil. done.
    - rewrite Hh. by apply Hlast. }
  split.
  { intros Hok. destruct (Hyes Hok) as (t1 & -> & H1 & H2).
    exists (push_event d :: tr ++ t1).
    rewrite Hh. split; [|done]. cbn. by rewrite <- app_assoc. }
  intros Hfail. destruct (Hno Hfail) as (Hn & Hall & Hnil & Hcons).
  split.
  { rewrite pushes_push_event, pushes_app, Hp0, Hn. done. }
  split.
  { intros t1 t2 [[-> ->]|(u & -> & ->)]%Hsplit.
    - by rewrite app_nil_r, Ep.
    - rewrite Hh. by eapply Hall. }
  split; [done|]. intros _.
  destruct rest as [|a rest].
  - exists [], (tr ++ t'). split; [done|].
    rewrite pushes_app, Hp0, Hn. split; [done|].
    rewrite app_nil_r, Ep. cbn. symmetry. by apply Hnil.
  - destruct Hcons as (t1 & t2 & -> & H0 & He); [done|].
    exists (push_event d :: tr ++ t1), t2.
    rewrite Hh. split; [|done]. cbn. by rewrite <- app_assoc.
Qed.

(** [process_directory] is the workflow up to the push followed by the
    push and its verification. *)
Lemma process_directory_from_push W dir dry_run use_lfs h :
  process_directory W dir dry_run use_lfs h
  = bind (until_push W dir dry_run use_lfs)
      (fun reached =>
         match reached with
         | inl ended => ret ended
         | inr (d, repo, result, err) => push_and_verify W d repo result err
         end) h.
Proof.
  rewrite process_directory_from_stage. unfold until_push.
  rewrite bind_assoc. apply bind_ext.
  intros [ended|[[[d repo] result] err]] h1; [by rewrite bind_ret|].
  rewrite bind_assoc. apply bind_ext.
  intros [failed|staged_files] h2; [by rewrite bind_ret|].
  rewrite bind_assoc. apply bind_ext. intros [] h3. by rewrite bind_ret.
Qed.





End PushRetry.


(** The same job, end to end: 5 pushes, 150 seconds slept. *)
Example push_retry_trace :
  let run := GitMax.process_directory
               (Samples.fresh (Samples.failed_with "remote: rate limit"))
               Samples.job false true [] in
  GitMax.Result.success (fst run) = false
  /\ GitMax.pushes (snd run) = 5
  /\ GitMax.slept (snd run) = 10 + 20 + 30 + 40 + 50
  /\ GitMax.pushes
       (snd (GitMax.process_directory (Samples.fresh (Samples.ok_with ""))
               Samples.job false true [])) = 1.
Proof. repeat split; by vm_compute. Qed.

(* ===================================================================== *)
(** * Further properties of the workflow                                  *)
(* ===================================================================== *)

(** ** Reasoning about what a computation returns and emits *)

Module Traces.
Import GitMax Effects.

Section Rules.

Context {A B : Type}.

Lemma returns_ret (Q : A -> Prop) (a : A) : Q a -> returns Q (ret a).
Proof. intros Ha h. exact Ha. Qed.

Lemma returns_bind (R : A -> Prop) (Q : B -> Prop) (m : M A) (k : A -> M B) :
  returns R m -> (forall a, R a -> returns Q (k a)) -> returns Q (bind m k).
Proof.
  intros Hm Hk h. unfold bind.
  specialize (Hm h). destruct (m h) as [a t1]. cbn in Hm.
  specialize (Hk a Hm (h ++ t1)). destruct (k a (h ++ t1)) as [b t2].
  exact Hk.
Qed.

Lemma returns_any (m : M A) : returns (fun _ => True) m.
Proof. intros h. exact I. Qed.

Lemma returns_then (Q : B -> Prop) (m : M A) (k : A -> M B) :
  (forall a, returns Q (k a)) -> returns Q (bind m k).
Proof.
  intros Hk. apply (returns_bind (fun _ => True)); [apply returns_any|].
  intros a _. apply Hk.
Qed.

Lemma emits_ret (P : event -> Prop) (a : A) : emits P (ret a).
Proof. intros h. constructor. Qed.

Lemma emits_ask (P : event -> Prop) (q : list event -> A) : emits P (ask q).
Proof. intros h. constructor. Qed.

Lemma emits_bind (P : event -> Prop) (m : M A) (k : A -> M B) :
  emits P m -> (forall a, emits P (k a)) -> emits P (bind m k).
Proof.
  intros Hm Hk h. unfold bind.
  specialize (Hm h). destruct (m h) as [a t1]. cbn in Hm.
  specialize (Hk a (h ++ t1)). destruct (k a (h ++ t1)) as [b t2].
  cbn in *. apply Forall_app. split; assumption.
Qed.

Lemma costs_ret (weight : event -> nat) (a : A) : costs weight 0 (ret a).
Proof. intros h. cbn. lia. Qed.

Lemma costs_ask (weight : event -> nat) (q : list event -> A) :
  costs weight 0 (ask q).
Proof. intros h. cbn. lia. Qed.

Lemma costs_le (weight : event -> nat) (n n' : nat) (m : M A) :
  costs weight n m -> n <= n' -> costs weight n' m.
Proof. intros Hm Hle h. specialize (Hm h). lia. Qed.

Lemma costs_bind (weight : event -> nat) (n1 n2 : nat) (m : M A) (k : A -> M B) :
  costs weight n1 m -> (forall a, costs weight n2 (k a)) ->
  costs weight (n1 + n2) (bind m k).
Proof.
  intros Hm Hk h. unfold bind.
  specialize (Hm h). destruct (m h) as [a t1]. cbn [fst snd] in Hm.
  specialize (Hk a (h ++ t1)). destruct (k a (h ++ t1)) as [b t2].
  cbn [fst snd] in *. rewrite map_app, list_sum_app. lia.
Qed.

End Rules.

Lemma emits_emit (P : event -> Prop) (e : event) : P e -> emits P (emit e).
Proof. intros He h. repeat constructor. exact He. Qed.

Lemma emits_run_cmd (P : event -> Prop) W cmd cwd capture timeout :
  P (Run cmd cwd timeout) -> emits P (run_cmd W cmd cwd capture timeout).
Proof. intros He h. repeat constructor. exact He. Qed.

Lemma emits_for_each {A} (P : event -> Prop) (xs : list A) (body : A -> M unit) :
  (forall x, x ∈ xs -> emits P (body x)) -> emits P (for_each xs body).
Proof.
  induction xs as [|x xs IH]; intros Hbody; cbn [for_each].
  - apply emits_ret.
  - apply emits_bind.
    + apply Hbody. left.
    + intros _. apply IH. intros y Hy. apply Hbody. right. exact Hy.
Qed.

Lemma emits_impl {A} (P Q : event -> Prop) (m : M A) :
  (forall e, P e -> Q e) -> emits P m -> emits Q m.
Proof. intros HPQ Hm h. eapply Forall_impl; [apply Hm|exact HPQ]. Qed.

Lemma costs_emit (weight : event -> nat) (n : nat) (e : event) :
  weight e <= n -> costs weight n (emit e).
Proof. intros He h. change (weight e + 0 <= n). lia. Qed.

Lemma costs_run_cmd (weight : event -> nat) (n : nat) W cmd cwd capture timeout :
  weight (Run cmd cwd timeout) <= n ->
  costs weight n (run_cmd W cmd cwd capture timeout).
Proof. intros He h. change (weight (Run cmd cwd timeout) + 0 <= n). lia. Qed.

Lemma costs_for_each {A} (weight : event -> nat) (xs : list A) (body : A -> M unit) :
  (forall x, costs weight 0 (body x)) -> costs weight 0 (for_each xs body).
Proof.
  intros Hbody. induction xs as [|x xs IH]; cbn [for_each].
  - apply costs_ret.
  - apply (costs_bind weight 0 0); [apply Hbody|intros _; exact IH].
Qed.

(** The two measures of a trace, as weights. *)
Lemma slept_seconds (t : list event) : slept t = list_sum (map seconds t).
Proof. reflexivity. Qed.

Lemma pushes_pushing (t : list event) : pushes t = list_sum (map pushing t).
Proof.
  unfold pushes. induction t as [|e t IH]; [reflexivity|].
  change (list_sum (map pushing (e :: t)))
    with (pushing e + list_sum (map pushing t)).
  cbn [List.filter]. unfold pushing at 1.
  destruct (is_push e); cbn [length]; lia.
Qed.

(** One step of a proof about a computation: split a bind, or take the
    scrutinee of a conditional apart. *)
Ltac open_scrutinee :=
  match goal with
  | |- context [let '(_, _) := ?x in _] => destruct x
  | |- context [if ?b then _ else _] => destruct b eqn:?
  | |- context [match ?x with inl _ => _ | inr _ => _ end] => destruct x
  end.

End Traces.

(** ** The effects of a job stay with its directory *)

Module Confined.
Import GitMax Effects Traces.

Lemma gh_view_is_gh repo : Py.startswith "gh repo " (gh_view_cmd repo) = true.
Proof. reflexivity. Qed.

Lemma gh_create_is_gh repo : Py.startswith "gh repo " (gh_create_cmd repo) = true.
Proof. reflexivity. Qed.

Ltac confine :=
  repeat first
    [ apply emits_ret
    | apply emits_ask
    | apply emits_run_cmd;
      first [ left; reflexivity
            | right; split; [reflexivity|first [apply gh_view_is_gh|apply gh_create_is_gh]] ]
    | apply emits_emit; exact I
    | apply emits_bind; [|intros]
    | open_scrutinee; cbn beta iota ].

Section Blocks.

Variable W : world.
Variable d : str.

Lemma is_already_synced_confined : emits (job_effect d) (is_already_synced W d).
Proof. unfold is_already_synced, run_in, exists_. confine. Qed.

Lemma get_large_files_confined : emits (job_effect d) (get_large_files W d).
Proof. unfold get_large_files, rglob. confine. Qed.

Lemma setup_git_lfs_confined fs : emits (job_effect d) (setup_git_lfs W d fs).
Proof.
  unfold setup_git_lfs, run_in. confine.
  - apply emits_for_each. intros pattern _. confine.
  - apply emits_for_each. intros f _. confine.
Qed.

Lemma create_attempts_confined repo attempts :
  emits (job_effect d) (create_attempts W repo attempts).
Proof.
  induction attempts as [|attempt rest IH]; cbn [create_attempts]; unfold sleep.
  - confine.
  - confine. exact IH.
Qed.

Lemma ensure_github_repo_confined repo :
  emits (job_effect d) (ensure_github_repo W repo).
Proof.
  unfold ensure_github_repo, sleep.
  apply emits_bind; [confine|]. intros [[ok out] err].
  destruct ok; cbn [negb]; [confine|].
  apply emits_bind; [apply create_attempts_confined|].
  intros returned. confine.
Qed.

Lemma verify_attempts_confined repo attempts :
  emits (job_effect d) (verify_attempts W repo attempts).
Proof.
  induction attempts as [|attempt rest IH]; cbn [verify_attempts]; unfold sleep.
  - confine.
  - confine. exact IH.
Qed.

Lemma prepare_confined result use_lfs :
  emits (job_effect d) (prepare W d result use_lfs).
Proof.
  unfold prepare, rglob, exists_, rmtree, run_in.
  apply emits_bind; [confine|]. intros items.
  apply emits_bind; [confine|]. intros found.
  apply emits_bind.
  { apply emits_for_each. intros nested Hin.
    apply list_elem_of_In, filter_In in Hin as [_ Hlast].
    unfold Py.str_eqb in Hlast.
    destruct (decide (List.last (rel nested) [] = (".git" : str))) as [E|]; [|discriminate].
    destruct (is_dir nested && negb (length (rel nested) =? 1)); [|confine].
    apply emits_emit. right. exists (rel nested). split; [exact E|reflexivity]. }
  intros _.
  apply emits_bind; [confine|]. intros git_dir_exists.
  apply emits_bind.
  { destruct git_dir_exists; [|confine]. apply emits_emit. left. reflexivity. }
  intros _.
  apply emits_bind; [confine|]. intros [[ok out] err].
  destruct ok; cbn [negb]; [|confine].
  do 4 (apply emits_bind; [confine|]; intros _).
  apply emits_bind; [apply get_large_files_confined|]. intros large_files.
  apply emits_bind; [|confine].
  destruct (negb (is_empty large_files) && use_lfs); [|confine].
  apply emits_bind; [apply setup_git_lfs_confined|]. confine.
Qed.

Lemma stage_confined result : emits (job_effect d) (stage W d result).
Proof. unfold stage, run_in. confine. Qed.

Lemma commit_and_wire_confined repo staged_files :
  emits (job_effect d) (commit_and_wire W d repo staged_files).
Proof.
  unfold commit_and_wire, strftime, run_in.
  apply emits_bind; [confine|]. intros timestamp.
  apply emits_bind; [confine|]. intros _.
  apply emits_bind; [apply ensure_github_repo_confined|]. intros _.
  apply emits_bind; [apply verify_attempts_confined|]. intros _.
  confine.
Qed.

Lemma react_confined attempt err : emits (job_effect d) (react W d attempt err).
Proof. unfold react, sleep. confine. Qed.

Lemma push_attempts_confined attempts err :
  emits (job_effect d) (push_attempts W d attempts err).
Proof.
  revert err. induction attempts as [|attempt rest IH]; intros err;
    cbn [push_attempts].
  - confine.
  - apply emits_bind; [confine|]. intros [[ok out] err'].
    destruct ok; [confine|].
    apply emits_bind; [apply react_confined|]. intros _. apply IH.
Qed.

Lemma push_and_verify_confined repo result err :
  emits (job_effect d) (push_and_verify W d repo result err).
Proof.
  unfold push_and_verify, run_in.
  apply emits_bind; [apply push_attempts_confined|]. intros [push_ok err'].
  confine.
Qed.

Lemma publish_confined repo result dry_run use_lfs :
  emits (job_effect d) (publish W d repo result dry_run use_lfs).
Proof.
  unfold publish. destruct dry_run.
  - apply emits_bind; [apply get_large_files_confined|]. confine.
  - apply emits_bind; [apply prepare_confined|]. intros [failed|[result' err]];
      [confine|].
    apply emits_bind; [apply stage_confined|]. intros [failed|staged_files];
      [confine|].
    apply emits_bind; [apply commit_and_wire_confined|]. intros _.
    apply push_and_verify_confined.
Qed.

End Blocks.

(** Whatever the world answers, every effect of a job is a sleep, a
    command run in the resolved directory of the job, a [gh repo] command,
    or the removal of a [.git] directory at or below the job's directory:
    no other directory is removed and no command runs anywhere else. *)
Theorem process_directory_confined W dir dry_run use_lfs h :
  Forall (job_effect (path_resolve W h dir))
         (snd (process_directory W dir dry_run use_lfs h)).
Proof.
  set (d := path_resolve W h dir).
  unfold process_directory, resolve. rewrite Steps.bind_ask. fold d.
  match goal with
  | |- Forall _ (snd (?m h)) =>
      enough (emits (job_effect d) m) as Hem by exact (Hem h)
  end.
  unfold exists_.
  apply emits_bind; [confine|]. intros dir_exists.
  destruct dir_exists; cbn [negb]; [|confine].
  apply emits_bind; [apply is_already_synced_confined|]. intros [synced reason].
  destruct synced; [confine|]. apply publish_confined.
Qed.

End Confined.

(** ** How a job ends *)

Module Outcome.
Import GitMax Effects Traces.

Ltac conclude :=
  repeat first
    [ apply returns_then; intros
    | open_scrutinee; cbn beta iota ].

Section Blocks.

Variable W : world.
Variables dir d : str.

Lemma is_already_synced_returns :
  returns (fun x => fst x = true -> snd x = ("Already synced" : str))
          (is_already_synced W d).
Proof.
  unfold is_already_synced. conclude;
    apply returns_ret; cbn [fst snd]; first [discriminate|reflexivity].
Qed.

Lemma prepare_returns use_lfs :
  returns (fun x =>
             match x with
             | inl failed =>
                 exists total_files err,
                   failed = Result.make dir false ("git init failed: " ++ err)
                                        "" 0 total_files
             | inr (result, _) =>
                 exists lfs_files total_files,
                   result = Result.make dir false "" "" lfs_files total_files
             end)
          (prepare W d (Result.make dir false "" "" 0 0) use_lfs).
Proof.
  unfold prepare. conclude; apply returns_ret; eexists _, _; reflexivity.
Qed.

Lemma stage_returns result :
  returns (fun x =>
             match x with
             | inl failed =>
                 0 < Result.total_files result
                 /\ failed = Result.set_message
                               (staging_failed_message (Result.total_files result))
                               result
             | inr _ => True
             end)
          (stage W d result).
Proof.
  unfold stage. conclude; apply returns_ret; try exact I.
  split; [|reflexivity].
  match goal with
  | H : (0 <? _) && _ = true |- _ =>
      apply andb_true_iff in H as [H _]; apply Nat.ltb_lt in H; exact H
  end.
Qed.

Lemma push_and_verify_returns lfs_files total_files err :
  returns (job_result dir d)
          (push_and_verify W d (path_to_repo_name d)
             (Result.make dir false "" "" lfs_files total_files) err).
Proof.
  unfold push_and_verify. conclude; apply returns_ret.
  - apply ends_push_failed.
  - apply ends_empty_repo.
    match goal with
    | H : (0 <? _) && _ = true |- _ =>
        apply andb_true_iff in H as [H _]; apply Nat.ltb_lt in H; exact H
    end.
  - apply ends_success.
  - apply ends_success.
Qed.

Lemma publish_returns dry_run use_lfs :
  returns (job_result dir d)
          (publish W d (path_to_repo_name d) (Result.make dir false "" "" 0 0)
             dry_run use_lfs).
Proof.
  unfold publish. destruct dry_run.
  - apply returns_then. intros large_files. apply returns_ret.
    apply ends_dry_run.
  - eapply returns_bind; [apply prepare_returns|].
    intros [failed|[result err]].
    + intros (total_files & err & ->). apply returns_ret.
      apply ends_init_failed.
    + intros (lfs_files & total_files & ->).
      eapply returns_bind; [apply stage_returns|].
      intros [failed|staged_files].
      * intros [Hfiles ->]. apply returns_ret.
        apply (ends_staging_failed dir d lfs_files total_files Hfiles).
      * intros _. apply returns_then. intros _.
        apply push_and_verify_returns.
Qed.

End Blocks.

(** The eight ways a job can end, whatever the world answers. *)
Lemma process_directory_ends W dir dry_run use_lfs h :
  job_result dir (path_resolve W h dir)
             (fst (process_directory W dir dry_run use_lfs h)).
Proof.
  set (d := path_resolve W h dir).
  unfold process_directory, resolve. rewrite Steps.bind_ask. fold d.
  match goal with
  | |- job_result _ _ (fst (?m h)) =>
      enough (returns (job_result dir d) m) as Hret by exact (Hret h)
  end.
  apply returns_then. intros dir_exists.
  destruct dir_exists; cbn [negb]; [|apply returns_ret, ends_missing].
  eapply returns_bind; [apply is_already_synced_returns|].
  intros [synced reason] Hreason. destruct synced.
  - cbn [fst snd] in Hreason. rewrite (Hreason eq_refl).
    apply returns_ret. apply ends_skipped.
  - apply publish_returns.
Qed.

(** The result of a job names the directory as it was given, not as it
    was resolved; it carries the address of the repository exactly when
    it reports success, and that address is derived from the resolved
    directory. *)
Theorem result_names_job W dir dry_run use_lfs h :
  let r := fst (process_directory W dir dry_run use_lfs h) in
  Result.path r = dir
  /\ (if Result.success r
      then Result.repo_url r
           = repo_url_of (path_to_repo_name (path_resolve W h dir))
      else Result.repo_url r = []).
Proof.
  intros r.
  destruct (process_directory_ends W dir dry_run use_lfs h);
    split; reflexivity.
Qed.

End Outcome.

(** ** How a job ends, exceptions included *)

Module GuardedFacts.
Import GitMax Effects Traces Steps.
Import Guarded.

(** *** Without an exception *)

Lemma bind_ret_r {A} (m : M A) h : bind m ret h = m h.
Proof.
  unfold bind, ret. destruct (m h) as [a t]. by rewrite app_nil_r.
Qed.

Lemma bind_congr {A B} (m m' : M A) (k : A -> M B) h :
  (forall h', m h' = m' h') -> bind m k h = bind m' k h.
Proof. intros E. unfold bind. by rewrite E. Qed.

Lemma run_attempt {A} s result (m : M A) h :
  attempt none_raise s result m h = run m h.
Proof.
  unfold attempt, none_raise, run, bind, ret.
  destruct (m h) as [a t]. by rewrite app_nil_r.
Qed.

Lemma and_then_run {A B} (m : M A) (k : A -> M (Result.t + B)) h :
  and_then (run m) k h = bind m k h.
Proof.
  unfold and_then, run. rewrite bind_assoc. apply bind_ext.
  intros a h'. by rewrite bind_ret.
Qed.

Lemma and_then_attempt {A B} s result (m : M A) (k : A -> M (Result.t + B)) h :
  and_then (attempt none_raise s result m) k h = bind m k h.
Proof.
  rewrite <- and_then_run. unfold and_then. apply bind_congr.
  intros h'. apply run_attempt.
Qed.

Lemma and_then_congr {A B} (m m' : M (Result.t + A))
      (k : A -> M (Result.t + B)) h :
  (forall h', m h' = m' h') -> and_then m k h = and_then m' k h.
Proof. intros E. unfold and_then. by apply bind_congr. Qed.

Lemma remove_nested_none d result found h :
  remove_nested none_raise d result found h
  = run (for_each found
           (fun nested_git =>
              if is_dir nested_git && negb (length (rel nested_git) =? 1)
              then rmtree (Py.join "/" (d :: rel nested_git))
              else ret tt)) h.
Proof.
  revert h. induction found as [|nested rest IH]; intros h.
  - cbn [remove_nested for_each]. unfold run. by rewrite bind_ret.
  - cbn [remove_nested for_each]. cbn zeta.
    rewrite and_then_attempt, bind_ret, and_then_run.
    unfold run at 1. rewrite bind_assoc. apply bind_ext.
    intros _ h'. rewrite IH. reflexivity.
Qed.

Ltac step_none :=
  first [ rewrite and_then_attempt | rewrite and_then_run ];
  apply bind_ext; intros ? ?.

Lemma prepare_none W d result use_lfs h :
  Guarded.prepare W none_raise d result use_lfs h
  = GitMax.prepare W d result use_lfs h.
Proof.
  unfold Guarded.prepare, GitMax.prepare. cbn zeta.
  step_none. step_none.
  rewrite (and_then_congr _ _ _ _ (remove_nested_none d _ _)).
  step_none. step_none. step_none.
  rewrite and_then_run. apply bind_ext. intros [[ok out] err] hinit.
  destruct ok; cbn [negb]; [|reflexivity].
  step_none. step_none. step_none. step_none.
  unfold Guarded.get_large_files. step_none. step_none. reflexivity.
Qed.

Lemma bind_and_then {A B C} (m : M (Result.t + A))
      (k : A -> M (Result.t + B)) (g : Result.t + B -> M C) h :
  bind (and_then m k) g h
  = bind m (fun r =>
              match r with
              | inl ended => g (inl ended)
              | inr a => bind (k a) g
              end) h.
Proof.
  unfold and_then. rewrite bind_assoc. apply bind_ext.
  intros [ended|a] h'; [by rewrite bind_ret|reflexivity].
Qed.

Lemma bind_attempt {A B} s result (m : M A) (f : Result.t + A -> M B) h :
  bind (attempt none_raise s result m) f h = bind m (fun a => f (inr a)) h.
Proof.
  rewrite (bind_congr _ _ _ _ (run_attempt s result m)).
  unfold run. rewrite bind_assoc. apply bind_ext.
  intros a h'. by rewrite bind_ret.
Qed.

Lemma bind_run {A B} (m : M A) (f : Result.t + A -> M B) h :
  bind (run m) f h = bind m (fun a => f (inr a)) h.
Proof.
  unfold run. rewrite bind_assoc. apply bind_ext.
  intros a h'. by rewrite bind_ret.
Qed.

(** Where nothing raises the function is [GitMax.process_directory]. *)
Lemma process_directory_none W dir dry_run use_lfs h :
  Guarded.process_directory W none_raise dir dry_run use_lfs h
  = GitMax.process_directory W dir dry_run use_lfs h.
Proof.
  unfold Guarded.process_directory, GitMax.process_directory. cbn zeta.
  rewrite bind_and_then, bind_attempt. apply bind_ext. intros d h1.
  rewrite bind_and_then, bind_attempt. apply bind_ext. intros dir_exists h2.
  destruct (negb dir_exists); [unfold ends; by rewrite bind_ret|].
  rewrite bind_and_then. unfold Guarded.is_already_synced.
  rewrite bind_attempt. apply bind_ext. intros [synced reason] h3.
  destruct synced; [unfold ends; by rewrite bind_ret|].
  unfold publish. destruct dry_run.
  - rewrite bind_and_then. unfold Guarded.get_large_files.
    rewrite bind_attempt. apply bind_ext. intros large_files h4.
    unfold ends. by rewrite bind_ret.
  - rewrite bind_and_then.
    rewrite (bind_congr _ _ _ _ (prepare_none W d _ use_lfs)).
    apply bind_ext. intros [failed|[result err]] h4; [reflexivity|].
    rewrite bind_and_then. apply bind_ext.
    intros [failed|staged_files] h5; [reflexivity|].
    rewrite bind_and_then, bind_run. apply bind_ext. intros _ h6.
    rewrite bind_run. apply bind_ret_r.
Qed.

(** *** How a job ends, exceptions included *)

Lemma returns_attempt {A} F s dir d n (R : A -> Prop) (m : M A) :
  returns R m ->
  returns (sum_case (job_end dir d) R)
          (attempt F s (Result.make dir false "" "" 0 n) m).
Proof.
  intros Hm h. unfold attempt. destruct (F s h) as [e|].
  - apply ends_faulted.
  - specialize (Hm h). by destruct (m h).
Qed.

Lemma returns_and_then {A B} (Q : Result.t -> Prop) (R : A -> Prop)
      (R' : B -> Prop) (m : M (Result.t + A)) (k : A -> M (Result.t + B)) :
  returns (sum_case Q R) m ->
  (forall a, R a -> returns (sum_case Q R') (k a)) ->
  returns (sum_case Q R') (and_then m k).
Proof.
  intros Hm Hk. unfold and_then. eapply returns_bind; [exact Hm|].
  intros [ended|a] Hr; [by apply returns_ret|by apply Hk].
Qed.

Lemma returns_run {A} (Q : Result.t -> Prop) (R : A -> Prop) (m : M A) :
  returns R m -> returns (sum_case Q R) (run m).
Proof.
  intros Hm. unfold run. eapply returns_bind; [exact Hm|].
  intros a Ha. by apply returns_ret.
Qed.

Lemma returns_ends {A} (Q : Result.t -> Prop) (R : A -> Prop) r :
  Q r -> returns (sum_case Q R) (@ends A r).
Proof. intros Hr. by apply returns_ret. Qed.

Lemma returns_stage W dir d lfs_files total_files :
  returns (sum_case (job_end dir d) (fun _ : list str => True))
          (stage W d (Result.make dir false "" "" lfs_files total_files)).
Proof.
  intros h.
  pose proof (Outcome.stage_returns W d
                (Result.make dir false "" "" lfs_files total_files) h) as H.
  destruct (fst (stage W d (Result.make dir false "" "" lfs_files total_files) h))
    as [failed|staged_files]; [|exact I].
  destruct H as [Hfiles ->]. apply ends_returned.
  by apply ends_staging_failed.
Qed.

Section Blocks.

Variable W : world.
Variable F : faults.
Variables dir d : str.

Lemma remove_nested_returns n found :
  returns (sum_case (job_end dir d) (fun _ : unit => True))
          (remove_nested F d (Result.make dir false "" "" 0 n) found).
Proof.
  induction found as [|nested rest IH]; cbn [remove_nested].
  - by apply returns_ret.
  - cbn zeta.
    eapply returns_and_then; [apply returns_attempt, returns_any|].
    intros is_directory _.
    eapply returns_and_then; [apply returns_run, returns_any|].
    intros _ _. exact IH.
Qed.

Lemma prepare_ends use_lfs :
  returns (sum_case (job_end dir d)
             (fun x : Result.t * str =>
                exists lfs_files total_files,
                  fst x = Result.make dir false "" "" lfs_files total_files))
          (Guarded.prepare W F d (Result.make dir false "" "" 0 0) use_lfs).
Proof.
  unfold Guarded.prepare. cbn zeta.
  eapply returns_and_then; [apply returns_attempt, returns_any|].
  intros items _. cbn [Result.set_total_files Result.path Result.success
                       Result.message Result.repo_url Result.lfs_files].
  eapply returns_and_then; [apply returns_attempt, returns_any|].
  intros found _.
  eapply returns_and_then; [apply remove_nested_returns|]. intros _ _.
  eapply returns_and_then; [apply returns_attempt, returns_any|].
  intros git_dir_exists _.
  eapply returns_and_then; [apply returns_run, returns_any|]. intros _ _.
  eapply returns_and_then; [apply returns_run, returns_any|].
  intros [[ok out] err] _. destruct ok; cbn [negb].
  2:{ apply returns_ends, ends_returned, ends_init_failed. }
  do 4 (eapply returns_and_then; [apply returns_run, returns_any|];
        intros _ _).
  unfold Guarded.get_large_files.
  eapply returns_and_then; [apply returns_attempt, returns_any|].
  intros large_files _.
  eapply returns_and_then; [apply returns_run, returns_any|]. intros _ _.
  apply returns_ret. cbn. eauto.
Qed.

End Blocks.

(** Every job ends in one of nine ways, whatever the world answers and
    wherever an exception comes up: the eight results of a run without
    an exception (missing directory, skipped, dry run, failed
    [git init], nothing staged, push failed, empty repository, success)
    or the result of the [except] clause, which is unsuccessful, has no
    address and no large files, carries the files counted so far, and
    has the first 100 characters of the exception's text as its message.
    That ninth result is reached where the path cannot be resolved; and
    where nothing raises, the job is the one [GitMax.process_directory]
    describes. *)
Theorem process_directory_outcomes :
  (forall W F dir dry_run use_lfs h,
     let d := path_resolve W h dir in
     let r := fst (Guarded.process_directory W F dir dry_run use_lfs h) in
     let url := repo_url_of (path_to_repo_name d) in
     r = Result.make dir false "Directory does not exist" "" 0 0
     \/ r = Result.make dir true "SKIPPED - Already synced" url 0 0
     \/ (exists lfs_files,
           r = Result.make dir true "Dry run - would push" url lfs_files 0)
     \/ (exists total_files err,
           r = Result.make dir false ("git init failed: " ++ err) "" 0
                           total_files)
     \/ (exists lfs_files total_files,
           0 < total_files
           /\ r = Result.make dir false (staging_failed_message total_files) ""
                              lfs_files total_files)
     \/ (exists lfs_files total_files err,
           r = Result.make dir false (push_failed_message err) ""
                           lfs_files total_files)
     \/ (exists lfs_files total_files,
           0 < total_files
           /\ r = Result.make dir false
                    ("EMPTY REPO - " ++ Py.str_of_nat total_files
                     ++ " files exist but 0 pushed! Check file sizes.") ""
                    lfs_files total_files)
     \/ (exists lfs_files total_files,
           r = Result.make dir true
                 ("Success (" ++ Py.str_of_nat total_files ++ " files)") url
                 lfs_files total_files)
     \/ (exists e total_files,
           r = Result.make dir false (take 100 e) "" 0 total_files))
  /\ (forall W dir dry_run use_lfs h,
        Guarded.process_directory W unresolvable dir dry_run use_lfs h
        = (Result.make dir false "embedded null byte" "" 0 0, []))
  /\ (forall W dir dry_run use_lfs h,
        Guarded.process_directory W none_raise dir dry_run use_lfs h
        = GitMax.process_directory W dir dry_run use_lfs h).
Proof.
  split; [|split].
  - intros W F dir dry_run use_lfs h d r url.
    assert (Hend : job_end dir d r).
    { subst r. unfold Guarded.process_directory. cbn zeta.
      rewrite bind_and_then. unfold bind at 1, attempt at 1, resolve, ask.
      destruct (F resolving h) as [e|].
      { apply ends_faulted. }
      fold d. cbv beta iota.
      match goal with
      | |- job_end _ _ (fst (let (b, t2) := bind ?m ?g ?h' in _)) =>
          assert (Hret : returns (job_end dir d) (bind m g));
          [|specialize (Hret h'); by destruct (bind m g h')]
      end.
      eapply (returns_bind (sum_case (job_end dir d) (job_end dir d))).
      2:{ intros [ended|returned] Hr; by apply returns_ret. }
      eapply returns_and_then; [apply returns_attempt, returns_any|].
      intros dir_exists _.
      destruct (negb dir_exists).
      { apply returns_ends, ends_returned, ends_missing. }
      unfold Guarded.is_already_synced.
      eapply returns_and_then;
        [apply returns_attempt, Outcome.is_already_synced_returns|].
      intros [synced reason] Hreason. cbn [fst snd] in Hreason.
      destruct synced.
      { rewrite (Hreason eq_refl).
        apply returns_ends, ends_returned, ends_skipped. }
      destruct dry_run.
      { unfold Guarded.get_large_files.
        eapply returns_and_then; [apply returns_attempt, returns_any|].
        intros large_files _.
        apply returns_ends, ends_returned, ends_dry_run. }
      eapply returns_and_then; [apply prepare_ends|].
      intros [result err] (lfs_files & total_files & Hresult).
      cbn [fst] in Hresult. subst result.
      eapply returns_and_then; [apply returns_stage|].
      intros staged_files _.
      eapply returns_and_then; [apply returns_run, returns_any|].
      intros _ _. apply returns_run.
      intros h'. apply ends_returned, Outcome.push_and_verify_returns. }
    destruct Hend as [r Hr|e total_files].
    + destruct Hr; subst url; eauto 15.
    + do 8 right. by exists e, total_files.
  - intros W dir dry_run use_lfs h. reflexivity.
  - apply process_directory_none.
Qed.

End GuardedFacts.

(** ** What a job can cost *)

Module Budget.
Import GitMax Effects Traces.

(** A bind of which one side costs nothing. *)
Lemma costs_first_free {A B} (weight : event -> nat) (n : nat)
      (m : M A) (k : A -> M B) :
  costs weight 0 m -> (forall a, costs weight n (k a)) ->
  costs weight n (bind m k).
Proof. intros Hm Hk. exact (costs_bind weight 0 n m k Hm Hk). Qed.

Lemma costs_last_free {A B} (weight : event -> nat) (n : nat)
      (m : M A) (k : A -> M B) :
  costs weight n m -> (forall a, costs weight 0 (k a)) ->
  costs weight n (bind m k).
Proof.
  intros Hm Hk. eapply costs_le; [exact (costs_bind weight n 0 m k Hm Hk)|lia].
Qed.

Ltac tally :=
  repeat first
    [ apply costs_ret
    | apply costs_ask
    | apply costs_run_cmd; exact (le_n 0)
    | apply costs_emit; exact (le_n 0)
    | apply costs_for_each; intros
    | apply (costs_bind _ 0 0); [|intros]
    | open_scrutinee; cbn beta iota ].

Section Blocks.

Variable W : world.
Variable d : str.

Lemma is_already_synced_free weight :
  measured weight -> costs weight 0 (is_already_synced W d).
Proof.
  intros [->|[->| ->]]; unfold is_already_synced, run_in, exists_; tally.
Qed.

Lemma get_large_files_free weight : costs weight 0 (get_large_files W d).
Proof. unfold get_large_files, rglob. tally. Qed.

Lemma setup_git_lfs_free weight fs :
  measured weight -> costs weight 0 (setup_git_lfs W d fs).
Proof.
  intros [->|[->| ->]]; unfold setup_git_lfs, run_in; tally.
Qed.

Lemma prepare_free weight result use_lfs :
  measured weight -> costs weight 0 (prepare W d result use_lfs).
Proof.
  intros Hw. unfold prepare.
  apply (costs_bind _ 0 0); [unfold rglob; tally|]. intros items.
  apply (costs_bind _ 0 0); [unfold rglob; tally|]. intros found.
  apply (costs_bind _ 0 0).
  { destruct Hw as [->|[->| ->]]; unfold rmtree; tally. }
  intros _.
  apply (costs_bind _ 0 0); [unfold exists_; tally|]. intros git_dir_exists.
  apply (costs_bind _ 0 0).
  { destruct Hw as [->|[->| ->]]; unfold rmtree; tally. }
  intros _.
  apply (costs_bind _ 0 0).
  { destruct Hw as [->|[->| ->]]; unfold run_in; tally. }
  intros [[ok out] err]. destruct ok; cbn [negb]; [|tally].
  do 4 (apply (costs_bind _ 0 0);
        [destruct Hw as [->|[->| ->]]; unfold run_in; tally|]; intros _).
  apply (costs_bind _ 0 0); [apply get_large_files_free|]. intros large_files.
  apply (costs_bind _ 0 0); [|tally].
  destruct (negb (is_empty large_files) && use_lfs); [|tally].
  apply (costs_bind _ 0 0); [apply setup_git_lfs_free, Hw|]. tally.
Qed.

Lemma stage_free weight result :
  measured weight -> costs weight 0 (stage W d result).
Proof. intros [->|[->| ->]]; unfold stage, run_in; tally. Qed.

Lemma create_attempts_seconds repo attempts :
  costs seconds (list_sum (map (fun attempt => 2 * (attempt + 1)) attempts))
        (create_attempts W repo attempts).
Proof.
  induction attempts as [|attempt rest IH]; cbn [create_attempts]; [tally|].
  change (list_sum (map (fun a => 2 * (a + 1)) (attempt :: rest)))
    with (2 * (attempt + 1) + list_sum (map (fun a => 2 * (a + 1)) rest)).
  apply costs_first_free; [tally|]. intros [[create_ok out] create_err].
  destruct create_ok.
  { eapply costs_le.
    - apply costs_last_free; [apply costs_emit; exact (le_n 1)|tally].
    - lia. }
  destruct (Py.contains "already exists" (Py.lower create_err)).
  { eapply costs_le; [apply costs_ret|lia]. }
  apply costs_bind; [apply costs_emit; exact (le_n _)|]. intros _. exact IH.
Qed.

Lemma create_attempts_creating repo attempts :
  costs creating (length attempts) (create_attempts W repo attempts).
Proof.
  induction attempts as [|attempt rest IH]; cbn [create_attempts]; [tally|].
  change (length (attempt :: rest)) with (1 + length rest).
  apply costs_bind; [apply costs_run_cmd; exact (le_n 1)|].
  intros [[create_ok out] create_err].
  destruct create_ok.
  { eapply costs_le; [unfold sleep; tally|lia]. }
  destruct (Py.contains "already exists" (Py.lower create_err)).
  { eapply costs_le; [apply costs_ret|lia]. }
  apply costs_first_free; [unfold sleep; tally|]. intros _. exact IH.
Qed.

Lemma create_attempts_pushing repo attempts :
  costs pushing 0 (create_attempts W repo attempts).
Proof.
  induction attempts as [|attempt rest IH]; cbn [create_attempts]; [tally|].
  apply (costs_bind _ 0 0); [tally|]. intros [[create_ok out] create_err].
  destruct create_ok; [unfold sleep; tally|].
  destruct (Py.contains "already exists" (Py.lower create_err)); [tally|].
  apply (costs_bind _ 0 0); [unfold sleep; tally|]. intros _. exact IH.
Qed.

Lemma ensure_github_repo_seconds repo :
  costs seconds 14 (ensure_github_repo W repo).
Proof.
  unfold ensure_github_repo.
  apply costs_first_free; [tally|]. intros [[ok out] err].
  destruct ok; cbn [negb]; [eapply costs_le; [apply costs_ret|lia]|].
  apply (costs_bind _ 12 2); [apply (create_attempts_seconds repo (seq 0 3))|].
  intros returned. destruct returned; [eapply costs_le; [apply costs_ret|lia]|].
  apply costs_first_free; [tally|]. intros _.
  apply costs_last_free; [apply costs_emit; exact (le_n 2)|]. tally.
Qed.

Lemma ensure_github_repo_creating repo :
  costs creating 4 (ensure_github_repo W repo).
Proof.
  unfold ensure_github_repo.
  apply costs_first_free; [tally|]. intros [[ok out] err].
  destruct ok; cbn [negb]; [eapply costs_le; [apply costs_ret|lia]|].
  apply (costs_bind _ 3 1); [apply (create_attempts_creating repo (seq 0 3))|].
  intros returned. destruct returned; [eapply costs_le; [apply costs_ret|lia]|].
  apply costs_last_free; [apply costs_run_cmd; exact (le_n 1)|].
  intros _. unfold sleep. tally.
Qed.

Lemma ensure_github_repo_pushing repo :
  costs pushing 0 (ensure_github_repo W repo).
Proof.
  unfold ensure_github_repo.
  apply (costs_bind _ 0 0); [tally|]. intros [[ok out] err].
  destruct ok; cbn [negb]; [tally|].
  apply (costs_bind _ 0 0); [apply create_attempts_pushing|].
  intros returned. unfold sleep. tally.
Qed.

Lemma verify_attempts_seconds repo attempts :
  costs seconds (2 * length attempts) (verify_attempts W repo attempts).
Proof.
  induction attempts as [|attempt rest IH]; cbn [verify_attempts]; [tally|].
  apply costs_first_free; [tally|]. intros [[verify_ok out] err].
  destruct verify_ok; [eapply costs_le; [apply costs_ret|lia]|].
  eapply costs_le.
  - apply (costs_bind _ 2); [apply costs_emit; exact (le_n 2)|].
    intros _. exact IH.
  - cbn [length]. lia.
Qed.

Lemma verify_attempts_free weight repo attempts :
  weight = pushing \/ weight = creating ->
  costs weight 0 (verify_attempts W repo attempts).
Proof.
  intros Hw.
  induction attempts as [|attempt rest IH]; cbn [verify_attempts]; [tally|].
  apply (costs_bind _ 0 0); [destruct Hw as [->| ->]; tally|].
  intros [[verify_ok out] err]. destruct verify_ok; [tally|].
  apply (costs_bind _ 0 0); [destruct Hw as [->| ->]; unfold sleep; tally|].
  intros _. exact IH.
Qed.

Lemma commit_and_wire_costs repo staged_files :
  costs seconds 20 (commit_and_wire W d repo staged_files)
  /\ costs pushing 0 (commit_and_wire W d repo staged_files)
  /\ costs creating 4 (commit_and_wire W d repo staged_files).
Proof.
  unfold commit_and_wire, strftime, run_in. repeat split.
  - apply costs_first_free; [tally|]. intros timestamp.
    apply costs_first_free; [tally|]. intros _.
    apply (costs_bind _ 14 6); [apply ensure_github_repo_seconds|]. intros _.
    apply costs_last_free; [apply (verify_attempts_seconds repo (seq 0 3))|].
    intros _. tally.
  - apply (costs_bind _ 0 0); [tally|]. intros timestamp.
    apply (costs_bind _ 0 0); [tally|]. intros _.
    apply (costs_bind _ 0 0); [apply ensure_github_repo_pushing|]. intros _.
    apply (costs_bind _ 0 0); [apply verify_attempts_free; by left|].
    intros _. tally.
  - apply costs_first_free; [tally|]. intros timestamp.
    apply costs_first_free; [tally|]. intros _.
    apply costs_last_free; [apply ensure_github_repo_creating|]. intros _.
    apply (costs_bind _ 0 0); [apply verify_attempts_free; by right|].
    intros _. tally.
Qed.

Lemma react_seconds attempt err :
  costs seconds (longest_backoff attempt) (react W d attempt err).
Proof.
  intros h. rewrite PushRetry.react_run. cbn [snd]. unfold longest_backoff.
  assert (1 <= 2 ^ attempt) by (apply Nat.neq_0_lt_0, Nat.pow_nonzero; lia).
  repeat match goal with
         | |- context [if ?b then _ else _] => destruct b
         end;
    cbn [map list_sum seconds lfs_push_event foldr]; lia.
Qed.

Lemma react_free weight attempt err :
  weight = pushing \/ weight = creating ->
  costs weight 0 (react W d attempt err).
Proof.
  intros Hw h. rewrite PushRetry.react_run. cbn [snd].
  destruct Hw as [->| ->];
    repeat match goal with
           | |- context [if ?b then _ else _] => destruct b
           end;
    exact (le_n 0).
Qed.

Lemma push_attempts_seconds attempts err :
  costs seconds (list_sum (map longest_backoff attempts))
        (push_attempts W d attempts err).
Proof.
  revert err. induction attempts as [|attempt rest IH]; intros err;
    cbn [push_attempts]; [tally|].
  change (list_sum (map longest_backoff (attempt :: rest)))
    with (longest_backoff attempt + list_sum (map longest_backoff rest)).
  apply costs_first_free; [tally|]. intros [[ok out] err'].
  destruct ok; [eapply costs_le; [apply costs_ret|lia]|].
  apply costs_bind; [apply react_seconds|]. intros _. apply IH.
Qed.

Lemma push_attempts_pushing attempts err :
  costs pushing (length attempts) (push_attempts W d attempts err).
Proof.
  revert err. induction attempts as [|attempt rest IH]; intros err;
    cbn [push_attempts]; [tally|].
  change (length (attempt :: rest)) with (1 + length rest).
  apply costs_bind; [apply costs_run_cmd; exact (le_n 1)|].
  intros [[ok out] err'].
  destruct ok; [eapply costs_le; [apply costs_ret|lia]|].
  apply costs_first_free; [apply react_free; by left|]. intros _. apply IH.
Qed.

Lemma push_attempts_creating attempts err :
  costs creating 0 (push_attempts W d attempts err).
Proof.
  revert err. induction attempts as [|attempt rest IH]; intros err;
    cbn [push_attempts]; [tally|].
  apply (costs_bind _ 0 0); [tally|]. intros [[ok out] err'].
  destruct ok; [tally|].
  apply (costs_bind _ 0 0); [apply react_free; by right|]. intros _. apply IH.
Qed.

Lemma push_and_verify_costs repo result err :
  costs seconds 180 (push_and_verify W d repo result err)
  /\ costs pushing 5 (push_and_verify W d repo result err)
  /\ costs creating 0 (push_and_verify W d repo result err).
Proof.
  unfold push_and_verify, run_in. repeat split.
  - apply costs_last_free; [apply (push_attempts_seconds (seq 0 5))|].
    intros [push_ok err']. tally.
  - apply costs_last_free; [apply (push_attempts_pushing (seq 0 5))|].
    intros [push_ok err']. tally.
  - apply (costs_bind _ 0 0); [apply push_attempts_creating|].
    intros [push_ok err']. tally.
Qed.

Lemma publish_costs repo result dry_run use_lfs :
  costs seconds 200 (publish W d repo result dry_run use_lfs)
  /\ costs pushing 5 (publish W d repo result dry_run use_lfs)
  /\ costs creating 4 (publish W d repo result dry_run use_lfs).
Proof.
  assert (Hall : forall weight a b c,
             measured weight ->
             (forall staged_files,
                costs weight a (commit_and_wire W d repo staged_files)) ->
             (forall result err,
                costs weight b (push_and_verify W d repo result err)) ->
             a + b <= c ->
             costs weight c (publish W d repo result dry_run use_lfs)).
  { intros weight a b c Hw Ha Hb Hc. unfold publish. destruct dry_run.
    - eapply costs_le; [|apply Nat.le_0_l].
      apply (costs_bind _ 0 0); [apply get_large_files_free|]. tally.
    - eapply costs_le; [|exact Hc].
      apply costs_first_free; [apply prepare_free, Hw|].
      intros [failed|[result' err]]; [eapply costs_le; [apply costs_ret|lia]|].
      apply costs_first_free; [apply stage_free, Hw|].
      intros [failed|staged_files]; [eapply costs_le; [apply costs_ret|lia]|].
      apply costs_bind; [apply Ha|]. intros _. apply Hb. }
  repeat split.
  - apply (Hall seconds 20 180); [by left| | |lia].
    + intros s. apply commit_and_wire_costs.
    + intros r e. apply push_and_verify_costs.
  - apply (Hall pushing 0 5); [by right; left| | |lia].
    + intros s. apply commit_and_wire_costs.
    + intros r e. apply push_and_verify_costs.
  - apply (Hall creating 4 0); [by right; right| | |lia].
    + intros s. apply commit_and_wire_costs.
    + intros r e. apply push_and_verify_costs.
Qed.

End Blocks.

(** A job pushes at most five times, sleeps at most 200 seconds in all
    (14 while creating the repository, 6 while waiting for it, 180
    between pushes) and asks at most four times for the repository to be
    created, whatever the world answers; and there is a world in which
    one job does all of that. *)
Theorem job_budget :
  (forall W dir dry_run use_lfs h,
     let t := snd (process_directory W dir dry_run use_lfs h) in
     pushes t <= 5 /\ slept t <= 200 /\ list_sum (map creating t) <= 4)
  /\ (exists W dir h,
        let t := snd (process_directory W dir false true h) in
        pushes t = 5 /\ slept t = 200 /\ list_sum (map creating t) = 4).
Proof.
  split.
  - intros W dir dry_run use_lfs h t.
    assert (Hall : forall weight n,
               measured weight ->
               (forall d repo result,
                  costs weight n (publish W d repo result dry_run use_lfs)) ->
               list_sum (map weight t) <= n).
    { intros weight n Hw Hpublish. subst t.
      unfold process_directory, resolve. rewrite Steps.bind_ask.
      match goal with
      | |- list_sum (map _ (snd (?m h))) <= _ =>
          enough (costs weight n m) as Hcosts by exact (Hcosts h)
      end.
      apply costs_first_free; [unfold exists_; tally|]. intros dir_exists.
      destruct dir_exists; cbn [negb];
        [|eapply costs_le; [apply costs_ret|lia]].
      apply costs_first_free; [apply is_already_synced_free, Hw|].
      intros [synced reason].
      destruct synced; [eapply costs_le; [apply costs_ret|lia]|].
      apply Hpublish. }
    rewrite pushes_pushing, slept_seconds. repeat split.
    + apply Hall; [by right; left|]. intros d repo result.
      apply publish_costs.
    + apply Hall; [by left|]. intros d repo result. apply publish_costs.
    + apply Hall; [by right; right|]. intros d repo result.
      apply publish_costs.
  - exists Cases.stubborn, Samples.job, []. vm_compute. repeat split.
Qed.

End Budget.

(** ** Jobs that change nothing *)

Module Quiet.
Import GitMax Effects Traces Steps.

(** A job whose resolved directory does not exist does nothing at all:
    no command, no removal, no sleep, and it fails with the message
    that says so. *)
Theorem missing_directory W dir dry_run use_lfs h :
  path_exists W h (path_resolve W h dir) = false ->
  process_directory W dir dry_run use_lfs h
  = (Result.make dir false "Directory does not exist" "" 0 0, []).
Proof.
  intros Hmissing. unfold process_directory, resolve, exists_.
  rewrite bind_ask, bind_ask, Hmissing. reflexivity.
Qed.

(** A dry run only asks: its effects are an initial part of the three
    queries of the sync check, so nothing is removed, initialised,
    committed or pushed; no file is counted; and when it ends as a dry
    run it succeeds and reports the large files of the tree as it is
    after the queries. *)
Theorem dry_run_only_asks W dir use_lfs h :
  let d := path_resolve W h dir in
  let r := fst (process_directory W dir true use_lfs h) in
  let t := snd (process_directory W dir true use_lfs h) in
  t `prefix_of` queries d
  /\ Forall (query_effect d) t
  /\ pushes t = 0
  /\ Result.total_files r = 0
  /\ (Result.message r = ("Dry run - would push" : str) ->
      Result.success r = true
      /\ Result.lfs_files r
         = length (omap (large_file d) (path_rglob W (h ++ t) d))).
Proof.
  intros d r t.
  assert (Hpre : t `prefix_of` queries d
                 /\ Result.total_files r = 0
                 /\ (Result.message r = ("Dry run - would push" : str) ->
                     Result.success r = true
                     /\ Result.lfs_files r
                        = length (omap (large_file d) (path_rglob W (h ++ t) d)))).
  { subst r t.
    remember (process_directory W dir true use_lfs h) as p eqn:Ep.
    unfold process_directory, resolve, exists_ in Ep.
    rewrite bind_ask, bind_ask in Ep. fold d in Ep.
    destruct (path_exists W h d); cbn [negb] in Ep.
    2:{ subst p. unfold ret. cbn [fst snd]. split; [apply prefix_nil|].
        split; [reflexivity|]. cbn. discriminate. }
    destruct (SyncCheck.is_already_synced_spec W d h)
      as (synced & reason & t0 & E & Hprefix & _ & _).
    unfold bind at 1 in Ep. rewrite E in Ep.
    destruct synced.
    - unfold ret in Ep. rewrite app_nil_r in Ep. subst p. cbn [fst snd].
      split; [exact Hprefix|]. split; [reflexivity|]. cbn. discriminate.
    - unfold publish, bind in Ep. rewrite LargeFiles.get_large_files_run in Ep.
      unfold ret in Ep. rewrite !app_nil_r in Ep. subst p. cbn [fst snd].
      split; [exact Hprefix|]. split; [reflexivity|].
      intros _. split; reflexivity. }
  destruct Hpre as (Hprefix & Hfiles & Hdry).
  assert (Hq : Forall (query_effect d) t).
  { apply Forall_forall. intros e He. unfold query_effect.
    destruct Hprefix as [rest ->]. apply elem_of_app. left. exact He. }
  repeat split; try assumption; try (apply Hdry; assumption).
  clear Hprefix Hdry Hfiles. induction Hq as [|e t' He _ IH]; [reflexivity|].
  unfold pushes in *. cbn [List.filter].
  assert (Hquery : is_push e = false).
  { unfold query_effect, queries in He.
    repeat (apply elem_of_cons in He as [->|He]; [reflexivity|]).
    by apply elem_of_nil in He. }
  rewrite Hquery. exact IH.
Qed.

End Quiet.

(** A missing directory in a world that has none. *)
Lemma missing_directory_witness :
  GitMax.process_directory Cases.missing Samples.job false true []
  = (GitMax.Result.make Samples.job false "Directory does not exist" "" 0 0, []).
Proof.
  apply (Quiet.missing_directory Cases.missing Samples.job false true []).
  reflexivity.
Defined.

(** ** Where a job stops *)

Module Stops.
Import GitMax Effects Traces Steps Staging.

Lemma run_in_inv W cmd d h r t :
  run_in W cmd d h = (r, t) ->
  r = run_cmd_result true (subprocess_run W h cmd (Some d) 300)
  /\ t = [asked cmd d].
Proof. unfold run_in, run_cmd. by intros [= <- <-]. Qed.

Lemma emits_inv {A} (P : event -> Prop) (m : M A) h a t :
  emits P m -> m h = (a, t) -> Forall P t.
Proof. intros Hm E. specialize (Hm h). by rewrite E in Hm. Qed.

(** A [prepare] that fails has removed [.git] directories, run [git init]
    and nothing else. *)
Lemma prepare_failed W d r0 use_lfs h failed t :
  prepare W d r0 use_lfs h = (inl failed, t) ->
  exists t1 out err,
    t = t1 ++ [asked "git init -b main" d]
    /\ run_cmd_result true
         (subprocess_run W (h ++ t1) "git init -b main" (Some d) 300)
       = (false, out, err)
    /\ Result.message failed = "git init failed: " ++ err
    /\ Result.success failed = Result.success r0
    /\ Forall (fun e => exists target, e = Rmtree target) t1.
Proof.
  unfold prepare. cbn zeta. intros H.
  unbind H. unfold rglob in E. apply ask_inv in E as [-> ->].
  rewrite app_nil_r in H.
  unbind H. unfold rglob in E. apply ask_inv in E as [-> ->].
  rewrite app_nil_r in H.
  unbind H. unbind H. unfold exists_ in E0. apply ask_inv in E0 as [-> ->].
  rewrite app_nil_r in H.
  unbind H. unbind H. apply run_in_inv in E1 as [-> ->].
  destruct (run_cmd_result true _) as [[ok out] err] eqn:Einit.
  destruct ok; cbn [negb] in H.
  { do 6 unbind H. by apply ret_inv in H as [? _]. }
  apply ret_inv in H as [Hfailed ->]. injection Hfailed as <-.
  exists (t ++ t0), out, err. rewrite <- app_assoc in Einit.
  split; [cbn [app]; by rewrite <- app_assoc|].
  split; [exact Einit|].
  split; [reflexivity|]. split; [reflexivity|].
  apply Forall_app. split.
  - eapply emits_inv; [|exact E]. apply emits_for_each. intros nested _.
    destruct (is_dir nested && negb (length (rel nested) =? 1)).
    + apply emits_emit. by eexists.
    + apply emits_ret.
  - destruct (path_exists W (h ++ t) (PathLib.joinpath d ".git")).
    + injection E0 as _ <-. repeat constructor. by eexists.
    + injection E0 as _ <-. constructor.
Qed.

Lemma until_stage_init W dir dry_run use_lfs h ended t :
  until_stage W dir dry_run use_lfs h = (inl ended, t) ->
  Py.startswith "git init failed" (Result.message ended) = true ->
  let d := path_resolve W h dir in
  exists t1 out err,
    t = t1 ++ [asked "git init -b main" d]
    /\ run_cmd_result true
         (subprocess_run W (h ++ t1) "git init -b main" (Some d) 300)
       = (false, out, err)
    /\ Result.message ended = "git init failed: " ++ err
    /\ Result.success ended = false
    /\ Forall (fun e => e ∈ queries d \/ exists target, e = Rmtree target) t1.
Proof.
  unfold until_stage. cbn zeta. intros H Hmsg.
  unbind H. unfold resolve in E. apply ask_inv in E as [-> ->].
  rewrite app_nil_r in H.
  unbind H. unfold exists_ in E. apply ask_inv in E as [-> ->].
  rewrite app_nil_r in H.
  destruct (negb _).
  { apply ret_inv in H as [[= <-] _]. discriminate Hmsg. }
  unbind H. destruct a as [synced reason].
  destruct (SyncCheck.is_already_synced_spec W (path_resolve W h dir) h)
    as (synced' & reason' & t' & E' & Hprefix & _ & _).
  rewrite E' in E. injection E as -> -> ->.
  destruct synced.
  { apply ret_inv in H as [[= <-] _]. discriminate Hmsg. }
  destruct dry_run.
  { unbind H. apply ret_inv in H as [[= <-] _]. discriminate Hmsg. }
  unbind H. destruct a as [failed|[result err]].
  2:{ by apply ret_inv in H as [? _]. }
  apply ret_inv in H as [[= ->] ->].
  apply prepare_failed in E as (t1 & out & err & -> & Einit & Hm & Hs & Hrm).
  exists (t ++ t1), out, err. rewrite <- app_assoc in Einit.
  split; [cbn [app]; by rewrite app_nil_r, app_assoc|].
  split; [exact Einit|]. split; [exact Hm|]. split; [exact Hs|].
  apply Forall_app. split.
  - apply Forall_forall. intros e He. left.
    destruct Hprefix as [rest ->]. apply elem_of_app. by left.
  - eapply Forall_impl; [exact Hrm|]. intros e He. by right.
Qed.

(** From the staging step on no result speaks of [git init]. *)
Lemma after_stage_not_init W d repo result err :
  returns (fun r => Py.startswith "git init failed" (Result.message r) = false)
          (let* staged := stage W d result in
           match staged with
           | inl failed => ret failed
           | inr staged_files =>
               commit_and_wire W d repo staged_files ;;
               push_and_verify W d repo result err
           end).
Proof.
  eapply returns_bind; [apply (Outcome.stage_returns W d)|].
  intros [failed|staged_files].
  - intros [_ ->]. by apply returns_ret.
  - intros _. apply returns_then. intros _. unfold push_and_verify.
    apply returns_then. intros [push_ok err'].
    destruct push_ok; cbn [negb]; [|by apply returns_ret].
    apply returns_then. intros [[staged_ok out] e].
    destruct staged_ok; [destruct (_ && _)|]; by apply returns_ret.
Qed.

(** A job that reports a failed [git init] has, after the queries of the
    sync check, only removed [.git] directories and run [git init]; that
    command failed, its error text is what the message quotes, and the
    job did nothing after it. *)
Theorem init_failure_stops W dir dry_run use_lfs h :
  let d := path_resolve W h dir in
  let r := fst (process_directory W dir dry_run use_lfs h) in
  let t := snd (process_directory W dir dry_run use_lfs h) in
  Py.startswith "git init failed" (Result.message r) = true ->
  exists t1 out err,
    t = t1 ++ [asked "git init -b main" d]
    /\ run_cmd_result true
         (subprocess_run W (h ++ t1) "git init -b main" (Some d) 300)
       = (false, out, err)
    /\ Result.message r = "git init failed: " ++ err
    /\ Result.success r = false
    /\ Forall (fun e => e ∈ queries d \/ exists target, e = Rmtree target) t1.
Proof.
  intros d r t Hmsg. subst r t.
  destruct (process_directory W dir dry_run use_lfs h) as [r t] eqn:E.
  cbn [fst snd] in *.
  rewrite process_directory_from_stage in E. unbind E.
  destruct a as [ended|[[[d' repo] result] err]].
  - apply ret_inv in E as [-> ->]. rewrite app_nil_r.
    by apply (until_stage_init W dir dry_run use_lfs h).
  - pose proof (after_stage_not_init W d' repo result err (h ++ t0)) as Hnot.
    cbv beta in Hnot. rewrite E in Hnot. cbn [fst] in Hnot. congruence.
Qed.

(** A job that ends before the first push reports neither success nor
    an empty repository. *)
Lemma until_push_early W dir dry_run use_lfs :
  returns (fun x =>
             match x with
             | inl ended =>
                 Py.startswith "Success" (Result.message ended) = false
                 /\ Py.startswith "EMPTY REPO" (Result.message ended) = false
             | inr _ => True
             end)
          (until_push W dir dry_run use_lfs).
Proof.
  unfold until_push.
  eapply (returns_bind
            (fun x =>
               match x with
               | inl ended =>
                   Py.startswith "Success" (Result.message ended) = false
                   /\ Py.startswith "EMPTY REPO" (Result.message ended) = false
               | inr _ => True
               end)).
  - unfold until_stage. cbn zeta.
    apply returns_then. intros d. apply returns_then. intros dir_exists.
    destruct (negb dir_exists); [by apply returns_ret|].
    apply returns_then. intros [synced reason].
    destruct synced; [by apply returns_ret|].
    destruct dry_run; [apply returns_then; intros; by apply returns_ret|].
    eapply returns_bind; [apply Outcome.prepare_returns|].
    intros [failed|[result err]].
    + intros (total_files & err & ->). by apply returns_ret.
    + intros _. by apply returns_ret.
  - intros [ended|[[[d repo] result] err]] Hended; [by apply returns_ret|].
    eapply returns_bind; [apply Outcome.stage_returns|].
    intros [failed|staged_files].
    + intros [_ ->]. by apply returns_ret.
    + intros _. apply returns_then. intros _. by apply returns_ret.
Qed.

Lemma until_push_resolved W dir dry_run use_lfs h d repo result err t :
  until_push W dir dry_run use_lfs h = (inr (d, repo, result, err), t) ->
  d = path_resolve W h dir.
Proof.
  unfold until_push. intros H. unbind H.
  destruct a as [ended|[[[d' repo'] result'] err']].
  { by apply ret_inv in H as [? _]. }
  apply until_stage_run in E as (-> & _).
  unbind H. destruct a as [failed|staged_files].
  { by apply ret_inv in H as [? _]. }
  unbind H. by apply ret_inv in H as [[= <- _ _ _] _].
Qed.

(** What [push_and_verify] has done when it speaks of success or of an
    empty repository. *)
Lemma push_and_verify_run W d repo result err0 h r t :
  push_and_verify W d repo result err0 h = (r, t) ->
  Py.startswith "Success" (Result.message r)
  || Py.startswith "EMPTY REPO" (Result.message r) = true ->
  exists t1 ok out err,
    t = t1 ++ [push_event d; asked verify_cmd d]
    /\ fst (fst (pushed W d (h ++ t1))) = true
    /\ run_cmd_result true
         (subprocess_run W (h ++ t1 ++ [push_event d]) verify_cmd (Some d) 300)
       = (ok, out, err)
    /\ Result.success r
       = negb (ok && (0 <? Result.total_files r)
               && (length (nonblank_lines out) =? 0)).
Proof.
  unfold push_and_verify. cbn zeta. intros H Hmsg. unbind H.
  destruct (PushRetry.push_attempts_run W d (seq 0 5) err0 h)
    as (push_ok & err & t' & E' & _ & _ & Hok & _).
  rewrite E' in E. injection E as <- <-.
  destruct push_ok; cbn [negb] in H.
  2:{ apply ret_inv in H as [<- _]. discriminate Hmsg. }
  destruct (Hok eq_refl) as (before & -> & Hpushed & _).
  rewrite bind_run_in in H. cbn zeta in H.
  rewrite <- app_assoc in H.
  destruct (run_cmd_result true _) as [[ok out] e] eqn:Everify.
  exists before, ok, out, e.
  split.
  { injection H as _ <-. rewrite <- app_assoc. cbn [app]. do 2 f_equal.
    destruct ok; [destruct (_ && _)|]; reflexivity. }
  split; [exact Hpushed|]. split; [exact Everify|].
  clear Hmsg. destruct ok.
  2:{ injection H as <- _. reflexivity. }
  destruct ((0 <? Result.total_files result)
            && (length (nonblank_lines out) =? 0)) eqn:Hblank;
    injection H as <- _; unfold ret;
    cbn [fst Result.success Result.total_files Result.set_success
         Result.set_message Result.set_repo_url andb];
    rewrite Hblank; reflexivity.
Qed.

(** A job speaks of success, or of an empty repository, only after a
    push that was accepted; the one thing it does after that push is to
    list what was pushed, and it reports success unless that listing
    ran, files had been counted, and the listing is blank. A listing
    that fails does not stand in the way of success. *)
Theorem push_is_verified W dir dry_run use_lfs h :
  let d := path_resolve W h dir in
  let r := fst (process_directory W dir dry_run use_lfs h) in
  let t := snd (process_directory W dir dry_run use_lfs h) in
  Py.startswith "Success" (Result.message r)
  || Py.startswith "EMPTY REPO" (Result.message r) = true ->
  exists t1 ok out err,
    t = t1 ++ [push_event d; asked verify_cmd d]
    /\ fst (fst (pushed W d (h ++ t1))) = true
    /\ run_cmd_result true
         (subprocess_run W (h ++ t1 ++ [push_event d]) verify_cmd (Some d) 300)
       = (ok, out, err)
    /\ Result.success r
       = negb (ok && (0 <? Result.total_files r)
               && (length (nonblank_lines out) =? 0)).
Proof.
  intros d r t Hmsg. subst r t.
  destruct (process_directory W dir dry_run use_lfs h) as [r t] eqn:E.
  cbn [fst snd] in *.
  rewrite PushRetry.process_directory_from_push in E. unbind E.
  destruct a as [ended|[[[d' repo] result] err]].
  - apply ret_inv in E as [-> _].
    pose proof (until_push_early W dir dry_run use_lfs h) as Hearly.
    cbv beta in Hearly. rewrite E0 in Hearly. cbn [fst] in Hearly.
    destruct Hearly as [H1 H2]. rewrite H1, H2 in Hmsg. discriminate.
  - apply until_push_resolved in E0 as Hd. subst d'. fold d in E.
    apply push_and_verify_run in E
      as (before & ok & out & e & -> & Hp & Hv & Hs); [|exact Hmsg].
    exists (t0 ++ before), ok, out, e. rewrite <- !app_assoc in *.
    split; [reflexivity|]. split; [exact Hp|]. split; [exact Hv|exact Hs].
Qed.

End Stops.

(** Where every command runs into its timeout the job stops at
    [git init]. *)
Lemma init_failure_stops_witness :
  exists t1,
    snd (GitMax.process_directory Samples.hanging Samples.job false true [])
    = t1 ++ [GitMax.asked "git init -b main" Samples.job]
    /\ GitMax.Result.message
         (fst (GitMax.process_directory Samples.hanging Samples.job false true []))
       = ("git init failed: Command timed out" : str).
Proof.
  edestruct (Stops.init_failure_stops Samples.hanging Samples.job false true [])
    as (t1 & out & err & Ht & _ & _ & _ & _); [vm_compute; reflexivity|].
  exists t1. split; [exact Ht|]. vm_compute. reflexivity.
Defined.

(** In a fresh directory whose push is accepted the job ends with the
    push and the listing. *)
Lemma push_is_verified_witness :
  exists t1,
    snd (GitMax.process_directory (Samples.fresh (Samples.ok_with ""))
           Samples.job false true [])
    = t1 ++ [GitMax.push_event Samples.job;
             GitMax.asked GitMax.verify_cmd Samples.job].
Proof.
  edestruct (Stops.push_is_verified (Samples.fresh (Samples.ok_with ""))
               Samples.job false true [])
    as (t1 & ok & out & err & Ht & _); [vm_compute; reflexivity|].
  exists t1. exact Ht.
Defined.

(** ** The single steps *)

Module Reasons.
Import GitMax Steps.

(** The reason that [is_already_synced] gives tells how far the check
    went: without [.git] it asks nothing; without a remote it has asked
    for the remote only; "Has changes" comes after the status query or
    after all three; and it says "Already synced", and only then answers
    yes, after all three. *)
Theorem is_already_synced_reasons W d h :
  let synced := fst (fst (is_already_synced W d h)) in
  let reason := snd (fst (is_already_synced W d h)) in
  let t := snd (is_already_synced W d h) in
  (reason = ("No .git" : str) /\ synced = false /\ t = []
   /\ path_exists W h (PathLib.joinpath d ".git") = false)
  \/ (reason = ("No remote" : str) /\ synced = false
      /\ t = [asked remote_query d])
  \/ (reason = ("Has changes" : str) /\ synced = false
      /\ (t = [asked remote_query d; asked status_query d] \/ t = queries d))
  \/ (reason = ("Already synced" : str) /\ synced = true /\ t = queries d).
Proof.
  cbv zeta. unfold is_already_synced, queries, exists_. cbn zeta.
  rewrite bind_ask.
  destruct (path_exists W h (PathLib.joinpath d ".git")); cbn [negb].
  2:{ left. done. }
  rewrite bind_run_in. cbn zeta.
  destruct (run_cmd_result true _) as [[ok1 out1] err1].
  destruct (negb ok1 || is_empty (Py.strip out1)).
  { right. left. done. }
  rewrite bind_run_in. cbn zeta.
  destruct (run_cmd_result true _) as [[ok2 out2] err2].
  destruct (ok2 && is_empty (Py.strip out2)).
  2:{ right. right. left. split; [done|]. split; [done|]. by left. }
  rewrite bind_run_in. cbn zeta.
  destruct (run_cmd_result true _) as [[ok3 out3] err3].
  destruct (ok3 && Py.str_eqb (Py.strip out3) "0").
  - right. right. right. done.
  - right. right. left. split; [done|]. split; [done|]. by right.
Qed.

End Reasons.

Module LfsSetup.
Import GitMax Effects Steps.

(** A loop that runs one command per item and drops what it answers. *)
Lemma for_each_run_in {A} W d (cmd : A -> str) (xs : list A) h :
  for_each xs (fun x => run_in W (cmd x) d ;; ret tt) h
  = (tt, map (fun x => asked (cmd x) d) xs).
Proof.
  revert h. induction xs as [|x xs IH]; intros h; cbn [for_each map].
  - reflexivity.
  - unfold bind at 1. rewrite bind_run_in. cbn zeta. unfold ret at 1.
    cbn [fst snd]. rewrite IH. reflexivity.
Qed.

Lemma bind_for_each_run_in {A B} W d (cmd : A -> str) (xs : list A)
      (k : unit -> M B) h :
  bind (for_each xs (fun x => run_in W (cmd x) d ;; ret tt)) k h
  = let t := map (fun x => asked (cmd x) d) xs in
    (fst (k tt (h ++ t)), t ++ snd (k tt (h ++ t))).
Proof.
  unfold bind at 1. rewrite for_each_run_in. cbn zeta.
  by destruct (k tt _).
Qed.

Lemma size_get_lfs_patterns fs : size (get_lfs_patterns fs) <= length fs.
Proof.
  unfold get_lfs_patterns.
  assert (H : forall (acc : gset str),
             size (foldl (fun (patterns : gset str) f =>
                            let ext := Py.lower (PathLib.suffix f) in
                            if is_empty ext then {[ f ]} ∪ patterns
                            else {[ "*" ++ ext ]} ∪ patterns) acc fs)
             <= size acc + length fs).
  { assert (Hone : forall (x : str) (acc : gset str),
               size ({[ x ]} ∪ acc) <= 1 + size acc).
    { intros x acc. rewrite size_union_alt, size_singleton.
      apply Nat.add_le_mono_l, subseteq_size, subseteq_difference_l.
      reflexivity. }
    induction fs as [|f fs IH]; intros acc; cbn [foldl length]; [lia|].
    etrans; [apply IH|]. cbn zeta.
    destruct (is_empty (Py.lower (PathLib.suffix f)));
      match goal with
      | |- context [size ({[ ?x ]} ∪ acc)] => pose proof (Hone x acc)
      end; lia. }
  specialize (H ∅). rewrite size_empty in H. exact H.
Qed.

(** [setup_git_lfs] in full: without large files it runs nothing and
    answers yes; when [git lfs install --local] fails it answers no and
    runs nothing else; otherwise it answers yes after tracking each
    pattern once and then each large file by its own path, in the order
    of the list. It never runs more than [1 + 2 * len(large_files)]
    commands, all in the directory. *)
Theorem setup_git_lfs_run W d large_files h :
  let install := asked "git lfs install --local" d in
  let installed :=
    fst (fst (run_cmd_result true
                (subprocess_run W h "git lfs install --local" (Some d) 300))) in
  let tracked :=
    map (fun pattern => lfs_track pattern d)
        (elements (get_lfs_patterns large_files))
    ++ map (fun f => lfs_track f d) large_files in
  setup_git_lfs W d large_files h
  = (if is_empty large_files then (true, [])
     else if installed then (true, install :: tracked)
          else (false, [install]))
  /\ length tracked <= 2 * length large_files
  /\ (forall f, f ∈ large_files ->
        lfs_track (pattern_of f) d ∈ tracked /\ lfs_track f d ∈ tracked).
Proof.
  intros install installed tracked. split; [|split].
  - unfold setup_git_lfs. destruct large_files as [|f fs]; [reflexivity|].
    cbn [is_empty]. rewrite bind_run_in. cbn zeta. subst installed.
    destruct (run_cmd_result true _) as [[ok out] err]. cbn [fst].
    destruct ok; cbn [negb]; [|reflexivity].
    rewrite (bind_for_each_run_in W d
               (fun x => "git lfs track " ++ dquote ++ x ++ dquote)).
    cbn zeta.
    rewrite (bind_for_each_run_in W d
               (fun x => "git lfs track " ++ dquote ++ x ++ dquote)).
    cbn zeta. unfold ret. cbn [fst snd]. rewrite app_nil_r. reflexivity.
  - subst tracked. rewrite length_app, !length_map.
    pose proof (size_get_lfs_patterns large_files) as Hsize.
    unfold size, set_size in Hsize. cbn in Hsize. lia.
  - intros f Hf. subst tracked. split; apply elem_of_app.
    + left. apply (list_elem_of_fmap_2 (fun pattern => lfs_track pattern d)).
      apply elem_of_elements. apply LargeFiles.elem_of_get_lfs_patterns.
      by exists f.
    + right. by apply (list_elem_of_fmap_2 (fun g => lfs_track g d)).
Qed.

End LfsSetup.

Module Ensure.
Import GitMax Effects Traces Steps.

Lemma bind_run_cmd {B} W cmd cwd timeout (k : bool * str * str -> M B) h :
  bind (run_cmd W cmd cwd true timeout) k h
  = let r := run_cmd_result true (subprocess_run W h cmd cwd timeout) in
    (fst (k r (h ++ [Run cmd cwd timeout])),
     Run cmd cwd timeout :: snd (k r (h ++ [Run cmd cwd timeout]))).
Proof.
  unfold bind, run_cmd. cbn zeta.
  by destruct (k _ (h ++ [Run cmd cwd timeout])).
Qed.

Lemma bind_eq {A B} (m : M A) (k : A -> M B) h a t :
  m h = (a, t) ->
  bind m k h = (fst (k a (h ++ t)), t ++ snd (k a (h ++ t))).
Proof. intros E. unfold bind. rewrite E. by destruct (k a (h ++ t)). Qed.

Lemma create_attempts_emits W repo attempts :
  emits (fun e => e = Run (gh_create_cmd repo) None 60 \/ exists n, e = Sleep n)
        (create_attempts W repo attempts).
Proof.
  induction attempts as [|attempt rest IH]; cbn [create_attempts].
  - apply emits_ret.
  - apply emits_bind; [apply emits_run_cmd; by left|].
    intros [[create_ok out] create_err]. destruct create_ok.
    { apply emits_bind; [apply emits_emit; right; by eexists|].
      intros _. apply emits_ret. }
    destruct (Py.contains "already exists" (Py.lower create_err));
      [apply emits_ret|].
    apply emits_bind; [apply emits_emit; right; by eexists|].
    intros _. exact IH.
Qed.

(** [ensure_github_repo] always answers yes, also when every attempt to
    create the repository has failed. It first views the repository;
    when that succeeds it does nothing else; when it fails, what follows
    are attempts to create the repository and sleeps, starting with an
    attempt. *)
Theorem ensure_github_repo_always_true W repo h :
  let view := Run (gh_view_cmd repo) None 30 in
  let create := Run (gh_create_cmd repo) None 60 in
  let viewed :=
    fst (fst (run_cmd_result true
                (subprocess_run W h (gh_view_cmd repo) None 30))) in
  fst (ensure_github_repo W repo h) = true
  /\ exists rest,
       snd (ensure_github_repo W repo h) = view :: rest
       /\ (if viewed then rest = [] else head rest = Some create)
       /\ Forall (fun e => e = create \/ exists n, e = Sleep n) rest.
Proof.
  intros view create viewed. unfold ensure_github_repo.
  rewrite bind_run_cmd. cbn zeta. subst viewed.
  destruct (run_cmd_result true _) as [[ok out] err]. cbn [fst snd].
  destruct ok; cbn [negb].
  { split; [reflexivity|]. exists []. done. }
  pose proof (create_attempts_emits W repo (seq 0 3) (h ++ [view])) as Hloop.
  assert (Hfirst : head (snd (create_attempts W repo (seq 0 3) (h ++ [view])))
                   = Some create).
  { cbn [seq create_attempts]. by rewrite bind_run_cmd. }
  destruct (create_attempts W repo (seq 0 3) (h ++ [view]))
    as [returned t] eqn:Eloop.
  rewrite (bind_eq _ _ _ _ _ Eloop).
  cbn [snd] in Hloop, Hfirst.
  destruct returned.
  - unfold ret. cbn [fst snd]. rewrite app_nil_r.
    split; [reflexivity|]. exists t. done.
  - rewrite bind_run_cmd. cbn zeta. unfold sleep. rewrite bind_emit.
    unfold ret. cbn [fst snd].
    split; [reflexivity|]. eexists. split; [reflexivity|]. split.
    + destruct t; [done|]. exact Hfirst.
    + apply Forall_app. split; [exact Hloop|].
      apply Forall_cons. split; [by left|].
      apply Forall_cons. split; [right; by eexists|]. constructor.
Qed.

End Ensure.

(** ** What the pool hands back *)

Module PoolResults.
Import GitMax.

Lemma process_directory_path W dir dry_run use_lfs h :
  Result.path (fst (process_directory W dir dry_run use_lfs h)) = dir.
Proof. by destruct (Outcome.process_directory_ends W dir dry_run use_lfs h). Qed.

Lemma step_result W dry_run use_lfs st d h r st' t :
  worker_task W d st dry_run use_lfs h = ((r, st'), t) ->
  Result.path r = d
  /\ st' = Stats.increment_completed st (Result.success r)
             (Z.of_nat (Result.lfs_files r)).
Proof.
  intros Htask. apply Pool.worker_task_stats in Htask as [-> Hrun].
  split; [|reflexivity].
  pose proof (process_directory_path W d dry_run use_lfs h) as Hpath.
  rewrite <- Hrun in Hpath. exact Hpath.
Qed.


(** The counts of a list of results with one more in any place. *)
Lemma counts_insert (before after : list Result.t) r :
  Executor.succeeded (before ++ r :: after)
  = (Executor.succeeded (before ++ after)
     + if Result.success r then 1 else 0)%Z
  /\ Executor.failed (before ++ r :: after)
     = (Executor.failed (before ++ after)
        + if Result.success r then 0 else 1)%Z
  /\ Executor.large_files (before ++ r :: after)
     = (Executor.large_files (before ++ after)
        + Z.of_nat (Result.lfs_files r))%Z
  /\ length (before ++ r :: after) = S (length (before ++ after)).
Proof.
  unfold Executor.succeeded, Executor.failed, Executor.large_files.
  rewrite !List.filter_app, !map_app, !list_sum_app, !length_app.
  cbn [List.filter map length].
  change (list_sum (Result.lfs_files r :: map Result.lfs_files after))
    with (Result.lfs_files r + list_sum (map Result.lfs_files after)).
  destruct (Result.success r); cbn [negb length]; repeat split; lia.
Qed.

(** What holds of the counters while the pool works. *)
Lemma executor_counted W dry_run use_lfs dirs s :
  rtc (Executor.step W dry_run use_lfs) (Executor.start dirs) s ->
  let counted := Executor.results s ++ Executor.completed s in
  Stats.success (Executor.stats s) = Executor.succeeded counted
  /\ Stats.failed (Executor.stats s) = Executor.failed counted
  /\ Stats.lfs_files (Executor.stats s) = Executor.large_files counted
  /\ Stats.completed (Executor.stats s) = Z.of_nat (length counted)
  /\ length counted + length (Executor.pending s) = length dirs.
Proof.
  intros Hrun.
  eapply (rtc_ind_r
            (fun s =>
               let counted := Executor.results s ++ Executor.completed s in
               Stats.success (Executor.stats s) = Executor.succeeded counted
               /\ Stats.failed (Executor.stats s) = Executor.failed counted
               /\ Stats.lfs_files (Executor.stats s)
                  = Executor.large_files counted
               /\ Stats.completed (Executor.stats s)
                  = Z.of_nat (length counted)
               /\ length counted + length (Executor.pending s) = length dirs)
            (Executor.start dirs)); [|clear s Hrun|exact Hrun].
  { cbn. repeat split; lia. }
  intros y z _ Hstep IH.
  destruct Hstep as [st before d after done rs h r st' t Htask
                    |st pend before r after rs];
    cbn [Executor.results Executor.completed Executor.stats Executor.pending]
      in *; cbv zeta in *.
  - apply step_result in Htask as [_ ->].
    destruct IH as (Hs & Hf & Hl & Hc & Hn).
    rewrite app_assoc.
    destruct (counts_insert (rs ++ done) [] r) as (Es & Ef & El & En).
    rewrite app_nil_r in Es, Ef, El, En. rewrite Es, Ef, El, En.
    cbn [Stats.increment_completed Stats.success Stats.failed
         Stats.lfs_files Stats.completed].
    rewrite !length_app in *. cbn [length] in *.
    destruct (Result.success r); repeat split; lia.
  - destruct IH as (Hs & Hf & Hl & Hc & Hn).
    destruct (counts_insert (rs ++ before) after r) as (Es & Ef & El & En).
    destruct (counts_insert rs (before ++ after) r) as (Es' & Ef' & El' & En').
    rewrite <- !app_assoc in Es, Ef, El, En.
    replace ((rs ++ [r]) ++ before ++ after)
      with (rs ++ r :: before ++ after) by (by rewrite <- app_assoc).
    rewrite Es', Ef', El', En'. rewrite Es in Hs. rewrite Ef in Hf.
    rewrite El in Hl. rewrite En in Hc, Hn.
    repeat split; lia.
Qed.

(** The pool can always finish: every job returns and every result is
    collected. *)
Lemma executor_runs W dry_run use_lfs s :
  exists s',
    rtc (Executor.step W dry_run use_lfs) s s'
    /\ Executor.pending s' = [] /\ Executor.completed s' = [].
Proof.
  destruct s as [st pend done rs]. revert st done rs.
  induction pend as [|d pend IH]; intros st done rs.
  - revert rs. induction done as [|r done IHd]; intros rs.
    + eexists. split; [apply rtc_refl|done].
    + destruct (IHd (rs ++ [r])) as (s' & Hrun & Hdone).
      exists s'. split; [|exact Hdone].
      eapply rtc_l; [|exact Hrun].
      apply (Executor.main_collects W dry_run use_lfs st [] [] r done rs).
  - destruct (Pool.worker_task_total W d st dry_run use_lfs [])
      as (r & st' & t & Htask).
    destruct (IH st' (done ++ [r]) rs) as (s' & Hrun & Hdone).
    exists s'. split; [|exact Hdone].
    eapply rtc_l; [|exact Hrun].
    apply (Executor.worker_returns W dry_run use_lfs st [] d pend done rs
             [] r st' t Htask).
Qed.

(** While the pool works the counters count the jobs whose worker has
    returned, collected or not: [success] and [failed] are the numbers
    of their results by flag, [lfs_files] is the sum of their large
    files, and [completed] is their number, so the counters can be ahead
    of the results collected but never behind. Once every job has
    returned and every result is collected the counters agree with the
    results, one per directory; such a run exists for every list of
    directories; and right after the first worker has returned the
    counters show one job while no result is collected yet. *)
Theorem counters_agree_with_results W dry_run use_lfs dirs :
  (forall s,
     rtc (Executor.step W dry_run use_lfs) (Executor.start dirs) s ->
     let counted := Executor.results s ++ Executor.completed s in
     Stats.success (Executor.stats s) = Executor.succeeded counted
     /\ Stats.failed (Executor.stats s) = Executor.failed counted
     /\ Stats.lfs_files (Executor.stats s) = Executor.large_files counted
     /\ (Z.of_nat (length (Executor.results s))
         <= Stats.completed (Executor.stats s))%Z
     /\ (Executor.pending s = [] -> Executor.completed s = [] ->
         Stats.success (Executor.stats s)
         = Executor.succeeded (Executor.results s)
         /\ Stats.failed (Executor.stats s)
            = Executor.failed (Executor.results s)
         /\ Stats.lfs_files (Executor.stats s)
            = Executor.large_files (Executor.results s)
         /\ length (Executor.results s) = length dirs))
  /\ (exists s,
        rtc (Executor.step W dry_run use_lfs) (Executor.start dirs) s
        /\ Executor.pending s = [] /\ Executor.completed s = [])
  /\ (forall d rest,
        dirs = d :: rest ->
        exists s,
          rtc (Executor.step W dry_run use_lfs) (Executor.start dirs) s
          /\ Executor.results s = []
          /\ Stats.completed (Executor.stats s) = 1%Z).
Proof.
  split; [|split].
  - intros s Hrun counted.
    destruct (executor_counted W dry_run use_lfs dirs s Hrun)
      as (Hs & Hf & Hl & Hc & Hn).
    fold counted in Hs, Hf, Hl, Hc, Hn.
    split; [exact Hs|]. split; [exact Hf|]. split; [exact Hl|].
    split; [rewrite Hc; subst counted; rewrite length_app; lia|].
    intros Hpending Hcollected. subst counted.
    rewrite Hpending, Hcollected, app_nil_r in *. cbn [length] in Hn.
    repeat split; try assumption. lia.
  - apply executor_runs.
  - intros d rest ->.
    destruct (Pool.worker_task_total W d
                (Stats.make (Z.of_nat (length (d :: rest))) 0 0 0 0)
                dry_run use_lfs [])
      as (r & st' & t & Htask).
    eexists. split.
    + apply rtc_once.
      apply (Executor.worker_returns W dry_run use_lfs _ [] d rest [] []
               [] r st' t Htask).
    + split; [reflexivity|]. cbn [Executor.stats].
      apply step_result in Htask as [_ ->]. reflexivity.
Qed.

End PoolResults.


(** ** [scan_directories] *)

Module ScanFacts.
Import GitMax Scan SplitFacts.

Lemma dir_tree_ind' (P : dir_tree -> Prop) :
  (forall name subdirs, Forall P subdirs -> P (Dir name subdirs)) ->
  forall t, P t.
Proof.
  intros Hdir. fix IH 1. intros [name subdirs]. apply Hdir.
  induction subdirs as [|sub rest IHrest]; constructor; [apply IH|exact IHrest].
Qed.

Lemma plain_below_Forall name subdirs :
  plain_below (Dir name subdirs)
  <-> Forall (fun sub => plain (name_of sub) /\ plain_below sub) subdirs.
Proof.
  cbn [plain_below]. induction subdirs as [|sub rest IH].
  - split; [constructor|done].
  - split.
    + intros (Hn & Hb & Hrest). constructor; [done|]. by apply IH.
    + intros H. inversion H as [|? ? [Hn Hb] Hrest]; subst.
      split; [done|]. split; [done|]. by apply IH.
Qed.

(** Splitting and joining at one character. *)
Lemma split_from_segment c seg more cur :
  c ∉ seg ->
  Py.split_from [c] 0 cur (seg ++ c :: more)
  = (reverse cur ++ seg) :: Py.split_from [c] 0 [] more.
Proof.
  revert cur. induction seg as [|x seg IH]; intros cur Hc.
  - cbn [app Py.split_from Py.startswith length].
    rewrite (proj2 (char_eqb_eq c c) eq_refl). cbn [andb Nat.sub].
    by rewrite app_nil_r.
  - apply not_elem_of_cons in Hc as [Hx Hc].
    cbn [app Py.split_from Py.startswith].
    rewrite (proj2 (char_eqb_neq c x) Hx). cbn [andb].
    rewrite (IH _ Hc), reverse_cons, <- app_assoc. done.
Qed.

Lemma split_join c segments :
  segments <> [] -> Forall (fun seg => c ∉ seg) segments ->
  Py.split [c] (Py.join [c] segments) = segments.
Proof.
  intros Hne Hall. unfold Py.split.
  induction Hall as [|seg rest Hseg Hrest IH]; [done|]. clear Hne.
  destruct rest as [|next rest].
  - cbn [Py.join]. rewrite split_from_no_sep; [done|].
    by apply contains_char_false.
  - change (Py.join [c] (seg :: next :: rest))
      with (seg ++ c :: Py.join [c] (next :: rest)).
    rewrite split_from_segment by done. cbn [reverse app]. f_equal.
    by apply IH.
Qed.

Lemma join_snoc sep segments seg :
  segments <> [] ->
  Py.join sep (segments ++ [seg]) = Py.join sep segments ++ sep ++ seg.
Proof.
  induction segments as [|a rest IH]; [done|]. intros _.
  destruct rest as [|b rest]; [done|].
  change (Py.join sep ((a :: b :: rest) ++ [seg]))
    with (a ++ sep ++ Py.join sep ((b :: rest) ++ [seg])).
  rewrite IH by done. cbn [Py.join]. by rewrite <- !app_assoc.
Qed.

Lemma last_app_nonempty {A} (l1 l2 : list A) d :
  l2 <> [] -> List.last (l1 ++ l2) d = List.last l2 d.
Proof.
  intros Hne. induction l1 as [|a l1 IH]; [done|].
  cbn [app]. destruct (l1 ++ l2) eqn:E; [|exact IH].
  by apply app_eq_nil in E as [_ ->].
Qed.

Lemma last_join c segments :
  segments <> [] -> Forall (fun seg => seg <> []) segments ->
  List.last (Py.join [c] segments) c
  = List.last (List.last segments []) c.
Proof.
  intros Hne Hall.
  induction Hall as [|seg rest Hseg Hrest IH]; [done|]. clear Hne.
  destruct rest as [|next rest]; [done|].
  change (Py.join [c] (seg :: next :: rest))
    with (seg ++ [c] ++ Py.join [c] (next :: rest)).
  change (List.last (seg :: next :: rest) [])
    with (List.last (next :: rest) []).
  rewrite <- IH by done. rewrite app_assoc.
  assert (Hjoin : Py.join [c] (next :: rest) <> []).
  { inversion Hrest as [|? ? Hnext _]; subst.
    destruct rest; cbn [Py.join]; [done|]. by destruct next. }
  by rewrite last_app_nonempty.
Qed.

(** Absolute paths made of plain segments. *)
Lemma join_plain_head segments :
  Forall plain segments -> Py.startswith "/" (Py.join "/" segments) = false.
Proof.
  intros Hall. destruct Hall as [|seg rest (Hne & _ & Hslash) _]; [done|].
  destruct seg as [|x seg]; [done|].
  apply not_elem_of_cons in Hslash as [Hx _].
  assert (E : Py.join "/" ((x :: seg) :: rest)
              = x :: (seg ++ match rest with
                             | [] => []
                             | _ => "/" ++ Py.join "/" rest
                             end)).
  { destruct rest; cbn [Py.join app]; by rewrite ?app_nil_r. }
  rewrite E. cbn [Py.startswith list_ascii_of_string].
  by rewrite (proj2 (char_eqb_neq "/" x) Hx).
Qed.

Lemma root_abs_path segments :
  Forall plain segments -> PathLib.root (abs_path segments) = ["/" : str].
Proof.
  intros Hall. unfold PathLib.root, abs_path.
  change (Py.startswith "//" ("/" ++ Py.join "/" segments))
    with (Py.startswith "/" (Py.join "/" segments)).
  by rewrite join_plain_head.
Qed.

Lemma keep_plain segments :
  Forall plain segments ->
  List.filter (fun x => negb (Py.str_eqb x "" || Py.str_eqb x ".")) segments
  = segments.
Proof.
  induction 1 as [|seg rest (Hne & Hdot & _) _ IH]; [done|].
  cbn [List.filter].
  rewrite (proj2 (str_eqb_neq seg "") Hne), (proj2 (str_eqb_neq seg ".") Hdot).
  cbn [orb negb]. by rewrite IH.
Qed.

Lemma tail_abs_path segments :
  Forall plain segments -> PathLib.tail (abs_path segments) = segments.
Proof.
  intros Hall. unfold PathLib.tail, abs_path, Py.split.
  change (list_ascii_of_string "/") with ["/"%char].
  change (["/"%char] ++ Py.join ["/"%char] segments)
    with ([] ++ "/"%char :: Py.join ["/"%char] segments).
  rewrite split_from_segment by apply not_elem_of_nil.
  cbn [reverse app List.filter].
  change (Py.str_eqb [] "") with true. cbn [orb negb].
  destruct segments as [|seg rest]; [done|].
  change (Py.split_from ["/"%char] 0 [] (Py.join ["/"%char] (seg :: rest)))
    with (Py.split ["/"%char] (Py.join ["/"%char] (seg :: rest))).
  rewrite split_join; [by apply keep_plain|done|].
  eapply Forall_impl; [exact Hall|]. by intros s (_ & _ & Hs).
Qed.

Lemma parts_abs_path segments :
  Forall plain segments ->
  PathLib.parts (abs_path segments) = ("/" : str) :: segments.
Proof.
  intros Hall. unfold PathLib.parts.
  by rewrite root_abs_path, tail_abs_path.
Qed.

Lemma path_str_abs_path segments :
  Forall plain segments -> path_str (abs_path segments) = abs_path segments.
Proof.
  intros Hall. unfold path_str.
  by rewrite root_abs_path, tail_abs_path.
Qed.

Lemma os_path_join_abs_path segments name :
  Forall plain segments -> plain name ->
  os_path_join (abs_path segments) name = abs_path (segments ++ [name]).
Proof.
  intros Hall Hname. unfold os_path_join, abs_path.
  destruct segments as [|seg rest]; [done|].
  assert (Hjoin : Py.join "/" (seg :: rest) <> []).
  { pose proof Hall as Hseg. apply Forall_cons in Hseg as [(Hne & _) _].
    destruct rest; cbn [Py.join]; by destruct seg. }
  set (segs := seg :: rest) in *.
  rewrite last_app_nonempty by exact Hjoin.
  change (list_ascii_of_string "/") with ["/"%char].
  rewrite last_join.
  2:{ done. }
  2:{ eapply Forall_impl; [exact Hall|]. by intros s (Hs & _). }
  assert (Hlast : plain (List.last segs [])).
  { rewrite Forall_forall in Hall. apply Hall, list_elem_of_In.
    subst segs. clear. revert seg. induction rest as [|a rest IH]; intros seg.
    - by left.
    - right. apply IH. }
  destruct Hlast as (Hne & _ & Hslash).
  assert (Hchar : List.last (List.last segs []) "/"%char <> "/"%char).
  { intros E. apply Hslash. rewrite <- E at 1. apply list_elem_of_In.
    destruct (List.last segs []) as [|x l] eqn:El; [done|].
    clear -l. revert x. induction l as [|y l IH]; intros x.
    - by left.
    - right. apply IH. }
  rewrite (proj2 (char_eqb_neq _ _) Hchar).
  rewrite join_snoc by done. by rewrite <- !app_assoc.
Qed.

(** What the walk from the directory [rs ++ pre] below the root [rs]
    records. *)
Lemma walk_records rs max_depth t :
  Forall plain rs ->
  forall pre, Forall plain pre -> plain_below t ->
  forall p,
    p ∈ walk (Z.of_nat (length (PathLib.parts (abs_path rs)))) max_depth
          (abs_path (rs ++ pre)) t
    <-> exists segments,
          descends t segments /\ ((".git" : str) ∉ segments)
          /\ (Z.of_nat (length pre + length segments) <= max_depth)%Z
          /\ p = abs_path (rs ++ pre ++ segments).
Proof.
  intros Hrs.
  remember (Z.of_nat (length (PathLib.parts (abs_path rs)))) as root_depth
    eqn:Hroot.
  rewrite parts_abs_path in Hroot by done. cbn [length] in Hroot.
  induction t as [name subdirs IH] using dir_tree_ind'.
  intros pre Hpre Hbelow p. cbn [walk].
  assert (Hhere : Forall plain (rs ++ pre)) by (by apply Forall_app).
  rewrite parts_abs_path by done. cbn [length]. rewrite length_app.
  replace (Z.of_nat (S (length rs + length pre)) - root_depth)%Z
    with (Z.of_nat (length pre)) by lia.
  apply plain_below_Forall in Hbelow.
  rewrite Forall_forall in IH. rewrite Forall_forall in Hbelow.
  destruct (Z.gtb_spec (Z.of_nat (length pre)) max_depth) as [Hdeep|Hdepth].
  { split; [intros H; by apply elem_of_nil in H|].
    intros (segments & _ & _ & Hle & _). lia. }
  rewrite path_str_abs_path by done. rewrite elem_of_cons. split.
  - intros [->|Hin].
    + exists []. split; [constructor|]. split; [apply not_elem_of_nil|].
      split; [cbn [length]; lia|]. by rewrite app_nil_r.
    + apply list_elem_of_In, in_flat_map in Hin as (sub & Hsub & Hp).
      apply list_elem_of_In in Hsub.
      destruct (Hbelow sub Hsub) as [Hname Hsubtree].
      destruct (Py.str_eqb (name_of sub) ".git") eqn:Hgit; [done|].
      apply str_eqb_neq in Hgit.
      rewrite os_path_join_abs_path, <- app_assoc in Hp by done.
      apply list_elem_of_In in Hp.
      apply (IH sub Hsub (pre ++ [name_of sub])) in Hp
          as (segments & Hdesc & Hnogit & Hle & ->);
        [|apply Forall_app; split; [done|by constructor]|done].
      exists (name_of sub :: segments).
      split; [by constructor|].
      split; [by apply not_elem_of_cons|].
      split; [rewrite length_app in Hle; cbn [length] in *; lia|].
      by rewrite <- app_assoc.
  - intros (segments & Hdesc & Hnogit & Hle & ->).
    inversion Hdesc as [|? ? sub rest Hsub Hrest]; subst.
    + left. by rewrite app_nil_r.
    + right. apply not_elem_of_cons in Hnogit as [Hgit Hnogit].
      destruct (Hbelow sub Hsub) as [Hname Hsubtree].
      apply list_elem_of_In, in_flat_map. exists sub.
      split; [by apply list_elem_of_In|].
      rewrite (proj2 (str_eqb_neq (name_of sub) ".git")) by done.
      rewrite os_path_join_abs_path, <- app_assoc by done.
      apply list_elem_of_In.
      apply (IH sub Hsub (pre ++ [name_of sub]));
        [apply Forall_app; split; [done|by constructor]|done|].
      exists rest. split; [done|]. split; [done|].
      split; [rewrite length_app; cbn [length] in *; lia|].
      by rewrite <- app_assoc.
Qed.

(** A scan with a negative depth, or of a root that cannot be listed,
    finds nothing, not even the root; every other scan starts with the
    root itself. *)
Theorem scan_directories_root root_path tree max_depth :
  head (scan_directories root_path tree max_depth)
  = match tree with
    | Some _ => if (0 <=? max_depth)%Z then Some (path_str root_path) else None
    | None => None
    end.
Proof.
  destruct tree as [[name subdirs]|]; [|done].
  cbn [scan_directories walk]. rewrite Z.sub_diag.
  destruct (Z.gtb_spec 0 max_depth), (Z.leb_spec 0 max_depth);
    try lia; reflexivity.
Qed.

(** Below an absolute root the scan records exactly the directories that
    are reached from the root through at most [max_depth] names none of
    which is [.git]: a [.git] directory and everything below it is left
    out, a directory at depth [max_depth] is still recorded, and nothing
    deeper is. *)
Theorem scan_directories_records rs t max_depth p :
  Forall plain rs -> plain_below t ->
  p ∈ scan_directories (abs_path rs) (Some t) max_depth
  <-> exists segments,
        descends t segments /\ ((".git" : str) ∉ segments)
        /\ (Z.of_nat (length segments) <= max_depth)%Z
        /\ p = abs_path (rs ++ segments).
Proof.
  intros Hrs Hbelow. unfold scan_directories.
  pose proof (walk_records rs max_depth t Hrs [] (List.Forall_nil _) Hbelow p) as H.
  rewrite app_nil_r in H. exact H.
Qed.

End ScanFacts.

(** The sources of a project are found down to the given depth. *)
Lemma scan_directories_records_witness :
  ("/srv/project/src/lib" : str)
    ∈ Scan.scan_directories "/srv/project" (Some Cases.project) 2.
Proof.
  assert (Hnames : forall name : str,
             name ∈ ["srv" : str; "project" : str; ".git" : str;
                     "objects" : str; "src" : str; "lib" : str;
                     "deep" : str; "docs" : str] ->
             Scan.plain name).
  { intros name Hname.
    repeat (apply elem_of_cons in Hname as [->|Hname];
            [repeat split; try discriminate;
             intros H; repeat (apply elem_of_cons in H as [H|H]; [discriminate|]);
             by apply elem_of_nil in H|]).
    by apply elem_of_nil in Hname. }
  apply (ScanFacts.scan_directories_records
           ["srv" : str; "project" : str] Cases.project 2).
  - repeat constructor; apply Hnames; set_solver.
  - cbn. repeat split; try (apply Hnames; set_solver).
  - exists ["src" : str; "lib" : str].
    split; [|split; [|split; [cbn; lia|reflexivity]]].
    + apply (Scan.descends_down _ _
               (Scan.Dir "src" [Scan.Dir "lib" [Scan.Dir "deep" []]])).
      { right. left. }
      apply (Scan.descends_down _ _ (Scan.Dir "lib" [Scan.Dir "deep" []])).
      { left. }
      constructor.
    + intros H. repeat (apply elem_of_cons in H as [H|H]; [discriminate|]).
      by apply elem_of_nil in H.
Defined.

(** ** Reading a list of directories *)

Module ListFileMore.
Import GitMax TextFile.

(** What one line that is no one-liner contributes. *)
Lemma plain_line line :
  Py.startswith "gitit " (Py.strip line) = false ->
  read_dirs_from_file [line]
  = if negb (is_empty (Py.strip line)) && negb (Py.startswith "#" (Py.strip line))
    then [Py.strip line] else [].
Proof.
  intros Hplain. unfold read_dirs_from_file. cbn [foldl]. rewrite Hplain.
  by destruct (_ && _).
Qed.

(** The lines of a list file are read one by one: what a file yields is
    what its first part yields followed by what the rest yields, so no
    line changes the reading of another and nothing is deduplicated. *)
Theorem read_dirs_from_file_app lines1 lines2 :
  read_dirs_from_file (lines1 ++ lines2)
  = read_dirs_from_file lines1 ++ read_dirs_from_file lines2.
Proof.
  rewrite !(ListFile.read_dirs_from_file_lines (_ ++ _)),
    (ListFile.read_dirs_from_file_lines lines1),
    (ListFile.read_dirs_from_file_lines lines2).
  by rewrite map_app, concat_app.
Qed.

(** A file without one-liners yields its lines stripped of surrounding
    white space, in their order and with their repetitions, without the
    blank lines and without the lines that start with [#] after
    stripping. *)
Theorem read_dirs_from_file_plain lines :
  Forall (fun line => Py.startswith "gitit " (Py.strip line) = false) lines ->
  read_dirs_from_file lines
  = List.filter (fun line => negb (is_empty line) && negb (Py.startswith "#" line))
                (map Py.strip lines).
Proof.
  intros Hplain. rewrite ListFile.read_dirs_from_file_lines.
  induction Hplain as [|line rest Hline _ IH]; [reflexivity|].
  cbn [map concat List.filter]. rewrite IH, (plain_line line Hline).
  by destruct (_ && _).
Qed.

(** Reading the lines of a text. *)
Lemma lines_from_last cur s :
  ascii_of_nat 10 ∉ s ->
  lines_from cur s
  = match reverse cur ++ s with [] => [] | line => [line] end.
Proof.
  revert cur. induction s as [|c s IH]; intros cur Hs.
  - cbn [lines_from]. rewrite app_nil_r. destruct cur as [|x cur]; [done|].
    rewrite reverse_cons. by destruct (reverse cur).
  - apply not_elem_of_cons in Hs as [Hc Hs]. cbn [lines_from].
    rewrite (proj2 (SplitFacts.char_eqb_neq c _)) by done.
    rewrite (IH _ Hs), reverse_cons, <- app_assoc. done.
Qed.

Lemma lines_from_line cur line rest :
  ascii_of_nat 10 ∉ line ->
  lines_from cur (line ++ ascii_of_nat 10 :: rest)
  = (reverse cur ++ line ++ [ascii_of_nat 10]) :: lines_from [] rest.
Proof.
  revert cur. induction line as [|c line IH]; intros cur Hline.
  - cbn [app lines_from].
    rewrite (proj2 (SplitFacts.char_eqb_eq _ _) eq_refl).
    by rewrite reverse_cons.
  - apply not_elem_of_cons in Hline as [Hc Hline]. cbn [app lines_from].
    rewrite (proj2 (SplitFacts.char_eqb_neq c _)) by done.
    rewrite (IH _ Hline), reverse_cons, <- app_assoc. done.
Qed.

(** A listable path on a line of its own, with or without the newline,
    is read as itself. *)
Lemma listable_line p ending :
  listable p -> ending = [] \/ ending = [ascii_of_nat 10] ->
  read_dirs_from_file [p ++ ending] = [p].
Proof.
  intros ((Hne & Hstrip & _) & _ & _ & Hhash & Hgitit) Hending.
  assert (Hline : Py.strip (p ++ ending) = p).
  { destruct Hending as [->| ->]; [by rewrite app_nil_r|].
    unfold Py.strip in *.
    assert (Hhead : forall c, head p = Some c -> Py.isspace c = false).
    { intros c Hc. apply (PyFacts.strip_by_head Py.isspace p). by rewrite Hstrip. }
    assert (Hlast : forall c, last p = Some c -> Py.isspace c = false).
    { intros c Hc. apply (PyFacts.strip_by_last Py.isspace p). by rewrite Hstrip. }
    unfold Py.strip_by.
    assert (Py.lstrip_by Py.isspace (p ++ [ascii_of_nat 10])
            = p ++ [ascii_of_nat 10]) as ->.
    { destruct p as [|x p]; [done|]. apply PyFacts.lstrip_by_keep.
      by apply Hhead. }
    unfold Py.rstrip_by. rewrite reverse_app. cbn [reverse app].
    change (reverse [ascii_of_nat 10]) with [ascii_of_nat 10].
    cbn [app Py.lstrip_by].
    change (Py.isspace (ascii_of_nat 10)) with true. cbn iota.
    change (reverse (Py.lstrip_by Py.isspace (reverse p)))
      with (Py.rstrip_by Py.isspace p).
    by apply PyFacts.rstrip_by_id. }
  rewrite plain_line; rewrite Hline; [|exact Hgitit].
  rewrite Hhash. by destruct p.
Qed.

Lemma read_written paths :
  Forall listable paths ->
  read_dirs_from_file (readlines (Py.join newline paths)) = paths.
Proof.
  unfold readlines.
  induction 1 as [|p rest Hp Hrest IH]; [reflexivity|].
  pose proof Hp as (_ & Hnl & _).
  destruct rest as [|q rest].
  - cbn [Py.join]. rewrite lines_from_last by done. rewrite reverse_nil.
    cbn [app].
    pose proof (listable_line p [] Hp (or_introl eq_refl)) as Hread.
    rewrite app_nil_r in Hread.
    destruct p; [by destruct Hp as ((Hne & _) & _)|exact Hread].
  - change (Py.join newline (p :: q :: rest))
      with (p ++ ascii_of_nat 10 :: Py.join newline (q :: rest)).
    rewrite lines_from_line by done. rewrite reverse_nil. cbn [app].
    rewrite ListFile.read_dirs_from_file_lines. cbn [map concat].
    rewrite <- ListFile.read_dirs_from_file_lines, IH.
    rewrite listable_line; [done|done|by right].
Qed.

(** What [convert_oneliner] writes, [read_dirs_from_file] reads back:
    a list file written from a one-liner yields exactly the unique
    paths, provided every one of them is listable. A path that starts
    with [#], or with the marker of a one-liner, or that holds a line
    break would not come back. *)
Theorem written_list_is_read content :
  Forall listable (ConvertOneliner.convert_oneliner content) ->
  read_dirs_from_file (readlines (ConvertOneliner.written content))
  = ConvertOneliner.convert_oneliner content.
Proof. intros Hpaths. unfold ConvertOneliner.written. by apply read_written. Qed.

End ListFileMore.

(** A list with a comment, a blank line, padding and a repetition. *)
Lemma read_dirs_from_file_plain_witness :
  GitMax.read_dirs_from_file
    ["/srv/a" ++ GitMax.newline; "# skipped" ++ GitMax.newline; GitMax.newline;
     "  /srv/b  " ++ GitMax.newline; "/srv/a" : str]
  = ["/srv/a" : str; "/srv/b" : str; "/srv/a" : str].
Proof.
  rewrite ListFileMore.read_dirs_from_file_plain.
  - vm_compute. reflexivity.
  - repeat constructor.
Defined.

(** A one-liner with a repetition, converted and read back. *)
Lemma written_list_is_read_witness :
  GitMax.read_dirs_from_file
    (TextFile.readlines
       (ConvertOneliner.written "gitit /srv/a; gitit /srv/b; gitit /srv/a"))
  = ["/srv/a" : str; "/srv/b" : str].
Proof.
  assert (E : ConvertOneliner.convert_oneliner
                "gitit /srv/a; gitit /srv/b; gitit /srv/a"
              = ["/srv/a" : str; "/srv/b" : str]).
  { unfold ConvertOneliner.convert_oneliner.
    rewrite Converter.unique_first_occurrences. vm_compute. reflexivity. }
  rewrite ListFileMore.written_list_is_read; [exact E|].
  rewrite E. unfold TextFile.listable, ConvertOneliner.well_formed.
  apply (bool_decide_unpack _). vm_compute. reflexivity.
Defined.

(** ** Names that are already repository names *)

Module RepoNameFixed.
Import GitMax RepoNameFacts.

Lemma valid_plain c : valid_char c = true -> c <> "/"%char /\ c <> "."%char.
Proof.
  destruct c as [[] [] [] [] [] [] [] []]; vm_compute; intros H;
    try discriminate H; split; discriminate.
Qed.

Lemma spaced_char c :
  valid_char c = true ->
  let c' := if Py.char_eqb c "-" then " "%char else c in
  (if Py.char_eqb (Py.lower_char c') " " then "-"%char else Py.lower_char c') = c
  /\ c' <> "/"%char /\ c' <> "."%char.
Proof.
  destruct c as [[] [] [] [] [] [] [] []]; vm_compute; intros H;
    try discriminate H; (split; [reflexivity|split; discriminate]).
Qed.

(** What is left to do once the last segment is known to turn into
    [name] by lowering and dashing. *)
Lemma cleaned_fixed path name :
  Py.replace_char " " "-" (Py.lower (PathLib.name path)) = name ->
  Forall (fun c => valid_char c = true) name ->
  Py.contains "--" name = false ->
  head name <> Some dash -> last name <> Some dash ->
  name <> [] -> length name <= 100 ->
  path_to_repo_name path = name.
Proof.
  intros Hname Hvalid Hrun Hhead Hlast Hne Hlen.
  rewrite path_to_repo_name_unfold.
  assert (Hclean : cleaned path = name).
  { unfold cleaned. rewrite Hname, re_sub_dashes_fixed by done.
    unfold re_sub_invalid. rewrite PyFacts.filter_all by done.
    apply PyFacts.strip_by_id; intros c Hc; rewrite one_of_dash;
      apply SplitFacts.char_eqb_neq; congruence. }
  rewrite Hclean. unfold truncated.
  rewrite (proj2 (Nat.ltb_ge 100 (length name))) by done.
  by destruct name.
Qed.

Lemma valid_name_segment name :
  Forall (fun c => valid_char c = true) name -> name <> [] ->
  ("/"%char ∉ name) /\ name <> ("." : str).
Proof.
  intros Hvalid Hne. split.
  - intros Hin. rewrite Forall_forall in Hvalid.
    by destruct (valid_plain _ (Hvalid _ Hin)).
  - intros ->. apply Forall_cons in Hvalid as [Hdot _].
    by destruct (valid_plain _ Hdot).
Qed.

Lemma valid_name_lowered name :
  Forall (fun c => valid_char c = true) name ->
  Py.replace_char " " "-" (Py.lower name) = name.
Proof.
  unfold Py.replace_char, Py.lower.
  induction 1 as [|c name Hc _ IH]; [done|].
  cbn [map]. rewrite IH. f_equal.
  rewrite (valid_lower_fixed c Hc).
  rewrite (proj2 (SplitFacts.char_eqb_neq c " ")); [done|].
  by apply valid_not_space.
Qed.

(** A directory whose name is already a repository name (its characters
    are lower-case letters, digits, dashes and underscores, no two dashes
    in a row, no dash at either end, at most 100 characters) gets that
    name as its repository, wherever the directory lies; and so does the
    directory whose name has spaces where that name has dashes, so that
    the two directories share one repository. *)
Theorem repo_name_fixed name :
  name <> [] ->
  Forall (fun c => valid_char c = true) name ->
  Py.contains "--" name = false ->
  head name <> Some dash -> last name <> Some dash ->
  length name <= 100 ->
  path_to_repo_name name = name
  /\ (forall dir, path_to_repo_name (dir ++ "/" ++ name) = name)
  /\ (forall dir,
        path_to_repo_name (dir ++ "/" ++ Py.replace_char "-" " " name) = name).
Proof.
  intros Hne Hvalid Hrun Hhead Hlast Hlen.
  destruct (valid_name_segment name Hvalid Hne) as [Hslash Hdot].
  split; [|split].
  - apply cleaned_fixed; try done.
    rewrite SplitFacts.name_of_segment by done. by apply valid_name_lowered.
  - intros dir. apply cleaned_fixed; try done.
    rewrite SplitFacts.name_of_joined by done. by apply valid_name_lowered.
  - intros dir. apply cleaned_fixed; try done.
    assert (Hspaced : Forall (fun c => c <> "/"%char /\ c <> "."%char)
                        (Py.replace_char "-" " " name)
                      /\ Py.replace_char " " "-"
                           (Py.lower (Py.replace_char "-" " " name)) = name).
    { clear -Hvalid. unfold Py.replace_char, Py.lower.
      induction Hvalid as [|c name Hc _ [IH1 IH2]]; [done|].
      cbn [map].
      destruct (spaced_char c Hc) as (Hback & Hs & Hd).
      split; [by constructor|]. by rewrite Hback, IH2. }
    destruct Hspaced as [Hchars Hback].
    rewrite SplitFacts.name_of_joined; [exact Hback| | |].
    + intros Hin. rewrite Forall_forall in Hchars.
      by destruct (Hchars _ Hin).
    + destruct name; [done|discriminate].
    + intros E. rewrite E in Hchars. apply Forall_cons in Hchars as [[_ Hd] _].
      done.
Qed.

End RepoNameFixed.

(** [my-cool-app] names itself, and [My Cool App] lands on it too. *)
Lemma repo_name_fixed_witness :
  GitMax.path_to_repo_name "/home/user/my-cool-app" = ("my-cool-app" : str)
  /\ GitMax.path_to_repo_name "/home/user/my cool app" = ("my-cool-app" : str).
Proof.
  destruct (RepoNameFixed.repo_name_fixed "my-cool-app") as (_ & Hdir & Hspaced).
  - discriminate.
  - apply (bool_decide_unpack _). by vm_compute.
  - reflexivity.
  - discriminate.
  - discriminate.
  - cbn. lia.
  - split; [exact (Hdir "/home/user")|exact (Hspaced "/home/user")].
Defined.

(** ** What the converter can write *)

Module ConverterMore.
Import GitMax ConvertOneliner.

Lemma take_while_Forall f s : Forall (fun c => f c = true) (Py.take_while f s).
Proof.
  induction s as [|c s IH]; cbn [Py.take_while]; [constructor|].
  destruct (f c) eqn:E; by constructor.
Qed.

Lemma last_of_spaces spaces :
  Forall (fun c => Py.isspace c = true) spaces ->
  Py.isspace (List.last spaces " "%char) = true.
Proof.
  induction 1 as [|c rest Hc Hrest IH]; [reflexivity|].
  destruct rest; [exact Hc|exact IH].
Qed.

Lemma space_not_semicolon c : Py.isspace c = true -> c <> ";"%char.
Proof. by intros Hc ->. Qed.

Lemma match_here_group s group len :
  match_here s = Some (group, len) -> ";"%char ∉ group.
Proof.
  unfold match_here. destruct (Py.startswith "gitit" s); [|done].
  cbn zeta.
  pose proof (take_while_Forall Py.isspace (drop 5 s)) as Hspaces.
  destruct (Py.take_while Py.isspace (drop 5 s)) as [|a [|b spaces]] eqn:Es;
    [done| |].
  - pose proof (take_while_Forall not_semicolon (drop (length [a]) (drop 5 s)))
      as Hgroup.
    destruct (Py.take_while not_semicolon _) as [|x g]; [done|].
    intros [= <- _]. intros Hin. rewrite Forall_forall in Hgroup.
    specialize (Hgroup _ Hin). by vm_compute in Hgroup.
  - pose proof (take_while_Forall not_semicolon
                  (drop (length (a :: b :: spaces)) (drop 5 s))) as Hgroup.
    destruct (Py.take_while not_semicolon _) as [|x g].
    + intros [= <- _]. intros Hin. apply list_elem_of_singleton in Hin.
      pose proof (last_of_spaces _ Hspaces) as Hlast.
      assert (Hsemi : Py.isspace ";" = true)
        by exact (eq_ind_r (fun c => Py.isspace c = true) Hlast Hin).
      by vm_compute in Hsemi.
    + intros [= <- _]. intros Hin. rewrite Forall_forall in Hgroup.
      specialize (Hgroup _ Hin). by vm_compute in Hgroup.
Qed.

Lemma findall_from_groups skip s group :
  group ∈ findall_from skip s -> ";"%char ∉ group.
Proof.
  revert skip. induction s as [|c s IH]; intros skip; cbn [findall_from].
  - intros H. by apply elem_of_nil in H.
  - destruct skip as [|k]; [|apply IH].
    destruct (match_here (c :: s)) as [[g len]|] eqn:E; [|apply IH].
    intros [->|Hin]%elem_of_cons; [|by apply IH in Hin].
    by apply match_here_group in E.
Qed.

(** Every path that [convert_oneliner] prints or writes is well formed:
    it is not empty, has no white space at either end and holds no
    semicolon, whatever the text of the input file. *)
Theorem convert_oneliner_well_formed content :
  Forall well_formed (convert_oneliner content).
Proof.
  apply Forall_forall. intros p Hp.
  unfold convert_oneliner in Hp.
  rewrite Converter.unique_first_occurrences in Hp.
  apply (proj1 (Converter.first_occurrences_elem _ _)) in Hp.
  pose proof (Converter.extract_nonempty content p Hp) as Hne.
  unfold extract, stripped in Hp.
  apply list_elem_of_fmap in Hp as (g & -> & Hg).
  apply list_elem_of_In, filter_In in Hg as [Hg _].
  apply list_elem_of_In in Hg.
  split; [exact Hne|]. split.
  - unfold Py.strip. apply PyFacts.strip_by_id.
    + apply PyFacts.strip_by_head.
    + apply PyFacts.strip_by_last.
  - intros Hin. apply (findall_from_groups 0 content g Hg).
    eapply elem_of_sublist; [exact Hin|]. apply PyFacts.strip_by_sublist.
Qed.

End ConverterMore.

(** ** One-liners read by both programs *)

Module OneLiner.
Import GitMax ConvertOneliner SplitFacts.

Lemma startswith_sep_other c rest :
  c <> ";"%char -> Py.startswith "; " (c :: rest) = false.
Proof.
  intros Hc. cbn [Py.startswith list_ascii_of_string].
  by rewrite (proj2 (char_eqb_neq ";" c)) by congruence.
Qed.

Lemma contains_sep_false s : ";"%char ∉ s -> Py.contains "; " s = false.
Proof.
  induction s as [|c s IH]; [done|].
  intros [Hc Hs]%not_elem_of_cons. cbn [Py.contains].
  rewrite startswith_sep_other by congruence. by apply IH.
Qed.

Lemma split_from_piece piece more cur :
  ";"%char ∉ piece ->
  Py.split_from "; " 0 cur (piece ++ "; " ++ more)
  = (reverse cur ++ piece) :: Py.split_from "; " 0 [] more.
Proof.
  revert cur. induction piece as [|c piece IH]; intros cur Hpiece.
  - cbn [app]. change (list_ascii_of_string "; " ++ more)
      with (";"%char :: " "%char :: more).
    cbn [Py.split_from]. change (Py.startswith "; " (";"%char :: " "%char :: more))
      with true. cbn iota.
    change (length (list_ascii_of_string "; ") - 1) with 1.
    cbn [Py.split_from]. by rewrite app_nil_r.
  - apply not_elem_of_cons in Hpiece as [Hc Hpiece].
    cbn [app Py.split_from]. rewrite startswith_sep_other by congruence.
    rewrite (IH _ Hpiece), reverse_cons, <- app_assoc. done.
Qed.

Lemma split_pieces pieces :
  pieces <> [] -> Forall (fun piece => ";"%char ∉ piece) pieces ->
  Py.split "; " (Py.join "; " pieces) = pieces.
Proof.
  intros Hne Hall. unfold Py.split.
  induction Hall as [|piece rest Hpiece Hrest IH]; [done|]. clear Hne.
  destruct rest as [|next rest].
  - cbn [Py.join]. rewrite split_from_no_sep; [done|].
    by apply contains_sep_false.
  - change (Py.join "; " (piece :: next :: rest))
      with (piece ++ "; " ++ Py.join "; " (next :: rest)).
    rewrite split_from_piece by done. rewrite reverse_nil. cbn [app].
    f_equal. by apply IH.
Qed.

Lemma last_joined sep pieces :
  pieces <> [] -> Forall (fun piece => piece <> []) pieces ->
  last (Py.join sep pieces) = last (List.last pieces []).
Proof.
  intros Hne Hall.
  induction Hall as [|piece rest Hpiece Hrest IH]; [done|]. clear Hne.
  destruct rest as [|next rest]; [done|].
  change (Py.join sep (piece :: next :: rest))
    with (piece ++ sep ++ Py.join sep (next :: rest)).
  change (List.last (piece :: next :: rest) [])
    with (List.last (next :: rest) []).
  rewrite <- IH by done.
  assert (Hjoin : Py.join sep (next :: rest) <> []).
  { apply Forall_cons in Hrest as [Hnext _].
    destruct rest; cbn [Py.join]; by destruct next. }
  rewrite app_assoc.
  destruct (Py.join sep (next :: rest)) as [|x more] using rev_ind; [done|].
  by rewrite app_assoc, !last_snoc.
Qed.

(** The text of a one-liner is one stripped line that starts with the
    marker. *)
Lemma oneliner_line paths :
  paths <> [] -> Forall well_formed paths ->
  Py.strip (oneliner "; " paths) = oneliner "; " paths
  /\ Py.startswith "gitit " (oneliner "; " paths) = true.
Proof.
  intros Hne Hall. unfold oneliner. split.
  - unfold Py.strip. apply PyFacts.strip_by_id.
    + destruct paths as [|p rest]; [done|].
      assert (E : exists tl, Py.join "; " (map (fun p => "gitit " ++ p) (p :: rest))
                             = "g"%char :: tl).
      { cbn [map]. destruct (map _ rest); cbn [Py.join]; by eexists. }
      destruct E as [tl ->]. intros c [= <-]. reflexivity.
    + intros c Hc. rewrite last_joined in Hc.
      * assert (Hlast : exists p, p ∈ paths
                          /\ List.last (map (fun p => "gitit " ++ p) paths) []
                             = "gitit " ++ p).
        { clear -Hne. induction paths as [|p rest IH]; [done|].
          destruct rest as [|q rest].
          - exists p. split; [left|done].
          - destruct IH as (r & Hr & E); [done|].
            exists r. split; [by right|exact E]. }
        destruct Hlast as (p & Hp & E). rewrite E in Hc.
        rewrite Forall_forall in Hall. destruct (Hall p Hp) as (Hpne & Hstrip & _).
        apply (PyFacts.strip_by_last Py.isspace p). fold (Py.strip p).
        rewrite Hstrip.
        destruct p as [|x p] using rev_ind; [done|].
        by rewrite app_assoc, last_snoc in Hc; rewrite last_snoc.
      * by destruct paths.
      * apply Forall_forall. intros piece Hpiece.
        apply list_elem_of_fmap in Hpiece as (p & -> & _). done.
  - destruct paths as [|p rest]; [done|]. cbn [map].
    destruct (map _ rest); cbn [Py.join]; rewrite <- ?app_assoc;
      apply startswith_app.
Qed.

(** A one-liner whose paths are well formed and separated by a semicolon
    and a space is read by [read_dirs_from_file] as exactly its paths, in
    order and with their repetitions; [convert_oneliner] keeps the first
    occurrence of each. So the converter returns what the reader returns,
    without the repetitions. *)
Theorem oneliner_read_both_ways paths :
  paths <> [] -> Forall well_formed paths ->
  read_dirs_from_file [oneliner "; " paths] = paths
  /\ convert_oneliner (oneliner "; " paths)
     = first_occurrences (read_dirs_from_file [oneliner "; " paths]).
Proof.
  intros Hne Hall.
  assert (Hread : read_dirs_from_file [oneliner "; " paths] = paths).
  { destruct (oneliner_line paths Hne Hall) as [Hstrip Hmarker].
    unfold read_dirs_from_file. cbn [foldl]. rewrite Hstrip, Hmarker.
    destruct (ListFile.marker_line _ Hmarker) as [-> ->]. cbn [negb andb].
    rewrite ListFile.legacy_parts_fold. cbn [app].
    unfold oneliner. rewrite split_pieces.
    - rewrite PyFacts.filter_all.
      + rewrite map_map. apply PyFacts.map_fixed.
        eapply Forall_impl; [exact Hall|]. intros p (_ & Hp & _).
        exact Hp.
      + apply Forall_forall. intros piece Hpiece.
        apply list_elem_of_fmap in Hpiece as (p & -> & _).
        apply startswith_app.
    - by destruct paths.
    - apply Forall_forall. intros piece Hpiece.
      apply list_elem_of_fmap in Hpiece as (p & -> & Hp).
      rewrite Forall_forall in Hall. destruct (Hall p Hp) as (_ & _ & Hsemi).
      intros Hin. apply elem_of_app in Hin as [Hin|Hin]; [|done].
      by vm_compute in Hin; repeat (apply elem_of_cons in Hin as [Hin|Hin];
                                    [discriminate|]); apply elem_of_nil in Hin. }
  split; [exact Hread|]. rewrite Hread.
  unfold convert_oneliner, extract.
  change (list_ascii_of_string "; ") with (";"%char :: " ").
  rewrite Converter.findall_oneliner; [|by vm_compute; intros H;
    repeat (apply elem_of_cons in H as [H|H]; [discriminate|]);
    apply elem_of_nil in H|exact Hall].
  rewrite Converter.stripped_well_formed by exact Hall.
  apply Converter.unique_first_occurrences.
Qed.

End OneLiner.

(** Three entries, one of them twice. *)
Lemma oneliner_read_both_ways_witness :
  GitMax.read_dirs_from_file ["gitit /srv/a; gitit /srv/b; gitit /srv/a" : str]
  = ["/srv/a" : str; "/srv/b" : str; "/srv/a" : str].
Proof.
  apply (OneLiner.oneliner_read_both_ways
           ["/srv/a" : str; "/srv/b" : str; "/srv/a" : str]).
  - discriminate.
  - unfold ConvertOneliner.well_formed.
    apply (bool_decide_unpack _). vm_compute. reflexivity.
Defined.

(** ** Without large-file storage *)

Module NoLfs.
Import GitMax Effects Traces.

Ltac untracked :=
  repeat first
    [ apply emits_ret
    | apply emits_ask
    | apply emits_run_cmd; reflexivity
    | apply emits_emit; reflexivity
    | apply emits_bind; [|intros]
    | open_scrutinee; cbn beta iota ].

Section Blocks.

Variable W : world.
Variable d : str.

Lemma create_attempts_untracked repo attempts :
  emits (fun e => lfs_setup e = false) (create_attempts W repo attempts).
Proof.
  induction attempts as [|attempt rest IH]; cbn [create_attempts]; unfold sleep.
  - untracked.
  - untracked. exact IH.
Qed.

Lemma verify_attempts_untracked repo attempts :
  emits (fun e => lfs_setup e = false) (verify_attempts W repo attempts).
Proof.
  induction attempts as [|attempt rest IH]; cbn [verify_attempts]; unfold sleep.
  - untracked.
  - untracked. exact IH.
Qed.

Lemma prepare_untracked result :
  emits (fun e => lfs_setup e = false) (prepare W d result false).
Proof.
  unfold prepare, rglob, exists_, rmtree, run_in.
  apply emits_bind; [untracked|]. intros items.
  apply emits_bind; [untracked|]. intros found.
  apply emits_bind.
  { apply emits_for_each. intros nested _. untracked. }
  intros _.
  apply emits_bind; [untracked|]. intros git_dir_exists.
  apply emits_bind; [untracked|]. intros _.
  apply emits_bind; [untracked|]. intros [[ok out] err].
  destruct ok; cbn [negb]; [|untracked].
  do 4 (apply emits_bind; [untracked|]; intros _).
  apply emits_bind; [unfold get_large_files, rglob; untracked|].
  intros large_files. rewrite andb_false_r. untracked.
Qed.

Lemma commit_and_wire_untracked repo staged_files :
  emits (fun e => lfs_setup e = false)
        (commit_and_wire W d repo staged_files).
Proof.
  unfold commit_and_wire, strftime, run_in.
  apply emits_bind; [untracked|]. intros timestamp.
  apply emits_bind; [untracked|]. intros _.
  apply emits_bind.
  { unfold ensure_github_repo, sleep.
    apply emits_bind; [untracked|]. intros [[ok out] err].
    destruct ok; cbn [negb]; [untracked|].
    apply emits_bind; [apply create_attempts_untracked|].
    intros returned. untracked. }
  intros _.
  apply emits_bind; [apply verify_attempts_untracked|]. intros _.
  untracked.
Qed.

Lemma push_attempts_untracked attempts err :
  emits (fun e => lfs_setup e = false) (push_attempts W d attempts err).
Proof.
  revert err. induction attempts as [|attempt rest IH]; intros err;
    cbn [push_attempts].
  - untracked.
  - apply emits_bind; [untracked|]. intros [[ok out] err'].
    destruct ok; [untracked|].
    apply emits_bind; [unfold react, sleep; untracked|]. intros _. apply IH.
Qed.

Lemma publish_untracked repo result dry_run :
  emits (fun e => lfs_setup e = false)
        (publish W d repo result dry_run false).
Proof.
  unfold publish. destruct dry_run.
  - unfold get_large_files, rglob. untracked.
  - apply emits_bind; [apply prepare_untracked|].
    intros [failed|[result' err]]; [untracked|].
    apply emits_bind; [unfold stage, run_in; untracked|].
    intros [failed|staged_files]; [untracked|].
    apply emits_bind; [apply commit_and_wire_untracked|]. intros _.
    unfold push_and_verify, run_in.
    apply emits_bind; [apply push_attempts_untracked|].
    intros [push_ok err']. untracked.
Qed.

End Blocks.

(** With large-file storage switched off a job never installs it and
    never tracks a pattern or a file, whatever it finds; but it still
    answers a push that was refused for a large file with
    [git lfs push]: there is a world in which a job without large-file
    storage runs that command. *)
Theorem no_lfs_tracks_nothing :
  (forall W dir dry_run h,
     Forall (fun e => lfs_setup e = false)
            (snd (process_directory W dir dry_run false h)))
  /\ (exists W dir h,
        lfs_push_event dir ∈ snd (process_directory W dir false false h)).
Proof.
  split.
  - intros W dir dry_run h. set (d := path_resolve W h dir).
    unfold process_directory, resolve. rewrite Steps.bind_ask. fold d.
    match goal with
    | |- Forall _ (snd (?m h)) =>
        enough (emits (fun e => lfs_setup e = false) m) as Hem by exact (Hem h)
    end.
    unfold exists_.
    apply emits_bind; [untracked|]. intros dir_exists.
    destruct dir_exists; cbn [negb]; [|untracked].
    apply emits_bind; [unfold is_already_synced, run_in, exists_; untracked|].
    intros [synced reason].
    destruct synced; [untracked|]. apply publish_untracked.
  - exists (Samples.fresh
              (Samples.failed_with
                 "remote: error: File big.bin is 120.00 MB; this exceeds the limit")),
      Samples.job, [].
    apply list_elem_of_In. vm_compute.
    repeat first [left; reflexivity|right].
Qed.

End NoLfs.
